(** * Remote browser server (src/server.js): model and verification

    The server is a single Node.js process.  Every callback (a WebSocket
    event, a timer, the continuation of an awaited call) runs to its next
    suspension point on one event loop, and other callbacks run while an
    async function is suspended.  The model below is a state machine over a
    [World]: the two module-level maps, the closure variables of every
    [wss.on('connection')] callback with the point at which the callback is
    suspended, the pending timers, the awaited calls that have not settled
    yet, the state of the Playwright objects the code asks about, and the
    log of the calls the server makes on its collaborators.  Every [await]
    of the source is a suspension point of the model: the part of a function
    before it and the part after it are separate steps, each with its own
    value of [Date.now()]. *)

From Stdlib Require Import ZArith List Strings.String Strings.Ascii Strings.Byte.
From stdpp Require Import base decidable option gmap strings list pretty.
Import ListNotations.

Definition bytes := list byte.

(** ** [crypto.createHash('md5').update(b).digest('hex')] (RFC 1321) *)

Module MD5.
Local Open Scope Z_scope.

Definition w32 (x : Z) : Z := x mod 2 ^ 32.
Definition not32 (x : Z) : Z := Z.lxor x 0xFFFFFFFF.
Definition rotl32 (x c : Z) : Z :=
  w32 (Z.lor (Z.shiftl x c) (Z.shiftr x (32 - c))).

Definition shifts : list Z :=
  [7; 12; 17; 22; 7; 12; 17; 22; 7; 12; 17; 22; 7; 12; 17; 22;
   5; 9; 14; 20; 5; 9; 14; 20; 5; 9; 14; 20; 5; 9; 14; 20;
   4; 11; 16; 23; 4; 11; 16; 23; 4; 11; 16; 23; 4; 11; 16; 23;
   6; 10; 15; 21; 6; 10; 15; 21; 6; 10; 15; 21; 6; 10; 15; 21].

Definition sines : list Z :=
  [0xd76aa478; 0xe8c7b756; 0x242070db; 0xc1bdceee; 0xf57c0faf; 0x4787c62a;
   0xa8304613; 0xfd469501; 0x698098d8; 0x8b44f7af; 0xffff5bb1; 0x895cd7be;
   0x6b901122; 0xfd987193; 0xa679438e; 0x49b40821; 0xf61e2562; 0xc040b340;
   0x265e5a51; 0xe9b6c7aa; 0xd62f105d; 0x02441453; 0xd8a1e681; 0xe7d3fbc8;
   0x21e1cde6; 0xc33707d6; 0xf4d50d87; 0x455a14ed; 0xa9e3e905; 0xfcefa3f8;
   0x676f02d9; 0x8d2a4c8a; 0xfffa3942; 0x8771f681; 0x6d9d6122; 0xfde5380c;
   0xa4beea44; 0x4bdecfa9; 0xf6bb4b60; 0xbebfbc70; 0x289b7ec6; 0xeaa127fa;
   0xd4ef3085; 0x04881d05; 0xd9d4d039; 0xe6db99e5; 0x1fa27cf8; 0xc4ac5665;
   0xf4292244; 0x432aff97; 0xab9423a7; 0xfc93a039; 0x655b59c3; 0x8f0ccc92;
   0xffeff47d; 0x85845dd1; 0x6fa87e4f; 0xfe2ce6e0; 0xa3014314; 0x4e0811a1;
   0xf7537e82; 0xbd3af235; 0x2ad7d2bb; 0xeb86d391].

Definition byteZ (b : byte) : Z := Z.of_N (Byte.to_N b).

(** Little-endian encoding of [x] on [n] bytes. *)
Fixpoint le_bytes (n : nat) (x : Z) : list Z :=
  match n with
  | O => []
  | S n' => x mod 256 :: le_bytes n' (x / 256)
  end.

Definition pad (msg : list Z) : list Z :=
  let len := Z.of_nat (List.length msg) in
  msg ++ [0x80] ++ repeat 0 (Z.to_nat ((55 - len) mod 64)) ++ le_bytes 8 (8 * len).

Fixpoint words (n : nat) (bs : list Z) : list Z :=
  match n, bs with
  | S n', b0 :: b1 :: b2 :: b3 :: rest =>
      (b0 + 256 * (b1 + 256 * (b2 + 256 * b3))) :: words n' rest
  | _, _ => []
  end.

Definition state := (Z * Z * Z * Z)%type.

Definition round (M : list Z) (st : state) (i : Z) : state :=
  let '(a, b, c, d) := st in
  let f :=
    if i <? 16 then Z.lor (Z.land b c) (Z.land (not32 b) d)
    else if i <? 32 then Z.lor (Z.land d b) (Z.land (not32 d) c)
    else if i <? 48 then Z.lxor b (Z.lxor c d)
    else Z.lxor c (Z.lor b (not32 d)) in
  let g :=
    if i <? 16 then i
    else if i <? 32 then (5 * i + 1) mod 16
    else if i <? 48 then (3 * i + 5) mod 16
    else (7 * i) mod 16 in
  let f' := w32 (f + a + nth (Z.to_nat i) sines 0 + nth (Z.to_nat g) M 0) in
  (d, w32 (b + rotl32 f' (nth (Z.to_nat i) shifts 0)), b, c).

Definition block (st : state) (M : list Z) : state :=
  let '(a0, b0, c0, d0) := st in
  let '(a, b, c, d) := fold_left (round M) (map Z.of_nat (seq 0 64)) st in
  (w32 (a0 + a), w32 (b0 + b), w32 (c0 + c), w32 (d0 + d)).

Fixpoint blocks (n : nat) (st : state) (ws : list Z) : state :=
  match n with
  | O => st
  | S n' => blocks n' (block st (firstn 16 ws)) (skipn 16 ws)
  end.

Definition hexdigit (x : Z) : ascii :=
  ascii_of_nat (Z.to_nat (if x <? 10 then 48 + x else 87 + x)).

Fixpoint hex (bs : list Z) : string :=
  match bs with
  | [] => EmptyString
  | b :: rest =>
      String (hexdigit (b / 16)) (String (hexdigit (b mod 16)) (hex rest))
  end.

Definition digest (msg : bytes) : string :=
  let p := pad (map byteZ msg) in
  let ws := words (List.length p / 4) p in
  let '(a, b, c, d) :=
    blocks (List.length ws / 16)
      (0x67452301, 0xefcdab89, 0x98badcfe, 0x10325476) ws in
  hex (le_bytes 4 a ++ le_bytes 4 b ++ le_bytes 4 c ++ le_bytes 4 d).
End MD5.

Arguments MD5.digest : simpl never.

(** [s.includes(sub)] *)
Definition includes (s sub : string) : bool :=
  match String.index 0 sub s with Some _ => true | None => false end.

(** ** Configuration (lines 13-34, the defaults used when the environment
    variables are unset) *)

Definition INTERACTION_FRAME_DELAY_MS : Z := 50.
Definition POST_EVENT_EXTRA_DELAY_MS : Z := 1500.
Definition NAV_FRAME_DELAY_MS : Z := 300.
Definition BROWSER_SWEEP_INTERVAL_MS : Z := 300000.
Definition MIN_SCROLL_FRAME_INTERVAL_MS : Z := 120.
(** The literals of lines 228, 255/301 and 114. *)
Definition SESSION_REMOVAL_DELAY_MS : Z := 30000.
Definition INITIAL_FRAME_DELAY_MS : Z := 100.
Definition TIMEOUT_LOG_COOLDOWN_MS : Z := 3000.

(** ** A JavaScript [Map] that is iterated while it changes: [userBrowsers]

    The entries are kept in insertion order.  As in the specification of
    [Map] (ECMA-262, Map.prototype.delete and %MapIteratorPrototype%.next),
    a deleted entry leaves an empty slot, a new key is appended, and an
    iterator is a position in the list that skips the empty slots: the
    [for-of] of line 317 sees the deletions and insertions made while it is
    suspended. *)

Module JsMap.
Section Ops.
Context {V : Type}.
Implicit Types (m : list (option (string * V))) (k : string).

Fixpoint get m k : option V :=
  match m with
  | [] => None
  | Some (k', v) :: m' => if decide (k' = k) then Some v else get m' k
  | None :: m' => get m' k
  end.

Definition has m k : bool := bool_decide (is_Some (get m k)).

(** [set] keeps the position of an existing key and appends a new one. *)
Fixpoint set m k (v : V) : list (option (string * V)) :=
  match m with
  | [] => [Some (k, v)]
  | Some (k', v') :: m' =>
      if decide (k' = k) then Some (k, v) :: m' else Some (k', v') :: set m' k v
  | None :: m' => None :: set m' k v
  end.

Fixpoint delete m k : list (option (string * V)) :=
  match m with
  | [] => []
  | Some (k', v') :: m' =>
      if decide (k' = k) then None :: m' else Some (k', v') :: delete m' k
  | None :: m' => None :: delete m' k
  end.

(** The entries of the map, in iteration order. *)
Definition entries m : list (string * V) := omap id m.

Definition keys m : list string := map fst (entries m).
End Ops.
End JsMap.

(** ** Data model *)

(** [ws.readyState] *)
Inductive ReadyState := CONNECTING | OPEN | CLOSING | CLOSED.

Global Instance ReadyState_eq_dec : EqDecision ReadyState.
Proof. solve_decision. Defined.

(** What the code can observe of a Playwright page; pages, contexts and
    browsers are objects, compared by identity (a [nat] here).  [pg_url] is
    the address the page is on. *)
Record Page := {
  pg_context : nat;
  pg_browser : nat;
  pg_url : string;
  pg_closed : bool
}.

(** The value stored in [activeSessions] (line 294). *)
Record Session := { page : nat; context : nat; browser : nat }.

(** The second argument of [sendFrame]. *)
Record Options := { force : bool }.

Global Instance Options_eq_dec : EqDecision Options.
Proof. solve_decision. Defined.

(** The [setTimeout] call sites that schedule a plain [sendFrame]. *)
Inductive Site :=
| Replay        (* line 125, in the finally block *)
| EventNow      (* line 134 *)
| EventExtra    (* line 135 *)
| NavNow        (* line 139 *)
| NavExtra      (* line 140 *)
| ScrollLive    (* line 149 *)
| InitForced    (* lines 255 and 301 *)
| InitExtra.    (* lines 256 and 302 *)

Global Instance Site_eq_dec : EqDecision Site.
Proof. solve_decision. Defined.

(** The closures handed to [setTimeout]. *)
Inductive Callback :=
| CbSendFrame (site : Site) (conn pg : nat) (options : Options)
| CbSettle (conn pg : nat)     (* lines 154-157 *)
| CbRemove (sKey : string).    (* lines 220-228 *)

Global Instance Callback_eq_dec : EqDecision Callback.
Proof. solve_decision. Defined.

Record Timer := { due : Z; cb : Callback }.

(** A [page.screenshot] call that has not settled, with the variables its
    continuation captured. *)
Record Capture := {
  cap_id : nat;
  cap_conn : nat;
  cap_page : nat;
  cap_options : Options
}.

(** A parsed message ([data.type] and its payload). *)
Inductive Command :=
| Click (x y : Z) (button : option string)
| Scroll (deltaX deltaY : option Z)
| Key (key text : option string)
| Reload
| Back
| Forward
| Unknown (type : string).

(** The [await] at which the session logic of a connection callback
    (lines 262-292) is suspended, with the local variables its continuation
    uses. *)
Inductive Setup :=
| AtLaunch (userId targetUrl : string)               (* line 266 *)
| AtNewContext (b : nat) (targetUrl : string)        (* line 275 *)
| AtNewPage (b ctx : nat) (targetUrl : string)       (* line 279 *)
| AtSetViewportSize (b ctx pg : nat) (targetUrl : string)   (* line 280 *)
| AtGoto (b ctx pg : nat) (targetUrl : string)       (* line 284 *)
| AtTitle (b ctx pg : nat)                           (* line 288 *)
| AtGotoBlank (b ctx pg : nat).                      (* line 291 *)

(** The other awaited calls: the one of a ['message'] listener (lines
    167-200) and the [browser.close()] of a sweep (line 322), whose
    continuation holds the position of the iterator of the [for-of]. *)
Inductive Awaited :=
| AwInteraction (conn pg : nat) (cmd : Command)
| AwBrowserClose (userId : string) (b : nat) (next : nat).

(** The closure variables of one [wss.on('connection')] callback
    (lines 65-75), its socket, the point at which the callback is suspended
    and the arguments of [setupInteractionHandler] once it has been
    called. *)
Record Conn := {
  sessionKey : option string;
  lastScreenshotHash : option string;
  isCapturing : bool;
  pendingCapture : bool;
  lastTimeoutLogTs : Z;
  lastScrollFrameTs : Z;
  scrollSettleTimer : option nat;
  readyState : ReadyState;
  setup : option Setup;
  handler : option (nat * string)
}.

(** The calls the server makes on its collaborators. *)
Inductive Effect :=
| ESetTimeout (id : nat) (t : Timer)
| EClearTimeout (id : nat)
| EScreenshot (cap : Capture)
| ESend (conn : nat) (frame : bytes)
| EWsClose (conn : nat)
| EContextClose (ctx : nat)
| EBrowserClose (b : nat)
| ELog (msg : string).

Record World := {
  userBrowsers : list (option (string * nat));   (* line 37 *)
  activeSessions : gmap string Session;          (* line 38 *)
  conns : gmap nat Conn;
  nextConn : nat;
  timers : gmap nat Timer;
  nextTimer : nat;
  inflight : list Capture;
  nextCapture : nat;
  awaiting : gmap nat Awaited;
  nextAwait : nat;
  pages : gmap nat Page;
  nextObject : nat;
  effects : list (Z * Effect)              (* oldest first, with Date.now() *)
}.

Definition initial : World :=
  {| userBrowsers := []; activeSessions := ∅; conns := ∅; nextConn := 0;
     timers := ∅; nextTimer := 0; inflight := []; nextCapture := 0;
     awaiting := ∅; nextAwait := 0;
     pages := ∅; nextObject := 0; effects := [] |}.

(** *** Field updates *)

Definition with_isCapturing (x : bool) (cn : Conn) : Conn :=
  {| sessionKey := sessionKey cn; lastScreenshotHash := lastScreenshotHash
     cn; isCapturing := x; pendingCapture := pendingCapture cn;
     lastTimeoutLogTs := lastTimeoutLogTs cn; lastScrollFrameTs :=
     lastScrollFrameTs cn; scrollSettleTimer := scrollSettleTimer cn;
     readyState := readyState cn; setup := setup cn; handler := handler cn
     |}.

Definition with_pendingCapture (x : bool) (cn : Conn) : Conn :=
  {| sessionKey := sessionKey cn; lastScreenshotHash := lastScreenshotHash
     cn; isCapturing := isCapturing cn; pendingCapture := x;
     lastTimeoutLogTs := lastTimeoutLogTs cn; lastScrollFrameTs :=
     lastScrollFrameTs cn; scrollSettleTimer := scrollSettleTimer cn;
     readyState := readyState cn; setup := setup cn; handler := handler cn
     |}.

Definition with_lastScreenshotHash (x : option string) (cn : Conn) : Conn :=
  {| sessionKey := sessionKey cn; lastScreenshotHash := x; isCapturing :=
     isCapturing cn; pendingCapture := pendingCapture cn; lastTimeoutLogTs
     := lastTimeoutLogTs cn; lastScrollFrameTs := lastScrollFrameTs cn;
     scrollSettleTimer := scrollSettleTimer cn; readyState := readyState cn;
     setup := setup cn; handler := handler cn |}.

Definition with_lastTimeoutLogTs (x : Z) (cn : Conn) : Conn :=
  {| sessionKey := sessionKey cn; lastScreenshotHash := lastScreenshotHash
     cn; isCapturing := isCapturing cn; pendingCapture := pendingCapture cn;
     lastTimeoutLogTs := x; lastScrollFrameTs := lastScrollFrameTs cn;
     scrollSettleTimer := scrollSettleTimer cn; readyState := readyState cn;
     setup := setup cn; handler := handler cn |}.

Definition with_lastScrollFrameTs (x : Z) (cn : Conn) : Conn :=
  {| sessionKey := sessionKey cn; lastScreenshotHash := lastScreenshotHash
     cn; isCapturing := isCapturing cn; pendingCapture := pendingCapture cn;
     lastTimeoutLogTs := lastTimeoutLogTs cn; lastScrollFrameTs := x;
     scrollSettleTimer := scrollSettleTimer cn; readyState := readyState cn;
     setup := setup cn; handler := handler cn |}.

Definition with_scrollSettleTimer (x : option nat) (cn : Conn) : Conn :=
  {| sessionKey := sessionKey cn; lastScreenshotHash := lastScreenshotHash
     cn; isCapturing := isCapturing cn; pendingCapture := pendingCapture cn;
     lastTimeoutLogTs := lastTimeoutLogTs cn; lastScrollFrameTs :=
     lastScrollFrameTs cn; scrollSettleTimer := x; readyState := readyState
     cn; setup := setup cn; handler := handler cn |}.

Definition with_readyState (x : ReadyState) (cn : Conn) : Conn :=
  {| sessionKey := sessionKey cn; lastScreenshotHash := lastScreenshotHash
     cn; isCapturing := isCapturing cn; pendingCapture := pendingCapture cn;
     lastTimeoutLogTs := lastTimeoutLogTs cn; lastScrollFrameTs :=
     lastScrollFrameTs cn; scrollSettleTimer := scrollSettleTimer cn;
     readyState := x; setup := setup cn; handler := handler cn |}.

Definition with_sessionKey (x : option string) (cn : Conn) : Conn :=
  {| sessionKey := x; lastScreenshotHash := lastScreenshotHash cn;
     isCapturing := isCapturing cn; pendingCapture := pendingCapture cn;
     lastTimeoutLogTs := lastTimeoutLogTs cn; lastScrollFrameTs :=
     lastScrollFrameTs cn; scrollSettleTimer := scrollSettleTimer cn;
     readyState := readyState cn; setup := setup cn; handler := handler cn
     |}.

Definition with_setup (x : option Setup) (cn : Conn) : Conn :=
  {| sessionKey := sessionKey cn; lastScreenshotHash := lastScreenshotHash
     cn; isCapturing := isCapturing cn; pendingCapture := pendingCapture cn;
     lastTimeoutLogTs := lastTimeoutLogTs cn; lastScrollFrameTs :=
     lastScrollFrameTs cn; scrollSettleTimer := scrollSettleTimer cn;
     readyState := readyState cn; setup := x; handler := handler cn |}.

Definition with_handler (x : option (nat * string)) (cn : Conn) : Conn :=
  {| sessionKey := sessionKey cn; lastScreenshotHash := lastScreenshotHash
     cn; isCapturing := isCapturing cn; pendingCapture := pendingCapture cn;
     lastTimeoutLogTs := lastTimeoutLogTs cn; lastScrollFrameTs :=
     lastScrollFrameTs cn; scrollSettleTimer := scrollSettleTimer cn;
     readyState := readyState cn; setup := setup cn; handler := x |}.

Definition with_closed (p : Page) : Page :=
  {| pg_context := pg_context p; pg_browser := pg_browser p;
     pg_url := pg_url p; pg_closed := true |}.

Definition setUrl (url : string) (p : Page) : Page :=
  {| pg_context := pg_context p; pg_browser := pg_browser p;
     pg_url := url; pg_closed := pg_closed p |}.

Definition set_userBrowsers (m : list (option (string * nat))) (w : World) : World :=
  {| userBrowsers := m; activeSessions := activeSessions w; conns := conns
     w; nextConn := nextConn w; timers := timers w; nextTimer := nextTimer
     w; inflight := inflight w; nextCapture := nextCapture w; awaiting :=
     awaiting w; nextAwait := nextAwait w; pages := pages w; nextObject :=
     nextObject w; effects := effects w |}.

Definition set_activeSessions (m : gmap string Session) (w : World) : World :=
  {| userBrowsers := userBrowsers w; activeSessions := m; conns := conns w;
     nextConn := nextConn w; timers := timers w; nextTimer := nextTimer w;
     inflight := inflight w; nextCapture := nextCapture w; awaiting :=
     awaiting w; nextAwait := nextAwait w; pages := pages w; nextObject :=
     nextObject w; effects := effects w |}.

Definition set_conns (m : gmap nat Conn) (w : World) : World :=
  {| userBrowsers := userBrowsers w; activeSessions := activeSessions w;
     conns := m; nextConn := nextConn w; timers := timers w; nextTimer :=
     nextTimer w; inflight := inflight w; nextCapture := nextCapture w;
     awaiting := awaiting w; nextAwait := nextAwait w; pages := pages w;
     nextObject := nextObject w; effects := effects w |}.

Definition set_nextConn (n : nat) (w : World) : World :=
  {| userBrowsers := userBrowsers w; activeSessions := activeSessions w;
     conns := conns w; nextConn := n; timers := timers w; nextTimer :=
     nextTimer w; inflight := inflight w; nextCapture := nextCapture w;
     awaiting := awaiting w; nextAwait := nextAwait w; pages := pages w;
     nextObject := nextObject w; effects := effects w |}.

Definition set_timers (m : gmap nat Timer) (n : nat) (w : World) : World :=
  {| userBrowsers := userBrowsers w; activeSessions := activeSessions w;
     conns := conns w; nextConn := nextConn w; timers := m; nextTimer := n;
     inflight := inflight w; nextCapture := nextCapture w; awaiting :=
     awaiting w; nextAwait := nextAwait w; pages := pages w; nextObject :=
     nextObject w; effects := effects w |}.

Definition set_inflight (l : list Capture) (n : nat) (w : World) : World :=
  {| userBrowsers := userBrowsers w; activeSessions := activeSessions w;
     conns := conns w; nextConn := nextConn w; timers := timers w; nextTimer
     := nextTimer w; inflight := l; nextCapture := n; awaiting := awaiting
     w; nextAwait := nextAwait w; pages := pages w; nextObject := nextObject
     w; effects := effects w |}.

Definition set_awaiting (m : gmap nat Awaited) (n : nat) (w : World) : World :=
  {| userBrowsers := userBrowsers w; activeSessions := activeSessions w;
     conns := conns w; nextConn := nextConn w; timers := timers w; nextTimer
     := nextTimer w; inflight := inflight w; nextCapture := nextCapture w;
     awaiting := m; nextAwait := n; pages := pages w; nextObject :=
     nextObject w; effects := effects w |}.

Definition set_pages (m : gmap nat Page) (n : nat) (w : World) : World :=
  {| userBrowsers := userBrowsers w; activeSessions := activeSessions w;
     conns := conns w; nextConn := nextConn w; timers := timers w; nextTimer
     := nextTimer w; inflight := inflight w; nextCapture := nextCapture w;
     awaiting := awaiting w; nextAwait := nextAwait w; pages := m;
     nextObject := n; effects := effects w |}.

Definition emit (now : Z) (e : Effect) (w : World) : World :=
  {| userBrowsers := userBrowsers w; activeSessions := activeSessions w;
     conns := conns w; nextConn := nextConn w; timers := timers w; nextTimer
     := nextTimer w; inflight := inflight w; nextCapture := nextCapture w;
     awaiting := awaiting w; nextAwait := nextAwait w; pages := pages w;
     nextObject := nextObject w; effects := effects w ++ [(now, e)] |}.

Definition store (c : nat) (cn : Conn) (w : World) : World :=
  set_conns (<[c := cn]> (conns w)) w.
(** ** Timers and Playwright objects *)

Section Primitives.
Local Open Scope Z_scope.

(** [setTimeout(f, delay)]; the handle it returns is [nextTimer w].
    Handles are never reused, as Node's [Timeout] objects. *)
Definition setTimeout (now : Z) (f : Callback) (delay : Z) (w : World) : World :=
  let id := nextTimer w in
  let t := {| due := now + delay; cb := f |} in
  emit now (ESetTimeout id t) (set_timers (<[id := t]> (timers w)) (S id) w).

Definition clearTimeout (now : Z) (id : nat) (w : World) : World :=
  emit now (EClearTimeout id)
    (set_timers (delete id (timers w)) (nextTimer w) w).

(** [page.isClosed()] *)
Definition isClosed (pg : nat) (w : World) : bool :=
  match pages w !! pg with
  | Some p => pg_closed p
  | None => true
  end.

(** [context.close()]: the pages of the context are closed with it. *)
Definition closeContext (now : Z) (ctx : nat) (w : World) : World :=
  emit now (EContextClose ctx)
    (set_pages
       ((λ p, if decide (pg_context p = ctx) then with_closed p else p)
          <$> pages w)
       (nextObject w) w).

(** The awaited [browser.close()] of line 322 has returned: the pages of
    the browser are closed. *)
Definition browserClosed (b : nat) (w : World) : World :=
  set_pages
    ((λ p, if decide (pg_browser p = b) then with_closed p else p)
       <$> pages w)
    (nextObject w) w.

(** The page is on [url] (a navigation has succeeded, or the page has moved
    on its own). *)
Definition navigate (pg : nat) (url : string) (w : World) : World :=
  set_pages (alter (setUrl url) pg (pages w)) (nextObject w) w.

(** A call is awaited: its continuation [a] is kept until the call
    settles. *)
Definition await (a : Awaited) (w : World) : World :=
  set_awaiting (<[nextAwait w := a]> (awaiting w)) (S (nextAwait w)) w.
End Primitives.

(** ** [sendFrame] (lines 78-130)

    The function is split at its only suspension point, the awaited
    [page.screenshot] of line 88.  [sendFrame] is the part that runs when
    the function is called; [screenshotSettled] is the continuation.  The
    [finally] block (lines 121-129) runs on every way out of the [try],
    the [return]s of lines 80, 84 and 98 included. *)

Section SendFrame.
Local Open Scope Z_scope.

(** Lines 121-129, for the closure state [cn] of connection [c]. *)
Definition sendFrame_finally (now : Z) (c pg : nat) (cn : Conn) (w : World)
    : World :=
  let cn := with_isCapturing false cn in
  if pendingCapture cn && negb (isClosed pg w) then
    setTimeout now (CbSendFrame Replay c pg {| force := false |})
      INTERACTION_FRAME_DELAY_MS
      (store c (with_pendingCapture false cn) w)
  else store c cn w.

(** Lines 79-88. *)
Definition sendFrame (now : Z) (c pg : nat) (options : Options) (w : World)
    : World :=
  match conns w !! c with
  | None => w
  | Some cn =>
      if isClosed pg w then sendFrame_finally now c pg cn w
      else if isCapturing cn then
        sendFrame_finally now c pg (with_pendingCapture true cn) w
      else
        let cap := {| cap_id := nextCapture w; cap_conn := c;
                      cap_page := pg; cap_options := options |} in
        emit now (EScreenshot cap)
          (set_inflight (inflight w ++ [cap]) (S (nextCapture w))
             (store c (with_isCapturing true cn) w))
  end.

(** Lines 95-104. *)
Definition sendFrame_deliver (now : Z) (c : nat) (options : Options)
    (screenshot : bytes) (cn : Conn) (w : World) : Conn * World :=
  let hash := MD5.digest screenshot in
  if negb (force options) && bool_decide (lastScreenshotHash cn = Some hash)
  then (cn, w)
  else
    let cn := with_lastScreenshotHash (Some hash) cn in
    (cn, if decide (readyState cn = OPEN)
         then emit now (ESend c screenshot) w else w).

(** Lines 105-120; [msg] is the message of the error. *)
Definition sendFrame_catch (now : Z) (msg : string) (cn : Conn) (w : World)
    : Conn * World :=
  if includes msg "Target closed" || includes msg "closed" then
    match sessionKey cn with
    | Some k =>
        if bool_decide (is_Some (activeSessions w !! k))
        then (cn, set_activeSessions (delete k (activeSessions w)) w)
        else (cn, w)
    | None => (cn, w)
    end
  else if includes msg "Timeout" && includes msg "page.screenshot" then
    if now - lastTimeoutLogTs cn >? TIMEOUT_LOG_COOLDOWN_MS
    then (with_lastTimeoutLogTs now cn,
          emit now (ELog ("Timeout en sendFrame (screenshot): " +:+ msg)) w)
    else (cn, w)
  else (cn, emit now (ELog ("Error en sendFrame: " +:+ msg)) w).

(** How an awaited [page.screenshot] ends. *)
Inductive Settled := Resolved (screenshot : bytes) | Rejected (msg : string).

Definition screenshotSettled (now : Z) (id : nat) (r : Settled) (w : World)
    : World :=
  match List.find (λ k, bool_decide (cap_id k = id)) (inflight w) with
  | None => w
  | Some cap =>
      let w :=
        set_inflight
          (List.filter (λ k, negb (bool_decide (cap_id k = id))) (inflight w))
          (nextCapture w) w in
      match conns w !! cap_conn cap with
      | None => w
      | Some cn =>
          let '(cn, w) :=
            match r with
            | Resolved screenshot =>
                sendFrame_deliver now (cap_conn cap) (cap_options cap)
                  screenshot cn w
            | Rejected msg => sendFrame_catch now msg cn w
            end in
          sendFrame_finally now (cap_conn cap) (cap_page cap) cn w
      end
  end.
End SendFrame.

(** ** Scheduling (lines 133-158) *)

Section Schedules.
Local Open Scope Z_scope.

Definition scheduleEventFrames (now : Z) (c pg : nat) (immediateDelay : Z)
    (w : World) : World :=
  setTimeout now (CbSendFrame EventExtra c pg {| force := false |})
    POST_EVENT_EXTRA_DELAY_MS
    (setTimeout now (CbSendFrame EventNow c pg {| force := false |})
       immediateDelay w).

Definition scheduleNavFrames (now : Z) (c pg : nat) (forceFirst : bool)
    (w : World) : World :=
  setTimeout now (CbSendFrame NavExtra c pg {| force := false |})
    POST_EVENT_EXTRA_DELAY_MS
    (setTimeout now (CbSendFrame NavNow c pg {| force := forceFirst |})
       NAV_FRAME_DELAY_MS w).

Definition scheduleScrollFrames (now : Z) (c pg : nat) (w : World) : World :=
  match conns w !! c with
  | None => w
  | Some cn =>
      let '(cn, w) :=
        if now - lastScrollFrameTs cn >? MIN_SCROLL_FRAME_INTERVAL_MS then
          (with_lastScrollFrameTs now cn,
           setTimeout now (CbSendFrame ScrollLive c pg {| force := false |})
             INTERACTION_FRAME_DELAY_MS w)
        else (cn, w) in
      let w :=
        match scrollSettleTimer cn with
        | Some h => clearTimeout now h w
        | None => w
        end in
      setTimeout now (CbSettle c pg) POST_EVENT_EXTRA_DELAY_MS
        (store c (with_scrollSettleTimer (Some (nextTimer w)) cn) w)
  end.

(** What a timer does when it fires. *)
Definition runCallback (now : Z) (f : Callback) (w : World) : World :=
  match f with
  | CbSendFrame _ c pg options => sendFrame now c pg options w
  | CbSettle c pg =>
      match conns w !! c with
      | None => w
      | Some cn =>
          sendFrame now c pg {| force := false |}
            (store c (with_lastScrollFrameTs now cn) w)
      end
  | CbRemove sKey =>
      match activeSessions w !! sKey with
      | Some session =>
          closeContext now (context session)
            (set_activeSessions (delete sKey (activeSessions w)) w)
      | None => w
      end
  end.

(** A timer never fires before its delay has elapsed. *)
Definition timerFired (now : Z) (id : nat) (w : World) : World :=
  match timers w !! id with
  | Some t =>
      if due t <=? now then
        runCallback now (cb t)
          (set_timers (delete id (timers w)) (nextTimer w) w)
      else w
  | None => w
  end.
End Schedules.

(** ** The interaction handlers (lines 160-230) *)

(** Truthiness of an optional string ([undefined] and [''] are falsy). *)
Definition truthy (o : option string) : bool :=
  match o with
  | Some s => negb (bool_decide (s = ""%string))
  | None => false
  end.

Section Handlers.
Local Open Scope Z_scope.

Definition logInteractionError (now : Z) (w : World) : World :=
  emit now (ELog "Error interacción") w.

(** The ['message'] listener (lines 161-210) up to its [await].  [data] is
    [None] when [JSON.parse] throws.  A click, a wheel event, a key with a
    [key] or a [text], a reload, a back and a forward call the page and
    wait; a key without either schedules its frames at once. *)
Definition onMessage (now : Z) (c : nat) (data : option Command) (w : World)
    : World :=
  match conns w !! c with
  | None => w
  | Some cn =>
      match handler cn with
      | None => w
      | Some (pg, sKey) =>
          if isClosed pg w then w
          else
            match data with
            | None => logInteractionError now w
            | Some (Unknown _) => w
            | Some (Key key text) =>
                if truthy key || truthy text
                then await (AwInteraction c pg (Key key text)) w
                else scheduleEventFrames now c pg INTERACTION_FRAME_DELAY_MS w
            | Some cmd => await (AwInteraction c pg cmd) w
            end
      end
  end.

(** The listener from its [await] on: the call on the page has returned
    ([ok]) or thrown, at time [now]. *)
Definition interactionSettled (now : Z) (c pg : nat) (cmd : Command)
    (ok : bool) (w : World) : World :=
  if ok then
    match cmd with
    | Click _ _ _ | Key _ _ =>
        scheduleEventFrames now c pg INTERACTION_FRAME_DELAY_MS w
    | Scroll _ _ => scheduleScrollFrames now c pg w
    | Reload | Back | Forward => scheduleNavFrames now c pg true w
    | Unknown _ => w
    end
  else logInteractionError now w.

(** The ['close'] listener (lines 212-229); the socket is closed when it
    runs.  Without a listener (set-up not finished) nothing happens. *)
Definition onClose (now : Z) (c : nat) (w : World) : World :=
  match conns w !! c with
  | None => w
  | Some cn =>
      let cn := with_readyState CLOSED cn in
      match handler cn with
      | None => store c cn w
      | Some (pg, sKey) =>
          let w :=
            match scrollSettleTimer cn with
            | Some h => clearTimeout now h w
            | None => w
            end in
          setTimeout now (CbRemove sKey) SESSION_REMOVAL_DELAY_MS
            (store c (with_scrollSettleTimer None cn) w)
      end
  end.

Definition setupInteractionHandler (c pg : nat) (sKey : string) (cn : Conn)
    (w : World) : World :=
  store c (with_handler (Some (pg, sKey)) cn) w.
End Handlers.

(** ** The connection callback (lines 62-311) *)

(** The query parameters of the request. *)
Record Request := {
  q_userId : option string;
  q_sessionId : option string;
  q_url : option string
}.

(** [params.get(name) || fallback] *)
Definition orElse (o : option string) (fallback : string) : string :=
  if truthy o then default fallback o else fallback.

Section Connection.
Local Open Scope Z_scope.

Definition newConn : Conn :=
  {| sessionKey := None; lastScreenshotHash := None; isCapturing := false;
     pendingCapture := false; lastTimeoutLogTs := 0; lastScrollFrameTs := 0;
     scrollSettleTimer := None; readyState := OPEN; setup := None;
     handler := None |}.

(** Lines 251-258 and, with the same text, lines 297-304. *)
Definition armConnection (now : Z) (c pg : nat) (sKey : string) (cn : Conn)
    (w : World) : World :=
  let cn :=
    with_scrollSettleTimer None
      (with_lastScrollFrameTs 0 (with_lastScreenshotHash None cn)) in
  let w :=
    setTimeout now (CbSendFrame InitExtra c pg {| force := false |})
      POST_EVENT_EXTRA_DELAY_MS
      (setTimeout now (CbSendFrame InitForced c pg {| force := true |})
         INITIAL_FRAME_DELAY_MS w) in
  setupInteractionHandler c pg sKey cn w.

(** Lines 305-310. *)
Definition criticalError (now : Z) (c : nat) (cn : Conn) (w : World) : World :=
  let w := emit now (ELog "Error crítico") w in
  if decide (readyState cn = OPEN)
  then emit now (EWsClose c) (store c (with_readyState CLOSING cn) w)
  else store c cn w.

Definition sessionKeyOf (now : Z) (q : Request) : string :=
  orElse (q_userId q) ("user_" +:+ pretty now) +:+ "_" +:+
  orElse (q_sessionId q) ("session_" +:+ pretty now).

(** The callback is suspended at the [await] of [st]. *)
Definition suspend (c : nat) (cn : Conn) (st : Setup) (w : World) : World :=
  store c (with_setup (Some st) cn) w.

(** The callback up to its first [await] (lines 62-275), or to its end when
    the session is reused (lines 247-260).  [now] is [Date.now()]. *)
Definition onConnection (now : Z) (q : Request) (w : World) : World :=
  let c := nextConn w in
  let userId := orElse (q_userId q) ("user_" +:+ pretty now) in
  let targetUrl := orElse (q_url q) "https://es.wikipedia.org" in
  let sKey := sessionKeyOf now q in
  let cn := with_sessionKey (Some sKey) newConn in
  let w := set_nextConn (S c) (store c cn w) in
  let reusable :=
    match activeSessions w !! sKey with
    | Some existingSession =>
        if isClosed (page existingSession) w then None
        else Some existingSession
    | None => None
    end in
  match reusable with
  | Some existingSession =>
      armConnection now c (page existingSession) sKey cn w
  | None =>
      if JsMap.has (userBrowsers w) userId then
        match JsMap.get (userBrowsers w) userId with
        | Some b => suspend c cn (AtNewContext b targetUrl) w
        | None => criticalError now c cn w
        end
      else suspend c cn (AtLaunch userId targetUrl) w
  end.

(** Lines 294-304; [sessionKey] is the closure variable assigned at line
    243, before the first [await]. *)
Definition register (now : Z) (c b ctx pg : nat) (cn : Conn) (w : World)
    : World :=
  match sessionKey cn with
  | Some sKey =>
      armConnection now c pg sKey cn
        (set_activeSessions
           (<[sKey := {| page := pg; context := ctx; browser := b |}]>
              (activeSessions w)) w)
  | None => w
  end.

(** The callback of connection [c] from the [await] it is suspended at to
    the next one, or to its end: the awaited call has returned ([ok]) or
    thrown, at time [now].  The objects that the calls return are new. *)
Definition setupSettled (now : Z) (c : nat) (ok : bool) (w : World) : World :=
  match conns w !! c with
  | None => w
  | Some cn =>
      let done := with_setup None cn in
      match setup cn with
      | None => w
      | Some (AtLaunch userId targetUrl) =>
          if ok then
            let b := nextObject w in
            suspend c cn (AtNewContext b targetUrl)
              (set_userBrowsers (JsMap.set (userBrowsers w) userId b)
                 (set_pages (pages w) (S b) w))
          else criticalError now c done w
      | Some (AtNewContext b targetUrl) =>
          if ok then
            let ctx := nextObject w in
            suspend c cn (AtNewPage b ctx targetUrl)
              (set_pages (pages w) (S ctx) w)
          else criticalError now c done w
      | Some (AtNewPage b ctx targetUrl) =>
          if ok then
            let pg := nextObject w in
            let blank :=
              {| pg_context := ctx; pg_browser := b;
                 pg_url := "about:blank"; pg_closed := false |} in
            suspend c cn (AtSetViewportSize b ctx pg targetUrl)
              (set_pages (<[pg := blank]> (pages w)) (S pg) w)
          else criticalError now c done w
      | Some (AtSetViewportSize b ctx pg targetUrl) =>
          if ok then suspend c cn (AtGoto b ctx pg targetUrl) w
          else criticalError now c done w
      | Some (AtGoto b ctx pg targetUrl) =>
          if ok then
            suspend c cn (AtTitle b ctx pg) (navigate pg targetUrl w)
          else
            suspend c cn (AtGotoBlank b ctx pg)
              (emit now (ELog "Error navegación") w)
      | Some (AtTitle b ctx pg) =>
          if ok then register now c b ctx pg done w
          else
            suspend c cn (AtGotoBlank b ctx pg)
              (emit now (ELog "Error navegación") w)
      | Some (AtGotoBlank b ctx pg) =>
          if ok then register now c b ctx pg done (navigate pg "about:blank" w)
          else criticalError now c done w
      end
  end.
End Connection.

(** ** The sweep (lines 314-329) *)

Section Sweep.
Local Open Scope Z_scope.

(** [[...activeSessions.values()].some(s => s.browser === browser)] *)
Definition stillUsed (b : nat) (w : World) : bool :=
  existsb (λ s, bool_decide (browser s = b))
    (map snd (map_to_list (activeSessions w))).

(** The [for-of] of lines 317-327 over the slots [l] of the map, the first
    of which is at position [i], up to its first [await]: the entries whose
    browser is used are passed over; on the first one that is not,
    [browser.close()] is called and the pass waits. *)
Fixpoint sweepLoop (now : Z) (l : list (option (string * nat))) (i : nat)
    (w : World) : World :=
  match l with
  | [] => w
  | None :: l' => sweepLoop now l' (S i) w
  | Some (userId, b) :: l' =>
      if stillUsed b w then sweepLoop now l' (S i) w
      else
        await (AwBrowserClose userId b (S i))
          (emit now (EBrowserClose b)
             (emit now
                (ELog ("Cerrando navegador sin sesiones para userId=" +:+ userId))
                w))
  end.

(** The pass from position [i] of [userBrowsers] on. *)
Definition sweepFrom (now : Z) (i : nat) (w : World) : World :=
  sweepLoop now (drop i (userBrowsers w)) i w.

(** The callback of [setInterval]. *)
Definition sweep (now : Z) (w : World) : World :=
  sweepFrom now 0 (emit now (ELog "Sweep") w).

(** Lines 322-326 and the rest of the pass: [browser.close()] has returned
    ([ok]) or thrown; a close that throws is logged. *)
Definition browserCloseSettled (now : Z) (userId : string) (b i : nat)
    (ok : bool) (w : World) : World :=
  let w :=
    if ok then browserClosed b w
    else emit now (ELog ("Error al cerrar browser de " +:+ userId)) w in
  sweepFrom now i
    (set_userBrowsers (JsMap.delete (userBrowsers w) userId) w).
End Sweep.

(** ** The event loop *)

(** An awaited call of a listener or of a sweep settles. *)
Definition awaitSettled (now : Z) (id : nat) (ok : bool) (w : World) : World :=
  match awaiting w !! id with
  | None => w
  | Some a =>
      let w := set_awaiting (delete id (awaiting w)) (nextAwait w) w in
      match a with
      | AwInteraction c pg cmd => interactionSettled now c pg cmd ok w
      | AwBrowserClose userId b i => browserCloseSettled now userId b i ok w
      end
  end.

Inductive Event :=
| Connection (q : Request)
| SetupSettled (c : nat) (ok : bool)
| Message (c : nat) (data : option Command)
| AwaitSettled (id : nat) (ok : bool)
| Close (c : nat)
| TimerFired (id : nat)
| ScreenshotSettled (id : nat) (r : Settled)
| Sweep
| PageClosed (pg : nat)                (* the page closes or crashes *)
| PageNavigated (pg : nat) (url : string).   (* the page moves on its own *)

Definition pageClosed (pg : nat) (w : World) : World :=
  set_pages (alter with_closed pg (pages w)) (nextObject w) w.

Definition handle (now : Z) (e : Event) (w : World) : World :=
  match e with
  | Connection q => onConnection now q w
  | SetupSettled c ok => setupSettled now c ok w
  | Message c data => onMessage now c data w
  | AwaitSettled id ok => awaitSettled now id ok w
  | Close c => onClose now c w
  | TimerFired id => timerFired now id w
  | ScreenshotSettled id r => screenshotSettled now id r w
  | Sweep => sweep now w
  | PageClosed pg => pageClosed pg w
  | PageNavigated pg url => navigate pg url w
  end.

(** A run: the events in the order the loop takes them, each with the
    value [Date.now()] has while it is handled. *)
Fixpoint run (evs : list (Z * Event)) (w : World) : World :=
  match evs with
  | [] => w
  | (now, e) :: evs' => run evs' (handle now e w)
  end.

(** ** Observations on the log of effects *)

(** The frames passed to [ws.send] on connection [c], oldest first. *)
Definition sentOf (c : nat) (e : Z * Effect) : option bytes :=
  match e.2 with
  | ESend c' frame => if decide (c' = c) then Some frame else None
  | _ => None
  end.

Definition sent (c : nat) (w : World) : list bytes :=
  omap (sentOf c) (effects w).

(** The contexts on which [close()] was called. *)
Definition closedContextOf (e : Z * Effect) : option nat :=
  match e.2 with EContextClose ctx => Some ctx | _ => None end.

Definition closedContexts (w : World) : list nat :=
  omap closedContextOf (effects w).

(** The browsers on which [close()] was called. *)
Definition closedBrowserOf (e : Z * Effect) : option nat :=
  match e.2 with EBrowserClose b => Some b | _ => None end.

Definition closedBrowsers (w : World) : list nat :=
  omap closedBrowserOf (effects w).

(** The captures in flight on page [pg]. *)
Definition capturing (pg : nat) (w : World) : list Capture :=
  List.filter (λ k, bool_decide (cap_page k = pg)) (inflight w).

(** What the [finally] block leaves in the closure of the connection. *)
Definition afterFinally (pg : nat) (cn : Conn) (w : World) : Conn :=
  if pendingCapture cn && negb (isClosed pg w)
  then with_pendingCapture false (with_isCapturing false cn)
  else with_isCapturing false cn.

(** ** Concrete inputs used to exercise the model *)

Module Scenario.
Local Open Scope Z_scope.

Definition u1s1 : Request :=
  {| q_userId := Some "u1"%string; q_sessionId := Some "s1"%string;
     q_url := Some "https://example.test"%string |}.

(** The connection [c] of a client is accepted at time [t] and the [n]
    calls that its callback awaits all return within the same millisecond:
    six calls when a browser is launched (lines 266-288), five when the
    user has one in the pool. *)
Definition connects (t : Z) (q : Request) (c n : nat) : list (Z * Event) :=
  (t, Connection q) :: repeat (t, SetupSettled c true) n.

Definition frameA : bytes := list_byte_of_string "frame A".
Definition frameB : bytes := list_byte_of_string "frame B".

(** A client connects at time 1000 and its socket closes at 1050; the
    forced initial frame of line 301 is then captured at 1100. *)
Definition closedEarly : World :=
  run (connects 1000 u1s1 0 6 ++
       [(1050, Close 0%nat); (1100, TimerFired 0%nat)]) initial.
End Scenario.

Module Scenario2.
Import Scenario.
Local Open Scope Z_scope.

(** A client connects at 1000; the forced initial frame is being captured
    from 1100 on. *)
Definition firstCapture : World :=
  run (connects 1000 u1s1 0 6 ++ [(1100, TimerFired 0%nat)]) initial.

(** A client connects at 1000 and clicks at 1010.  The click's frame
    (timer 2) starts a capture at 1060 that is still running when the forced
    initial frame (timer 0) is requested at 1100. *)
Definition slowCapture : World :=
  run (connects 1000 u1s1 0 6 ++
       [(1010, Message 0%nat (Some (Click 10 10 None)));
        (1010, AwaitSettled 0%nat true);
        (1060, TimerFired 2%nat)]) initial.
End Scenario2.

Arguments sessionKeyOf : simpl never.

Module Scenario3.
Import Scenario.
Local Open Scope Z_scope.

(** A client is connected (connection 0, session "u1_s1" on page 2 of
    context 1). *)
Definition connected : World := run (connects 1000 u1s1 0 6) initial.

(** The same client once its two initial frames have been captured (frame
    A, sent at 1200 and not sent again at 2600): no timer is pending. *)
Definition idle : World :=
  run [(1100, TimerFired 0%nat);
       (1200, ScreenshotSettled 0%nat (Resolved frameA));
       (2500, TimerFired 1%nat);
       (2600, ScreenshotSettled 1%nat (Resolved frameA))] connected.

(** Its socket closes at 5000, the client reconnects with the same ids at
    15000, and the timer set by the close (handle 2) fires at 35000. *)
Definition reconnected : World :=
  run [(5000, Close 0%nat); (15000, Connection u1s1);
       (35000, TimerFired 2%nat)] connected.
End Scenario3.

Arguments orElse : simpl never.


(** ** Relations between the worlds before and after a callback *)

Definition is_settle (f : Callback) : bool :=
  match f with CbSettle _ _ => true | _ => false end.

(** The times at which connection [c] scheduled a live scroll frame
    ([setTimeout] of line 149), oldest first. *)
Definition liveOf (c : nat) (e : Z * Effect) : option Z :=
  match e.2 with
  | ESetTimeout _ t =>
      match cb t with
      | CbSendFrame ScrollLive c' _ _ => if decide (c' = c) then Some e.1 else None
      | _ => None
      end
  | _ => None
  end.

Definition liveScrollFrames (c : nat) (w : World) : list Z :=
  omap (liveOf c) (effects w).

(** The scheduler variables of a closure are left as they were; the stored
    hash is looked at when [keepHash] is set. *)
Record same_sched (keepHash : bool) (cn cn' : Conn) : Prop := {
  ss_hash : keepHash = true → lastScreenshotHash cn' = lastScreenshotHash cn;
  ss_ts : lastScrollFrameTs cn' = lastScrollFrameTs cn;
  ss_settle : scrollSettleTimer cn' = scrollSettleTimer cn;
  ss_pending : pendingCapture cn = false → pendingCapture cn' = false;
  ss_handler : handler cn' = handler cn;
  ss_setup : setup cn = None → setup cn' = None
}.

(** What an awaited call that was not awaited before can be: the call of
    a listener, whose connection has its listeners. *)
Definition awaitable (w : World) (a : Awaited) : Prop :=
  match a with
  | AwInteraction c _ _ => ∃ cn, conns w !! c = Some cn ∧ is_Some (handler cn)
  | AwBrowserClose _ _ _ => True
  end.

(** A callback that opens no connection, attaches no listener, leaves the
    scheduler variables of every connection alone, sets no settle timer and
    schedules no live scroll frame. *)
Record quiet (keepHash : bool) (w w' : World) : Prop := {
  q_nextConn : nextConn w' = nextConn w;
  q_nextTimer : nextTimer w ≤ nextTimer w';
  q_conns : ∀ c,
    match conns w !! c with
    | Some cn => ∃ cn', conns w' !! c = Some cn' ∧ same_sched keepHash cn cn'
    | None => conns w' !! c = None
    end;
  q_timers : ∀ id t,
    timers w' !! id = Some t →
    timers w !! id = Some t ∨
    (nextTimer w ≤ id < nextTimer w' ∧ is_settle (cb t) = false);
  q_live : ∀ c, liveScrollFrames c w' = liveScrollFrames c w;
  q_awaiting : ∀ id a,
    awaiting w' !! id = Some a → awaiting w !! id = Some a ∨ awaitable w a
}.

(** The callback of a new connection, up to its first [await]: one closure
    is added, with fresh scheduler variables; it has its listeners or is
    suspended in its set-up, not both; the other closures are not
    touched. *)
Record opens (w w' : World) : Prop := {
  o_nextConn : nextConn w' = S (nextConn w);
  o_nextTimer : nextTimer w ≤ nextTimer w';
  o_conns : ∃ cn,
    conns w' = <[nextConn w := cn]> (conns w) ∧
    lastScreenshotHash cn = None ∧ lastScrollFrameTs cn = 0%Z ∧
    scrollSettleTimer cn = None ∧ pendingCapture cn = false ∧
    (is_Some (setup cn) → handler cn = None);
  o_timers : ∀ id t,
    timers w' !! id = Some t →
    timers w !! id = Some t ∨
    (nextTimer w ≤ id < nextTimer w' ∧ is_settle (cb t) = false);
  o_live : ∀ c, liveScrollFrames c w' = liveScrollFrames c w;
  o_awaiting : awaiting w' = awaiting w
}.

(** The world while the callback of a new connection runs, before its
    last step. *)
Record opening (w : World) (cn : Conn) (wi : World) : Prop := {
  og_nextConn : nextConn wi = S (nextConn w);
  og_nextTimer : nextTimer wi = nextTimer w;
  og_conns : conns wi = <[nextConn w := cn]> (conns w);
  og_timers : timers wi = timers w;
  og_live : ∀ c, liveScrollFrames c wi = liveScrollFrames c w;
  og_awaiting : awaiting wi = awaiting w
}.

(** Every event but a capture that resolves leaves the stored hashes as
    they are. *)
Definition keepsHash (e : Event) : bool :=
  match e with
  | ScreenshotSettled _ (Resolved _) => false
  | _ => true
  end.

(** What an event can do to the scheduler variables. *)
Inductive step_kind (now : Z) (e : Event) (w w' : World) : Prop :=
| SK_quiet : quiet (keepsHash e) w w' → step_kind now e w w'
| SK_opens : opens w w' → step_kind now e w w'
| SK_arm c cn pg sKey w0 :
    conns w !! c = Some cn → is_Some (setup cn) →
    quiet true w w0 →
    w' = armConnection now c pg sKey (with_setup None cn) w0 →
    step_kind now e w w'
| SK_scroll id c pg cmd cn w0 :
    awaiting w !! id = Some (AwInteraction c pg cmd) →
    quiet true w w0 → conns w0 !! c = Some cn →
    w' = scheduleScrollFrames now c pg w0 →
    step_kind now e w w'
| SK_settle id t c pg cn :
    timers w !! id = Some t → cb t = CbSettle c pg →
    conns w !! c = Some cn →
    w' = sendFrame now c pg {| force := false |}
           (store c (with_lastScrollFrameTs now cn)
              (set_timers (delete id (timers w)) (nextTimer w) w)) →
    step_kind now e w w'
| SK_close c cn pg sKey :
    conns w !! c = Some cn → handler cn = Some (pg, sKey) →
    w' = setTimeout now (CbRemove sKey) SESSION_REMOVAL_DELAY_MS
           (store c (with_scrollSettleTimer None (with_readyState CLOSED cn))
              (match scrollSettleTimer cn with
               | Some h => clearTimeout now h w
               | None => w
               end)) →
    step_kind now e w w'.

(** ** Invariants of the reachable worlds *)

(** Connections are numbered below [nextConn]. *)
Definition ids_ok (w : World) : Prop :=
  ∀ c cn, conns w !! c = Some cn → c < nextConn w.

(** Every pending settle timer of a connection is the one whose handle the
    connection holds in [scrollSettleTimer]. *)
Definition settle_ok (w : World) : Prop :=
  ∀ id t c pg, timers w !! id = Some t → cb t = CbSettle c pg →
    ∃ cn, conns w !! c = Some cn ∧ scrollSettleTimer cn = Some id.

(** The pending flag is never set between two callbacks. *)
Definition pending_ok (w : World) : Prop :=
  ∀ c cn, conns w !! c = Some cn → pendingCapture cn = false.

(** Any two elements of [l] are more than the minimum interval apart, the
    later one being the larger. *)
Definition spaced (l : list Z) : Prop :=
  ∀ i j ti tj, i < j → l !! i = Some ti → l !! j = Some tj →
    (MIN_SCROLL_FRAME_INTERVAL_MS < tj - ti)%Z.

(** A connection without listeners holds no settle timer. *)
Definition idle_ok (w : World) : Prop :=
  ∀ c cn, conns w !! c = Some cn → handler cn = None →
    scrollSettleTimer cn = None.

(** A callback that is suspended in its set-up has not attached its
    listeners. *)
Definition setup_ok (w : World) : Prop :=
  ∀ c cn, conns w !! c = Some cn → is_Some (setup cn) → handler cn = None.

(** The awaited calls of listeners are those of connections that have
    their listeners. *)
Definition await_ok (w : World) : Prop :=
  ∀ id a, awaiting w !! id = Some a → awaitable w a.

(** The live scroll frames of every connection are [spaced], and none is
    later than [lastScrollFrameTs], itself not later than the clock; a
    connection without listeners has scheduled none. *)
Definition live_ok (clock : Z) (w : World) : Prop :=
  ∀ c,
    spaced (liveScrollFrames c w) ∧
    match conns w !! c with
    | Some cn =>
        (lastScrollFrameTs cn ≤ clock)%Z ∧
        Forall (λ t, (t ≤ lastScrollFrameTs cn)%Z) (liveScrollFrames c w) ∧
        (handler cn = None → liveScrollFrames c w = [])
    | None => liveScrollFrames c w = []
    end.

(** The invariants that do not depend on the time. *)
Record Inv0 (w : World) : Prop := {
  inv_ids : ids_ok w;
  inv_settle : settle_ok w;
  inv_pending : pending_ok w;
  inv_idle : idle_ok w;
  inv_setup : setup_ok w;
  inv_await : await_ok w
}.

Record Inv (clock : Z) (w : World) : Prop := {
  inv_clock : (0 ≤ clock)%Z;
  inv_0 : Inv0 w;
  inv_live : live_ok clock w
}.

(** The events of a run are taken in the order of their times, which do not
    go back ([Date.now()] read on a clock that is not set back). *)
Fixpoint chronological (clock : Z) (evs : list (Z * Event)) : Prop :=
  match evs with
  | [] => True
  | (now, _) :: evs' => (clock ≤ now)%Z ∧ chronological now evs'
  end.

(** The time of the last event of a run that starts at [clock]. *)
Fixpoint lastTime (clock : Z) (evs : list (Z * Event)) : Z :=
  match evs with
  | [] => clock
  | (now, _) :: evs' => lastTime now evs'
  end.

(** The pending settle timers of connection [c]. *)
Definition settleTimers (c : nat) (w : World) : list (nat * Timer) :=
  List.filter
    (λ e, match cb e.2 with
          | CbSettle c' _ => bool_decide (c' = c)
          | _ => false
          end)
    (map_to_list (timers w)).


(** ** More observations *)

(** The lines written with [console.log] that the model records (the
    warnings and errors, and those of the sweep), with their times. *)
Definition logOf (e : Z * Effect) : option (Z * string) :=
  match e.2 with ELog msg => Some (e.1, msg) | _ => None end.

Definition logs (w : World) : list (Z * string) := omap logOf (effects w).

(** The sockets on which the server called [close()] (line 308). *)
Definition wsClosedOf (e : Z * Effect) : option nat :=
  match e.2 with EWsClose c => Some c | _ => None end.

Definition wsClosed (w : World) : list nat := omap wsClosedOf (effects w).

(** The two timers that an event sets: a first frame after [d1] ms and a
    second, not forced, after POST_EVENT_EXTRA_DELAY_MS. *)
Definition twoFrames (now : Z) (c pg : nat) (s1 : Site) (d1 : Z) (f1 : bool)
    (s2 : Site) (w : World) : gmap nat Timer :=
  <[S (nextTimer w) :=
      {| due := (now + POST_EVENT_EXTRA_DELAY_MS)%Z;
         cb := CbSendFrame s2 c pg {| force := false |} |}]>
    (<[nextTimer w :=
         {| due := (now + d1)%Z; cb := CbSendFrame s1 c pg {| force := f1 |} |}]>
       (timers w)).

(** The event is the successful completion of a capture of connection [c]. *)
Definition resolves (c : nat) (e : Event) (w : World) : bool :=
  match e with
  | ScreenshotSettled id (Resolved _) =>
      match List.find (λ k, bool_decide (cap_id k = id)) (inflight w) with
      | Some cap => bool_decide (cap_conn cap = c)
      | None => false
      end
  | _ => false
  end.

(** No capture of connection [c] completes successfully during the run. *)
Fixpoint noneResolved (c : nat) (evs : list (Z * Event)) (w : World) : bool :=
  match evs with
  | [] => true
  | (now, e) :: evs' =>
      negb (resolves c e w) && noneResolved c evs' (handle now e w)
  end.

Module Scenario4.
Import Scenario.
Local Open Scope Z_scope.

(** The set-up of the session of a client that connects at 1000 has come to
    the navigation to the target (the calls of lines 266-280 have
    returned).  The page ends on an error page and the navigation fails at
    16000: the callback is waiting for [page.goto('about:blank')]. *)
Definition fallingBack : World :=
  run (connects 1000 u1s1 0 4 ++
       [(15900, PageNavigated 2%nat "chrome-error://chromewebdata/");
        (16000, SetupSettled 0%nat false)]) initial.
End Scenario4.

Module Scenario5.
Import Scenario.
Local Open Scope Z_scope.

End Scenario5.

Module Scenario9.
Import Scenario.
Local Open Scope Z_scope.

(** A client connects at 1000 and receives frame A, forced, at 1200.  A
    second connection with the same ids is accepted at 2000 and reuses the
    session; its forced initial capture, started at 2100, fails at 2150.
    The second initial frame of the first connection is captured at 2500
    and is frame A again.  At 3500 the second initial frame of the second
    connection, not forced, is being captured. *)
Definition secondTab : World :=
  run (connects 1000 u1s1 0 6 ++
       [(1100, TimerFired 0%nat);
        (1200, ScreenshotSettled 0%nat (Resolved frameA));
        (2000, Connection u1s1);
        (2100, TimerFired 2%nat);
        (2150, ScreenshotSettled 1%nat (Rejected "Protocol error"));
        (2500, TimerFired 1%nat);
        (2600, ScreenshotSettled 2%nat (Resolved frameA));
        (3500, TimerFired 3%nat)]) initial.
End Scenario9.

Module Scenario6.
Import Scenario.
Local Open Scope Z_scope.

(** A client connects at 1000 and receives its first frame at 1200. *)
Definition warm : list (Z * Event) :=
  connects 1000 u1s1 0 6 ++
  [(1100, TimerFired 0%nat);
   (1200, ScreenshotSettled 0%nat (Resolved frameA))].

(** It then sends three wheel events, whose [page.mouse.wheel] calls return
    at 2000, 2050 and 2200; the live frame of the first one is captured
    from 2050 to 2100. *)
Definition scrollBurst : list (Z * Event) :=
  warm ++
  [(1990, Message 0%nat (Some (Scroll None (Some 100))));
   (2000, AwaitSettled 0%nat true);
   (2040, Message 0%nat (Some (Scroll None (Some 100))));
   (2050, AwaitSettled 1%nat true);
   (2050, TimerFired 2%nat);
   (2100, ScreenshotSettled 1%nat (Resolved frameB));
   (2190, Message 0%nat (Some (Scroll None (Some 100))));
   (2200, AwaitSettled 2%nat true)].
End Scenario6.

Module Scenario7.
Import Scenario.
Local Open Scope Z_scope.

Definition timeoutMessage : string :=
  "page.screenshot: Timeout 5000ms exceeded.".

(** The forced initial capture of a connection, started at 1100, is still
    running when the second initial frame is requested at 2500; the replay
    that this request schedules starts a second capture at 2550.  The first
    capture times out at 6100. *)
Definition firstTimeout : World :=
  run (connects 1000 u1s1 0 6 ++
       [(1100, TimerFired 0%nat); (2500, TimerFired 1%nat);
        (2550, TimerFired 2%nat);
        (6100, ScreenshotSettled 0%nat (Rejected timeoutMessage))]) initial.

(** The page of a connected client has closed. *)
Definition pageGone : World :=
  run (connects 1000 u1s1 0 6 ++ [(1050, PageClosed 2%nat)]) initial.
End Scenario7.


Module Scenario8.
Import Scenario.
Local Open Scope Z_scope.

(** A second session of user "u1". *)
Definition u1s2 : Request :=
  {| q_userId := Some "u1"%string; q_sessionId := Some "s2"%string;
     q_url := None |}.

(** Two connections of the user "u1", who has no browser yet, are accepted
    at 1000 and 1001: both wait for [chromium.launch]. *)
Definition twoLaunches : World :=
  run [(1000, Connection u1s1); (1001, Connection u1s2)] initial.

(** The set-up of a client that connects at 1000 waits for [page.title()]
    (the calls of lines 266-284 have returned). *)
Definition atTitle : World := run (connects 1000 u1s1 0 5) initial.
End Scenario8.

(** ** Sockets that are not open *)

(** The socket of connection [c] is not open. *)
Definition notOpen (c : nat) (w : World) : Prop :=
  ∃ cn, conns w !! c = Some cn ∧ readyState cn ≠ OPEN.

(** If the socket of [c] is not open, it is not open afterwards either and
    nothing was sent on it. *)
Definition mute (c : nat) (w w' : World) : Prop :=
  notOpen c w → notOpen c w' ∧ sent c w' = sent c w.

(** [l'] is [l] followed by effects none of which is a send to [c]. *)
Definition quietlyExtends (c : nat) (l l' : list (Z * Effect)) : Prop :=
  ∃ k, l' = l ++ k ∧ omap (sentOf c) k = [].
(** * Basic facts *)

Example md5_empty : MD5.digest [] = "d41d8cd98f00b204e9800998ecf8427e"%string.
Proof. vm_compute. reflexivity. Qed.

Example md5_abc :
  MD5.digest (list_byte_of_string "abc") = "900150983cd24fb0d6963f7d28e17f72"%string.
Proof. vm_compute. reflexivity. Qed.

Lemma omap_snoc {A B} (f : A → option B) (l : list A) (x : A) :
  omap f (l ++ [x]) = omap f l ++ match f x with Some y => [y] | None => [] end.
Proof. rewrite omap_app. simpl. destruct (f x); reflexivity. Qed.

Lemma sent_emit now e c w :
  sent c (emit now e w) =
  sent c w ++ match sentOf c (now, e) with Some f => [f] | None => [] end.
Proof. unfold sent, emit; simpl. apply omap_snoc. Qed.

Lemma sent_store c c' cn w : sent c (store c' cn w) = sent c w.
Proof. reflexivity. Qed.

Lemma sent_setTimeout now f d c w : sent c (setTimeout now f d w) = sent c w.
Proof.
  unfold setTimeout. rewrite sent_emit. simpl. apply app_nil_r.
Qed.

Lemma conns_setTimeout now f d w : conns (setTimeout now f d w) = conns w.
Proof. reflexivity. Qed.

Lemma conns_store c cn w : conns (store c cn w) = <[c := cn]> (conns w).
Proof. reflexivity. Qed.

Lemma timers_store c cn w : timers (store c cn w) = timers w.
Proof. reflexivity. Qed.

Lemma sessions_setTimeout now f d w :
  activeSessions (setTimeout now f d w) = activeSessions w.
Proof. reflexivity. Qed.

Lemma sendFrame_finally_conns now c pg cn w :
  conns (sendFrame_finally now c pg cn w) = <[c := afterFinally pg cn w]> (conns w).
Proof.
  unfold sendFrame_finally, afterFinally. simpl.
  destruct (pendingCapture cn && negb (isClosed pg w)); reflexivity.
Qed.

Lemma sendFrame_finally_sent now c pg cn w c' :
  sent c' (sendFrame_finally now c pg cn w) = sent c' w.
Proof.
  unfold sendFrame_finally. simpl.
  destruct (pendingCapture cn && negb (isClosed pg w)).
  - rewrite sent_setTimeout. reflexivity.
  - reflexivity.
Qed.

Lemma sendFrame_finally_sessions now c pg cn w :
  activeSessions (sendFrame_finally now c pg cn w) = activeSessions w.
Proof.
  unfold sendFrame_finally. simpl.
  destruct (pendingCapture cn && negb (isClosed pg w)); reflexivity.
Qed.

Lemma sendFrame_finally_effects_closed now c pg cn w :
  closedContexts (sendFrame_finally now c pg cn w) = closedContexts w.
Proof.
  unfold sendFrame_finally, closedContexts. simpl.
  destruct (pendingCapture cn && negb (isClosed pg w)); simpl; [|reflexivity].
  rewrite omap_snoc. simpl. apply app_nil_r.
Qed.

Lemma afterFinally_hash pg cn w :
  lastScreenshotHash (afterFinally pg cn w) = lastScreenshotHash cn.
Proof. unfold afterFinally. destruct (_ && _); reflexivity. Qed.

Lemma afterFinally_readyState pg cn w :
  readyState (afterFinally pg cn w) = readyState cn.
Proof. unfold afterFinally. destruct (_ && _); reflexivity. Qed.


(** The continuation of a capture that resolved, on the closure [cn]. *)
Lemma screenshotSettled_resolved now id screenshot w cap cn :
  List.find (λ k, bool_decide (cap_id k = id)) (inflight w) = Some cap →
  conns w !! cap_conn cap = Some cn →
  let r := sendFrame_deliver now (cap_conn cap) (cap_options cap) screenshot cn
             (set_inflight
                (List.filter (λ k, negb (bool_decide (cap_id k = id))) (inflight w))
                (nextCapture w) w) in
  screenshotSettled now id (Resolved screenshot) w =
  sendFrame_finally now (cap_conn cap) (cap_page cap) r.1 r.2.
Proof.
  intros Hfind Hcn. unfold screenshotSettled. rewrite Hfind. simpl.
  rewrite Hcn. destruct (sendFrame_deliver _ _ _ _ _ _). reflexivity.
Qed.

(** * The deduplication rule (lines 95-104) *)

Lemma settled_resolved_spec now id screenshot w cap cn :
  List.find (λ k, bool_decide (cap_id k = id)) (inflight w) = Some cap →
  conns w !! cap_conn cap = Some cn →
  let c := cap_conn cap in
  let hash := MD5.digest screenshot in
  let w' := screenshotSettled now id (Resolved screenshot) w in
  ∃ cn', conns w' !! c = Some cn' ∧
    readyState cn' = readyState cn ∧
    lastScreenshotHash cn' = Some hash ∧
    (force (cap_options cap) = false → lastScreenshotHash cn = Some hash →
     sent c w' = sent c w) ∧
    (force (cap_options cap) = true ∨ lastScreenshotHash cn ≠ Some hash →
     sent c w' =
       if decide (readyState cn = OPEN) then sent c w ++ [screenshot]
       else sent c w).
Proof.
  intros Hfind Hcn c hash w'. subst w'.
  rewrite (screenshotSettled_resolved _ _ _ _ _ _ Hfind Hcn).
  rewrite sendFrame_finally_conns, lookup_insert_eq.
  eexists; split; [reflexivity|].
  rewrite afterFinally_hash, afterFinally_readyState, sendFrame_finally_sent.
  unfold sendFrame_deliver. fold hash. fold c.
  destruct (force (cap_options cap)) eqn:Hf; simpl.
  - repeat split; try discriminate.
    intros _. destruct (decide (readyState cn = OPEN)); simpl.
    + rewrite sent_emit. unfold sentOf; simpl.
      rewrite decide_True by reflexivity. reflexivity.
    + reflexivity.
  - case_bool_decide as Hh; simpl.
    + repeat split; try assumption.
      intros [? | ?]; [discriminate | contradiction].
    + repeat split; try (intros; contradiction).
      intros _. destruct (decide (readyState cn = OPEN)); simpl.
      * rewrite sent_emit. unfold sentOf; simpl.
        rewrite decide_True by reflexivity. reflexivity.
      * reflexivity.
Qed.

(** * A capture that fails (lines 105-120) *)

Lemma screenshotSettled_rejected now id msg w cap cn :
  List.find (λ k, bool_decide (cap_id k = id)) (inflight w) = Some cap →
  conns w !! cap_conn cap = Some cn →
  let r := sendFrame_catch now msg cn
             (set_inflight
                (List.filter (λ k, negb (bool_decide (cap_id k = id))) (inflight w))
                (nextCapture w) w) in
  screenshotSettled now id (Rejected msg) w =
  sendFrame_finally now (cap_conn cap) (cap_page cap) r.1 r.2.
Proof.
  intros Hfind Hcn. unfold screenshotSettled. rewrite Hfind. simpl.
  rewrite Hcn. destruct (sendFrame_catch _ _ _ _). reflexivity.
Qed.

Lemma pages_sendFrame_finally now c pg cn w :
  pages (sendFrame_finally now c pg cn w) = pages w.
Proof.
  unfold sendFrame_finally. simpl.
  destruct (pendingCapture cn && negb (isClosed pg w)); reflexivity.
Qed.

(** C7, what the code does: when a capture fails with a message that
    contains "closed", the session registered under the connection's key is
    deleted from [activeSessions], and that is all: [close()] is called on
    no context and no page changes state. *)
Theorem C7_closed_error_deletes_without_closing now id msg w cap cn k s :
  List.find (λ k, bool_decide (cap_id k = id)) (inflight w) = Some cap →
  conns w !! cap_conn cap = Some cn →
  includes msg "closed" = true →
  sessionKey cn = Some k →
  activeSessions w !! k = Some s →
  let w' := screenshotSettled now id (Rejected msg) w in
  activeSessions w' !! k = None ∧
  closedContexts w' = closedContexts w ∧
  pages w' = pages w.
Proof.
  intros Hfind Hcn Hmsg Hk Hs w'. subst w'.
  rewrite (screenshotSettled_rejected _ _ _ _ _ _ Hfind Hcn).
  rewrite sendFrame_finally_sessions, sendFrame_finally_effects_closed,
    pages_sendFrame_finally.
  unfold sendFrame_catch. rewrite Hmsg, orb_true_r, Hk. simpl.
  rewrite Hs. rewrite bool_decide_eq_true_2 by (eexists; reflexivity). simpl.
  split; [apply lookup_delete_eq | split; reflexivity].
Qed.

(** The theorem at the "Target closed" error of Playwright. *)
Lemma C7_closed_error_witness :
  let w' := screenshotSettled 1200 0
              (Rejected "page.screenshot: Target closed") Scenario2.firstCapture in
  activeSessions Scenario2.firstCapture !! "u1_s1"%string =
    Some {| page := 2; context := 1; browser := 0 |} ∧
  activeSessions w' !! "u1_s1"%string = None ∧
  closedContexts w' = [] ∧
  isClosed 2 w' = false.
Proof.
  intros w'.
  destruct (C7_closed_error_deletes_without_closing 1200 0
              "page.screenshot: Target closed" Scenario2.firstCapture
              {| cap_id := 0; cap_conn := 0; cap_page := 2;
                 cap_options := {| force := true |} |}
              (with_isCapturing true
                 (with_handler (Some (2, "u1_s1"%string))
                    (with_sessionKey (Some "u1_s1"%string) newConn)))
              "u1_s1"%string {| page := 2; context := 1; browser := 0 |})
    as (Hgone & Hctx & Hpages); try (vm_compute; reflexivity).
  subst w'. cbv zeta in Hgone, Hctx, Hpages.
  split; [vm_compute; reflexivity|].
  split; [exact Hgone|].
  split; [rewrite Hctx; vm_compute; reflexivity|].
  unfold isClosed. rewrite Hpages. vm_compute. reflexivity.
Defined.

(** * Single flight (lines 80-88 and 121-129) *)

Lemma sendFrame_while_capturing now c pg options w cn :
  conns w !! c = Some cn → isCapturing cn = true → isClosed pg w = false →
  sendFrame now c pg options w =
  setTimeout now (CbSendFrame Replay c pg {| force := false |})
    INTERACTION_FRAME_DELAY_MS
    (store c (with_pendingCapture false (with_isCapturing false cn)) w).
Proof.
  intros Hcn Hcap Hopen. unfold sendFrame. rewrite Hcn, Hopen, Hcap.
  unfold sendFrame_finally. simpl. rewrite Hopen. reflexivity.
Qed.

Lemma sendFrame_idle now c pg options w cn :
  conns w !! c = Some cn → isCapturing cn = false → isClosed pg w = false →
  sendFrame now c pg options w =
  let cap := {| cap_id := nextCapture w; cap_conn := c; cap_page := pg;
                cap_options := options |} in
  emit now (EScreenshot cap)
    (set_inflight (inflight w ++ [cap]) (S (nextCapture w))
       (store c (with_isCapturing true cn) w)).
Proof.
  intros Hcn Hcap Hopen. unfold sendFrame. rewrite Hcn, Hopen, Hcap.
  reflexivity.
Qed.

(** C3, what the code does: a request made while a capture of the
    connection is running resets [isCapturing] in its own [finally], so the
    next request on that connection starts a second [page.screenshot] on
    the page while the first has not settled. *)
Theorem C3_third_request_overlaps now1 now2 c pg o1 o2 w cn :
  conns w !! c = Some cn → isCapturing cn = true → isClosed pg w = false →
  let w2 := sendFrame now2 c pg o2 (sendFrame now1 c pg o1 w) in
  capturing pg w2 =
  capturing pg w ++
    [{| cap_id := nextCapture w; cap_conn := c; cap_page := pg;
        cap_options := o2 |}].
Proof.
  intros Hcn Hcap Hopen w2. subst w2.
  rewrite (sendFrame_while_capturing now1 c pg o1 w cn Hcn Hcap Hopen).
  erewrite sendFrame_idle.
  - unfold capturing. simpl. rewrite List.filter_app. simpl.
    rewrite bool_decide_eq_true_2 by reflexivity. reflexivity.
  - rewrite conns_setTimeout, conns_store. apply lookup_insert_eq.
  - reflexivity.
  - exact Hopen.
Qed.

(** The theorem on one connection: the capture started at 1060 is still
    running when the frames of 1100 and 1150 are requested; two captures of
    page 2 are then in flight. *)
Lemma C3_overlap_witness :
  capturing 2 Scenario2.slowCapture =
    [{| cap_id := 0; cap_conn := 0; cap_page := 2;
        cap_options := {| force := false |} |}] ∧
  capturing 2
    (sendFrame 1150 0 2 {| force := false |}
       (sendFrame 1100 0 2 {| force := true |} Scenario2.slowCapture)) =
    [{| cap_id := 0; cap_conn := 0; cap_page := 2;
        cap_options := {| force := false |} |};
     {| cap_id := 1; cap_conn := 0; cap_page := 2;
        cap_options := {| force := false |} |}].
Proof.
  split; [vm_compute; reflexivity|].
  rewrite (C3_third_request_overlaps 1100 1150 0 2 {| force := true |}
             {| force := false |} Scenario2.slowCapture
             (with_isCapturing true
                (with_handler (Some (2, "u1_s1"%string))
                   (with_sessionKey (Some "u1_s1"%string) newConn))));
    vm_compute; reflexivity.
Defined.

(** * The pending flag (lines 82-85 and 121-129) *)

Lemma sendFrame_deliver_pending now c o s cn w :
  pendingCapture (sendFrame_deliver now c o s cn w).1 = pendingCapture cn ∧
  timers (sendFrame_deliver now c o s cn w).2 = timers w.
Proof.
  unfold sendFrame_deliver.
  destruct (negb (force o) && bool_decide (lastScreenshotHash cn = Some (MD5.digest s)));
    simpl; [split; reflexivity|].
  destruct (decide (readyState cn = OPEN)); split; reflexivity.
Qed.

Lemma sendFrame_catch_pending now msg cn w :
  pendingCapture (sendFrame_catch now msg cn w).1 = pendingCapture cn ∧
  timers (sendFrame_catch now msg cn w).2 = timers w.
Proof.
  unfold sendFrame_catch.
  destruct (includes msg "Target closed" || includes msg "closed").
  - destruct (sessionKey cn) as [k|]; [|split; reflexivity].
    destruct (bool_decide (is_Some (activeSessions w !! k))); split; reflexivity.
  - destruct (includes msg "Timeout" && includes msg "page.screenshot").
    + destruct (Z.gtb _ _); split; reflexivity.
    + split; reflexivity.
Qed.

Lemma sendFrame_finally_idle now c pg cn w :
  pendingCapture cn = false →
  sendFrame_finally now c pg cn w = store c (with_isCapturing false cn) w.
Proof. intros H. unfold sendFrame_finally. simpl. rewrite H. reflexivity. Qed.

(** When a capture settles on a connection whose pending flag is not set,
    no timer is scheduled. *)
Lemma screenshotSettled_schedules_nothing now id r w cap cn :
  List.find (λ k, bool_decide (cap_id k = id)) (inflight w) = Some cap →
  conns w !! cap_conn cap = Some cn →
  pendingCapture cn = false →
  timers (screenshotSettled now id r w) = timers w ∧
  nextTimer (screenshotSettled now id r w) = nextTimer w.
Proof.
  intros Hfind Hcn Hp. unfold screenshotSettled. rewrite Hfind. simpl.
  rewrite Hcn. destruct r as [s | msg].
  - pose proof (sendFrame_deliver_pending now (cap_conn cap) (cap_options cap) s cn
      (set_inflight
         (List.filter (λ k, negb (bool_decide (cap_id k = id))) (inflight w))
         (nextCapture w) w)) as [H1 H2].
    destruct (sendFrame_deliver _ _ _ _ _ _) as [cn' w'] eqn:E. simpl in *.
    rewrite sendFrame_finally_idle by congruence. simpl.
    split; [exact H2|].
    unfold sendFrame_deliver in E.
    destruct (_ && _) in E; inversion E; subst; [reflexivity|].
    destruct (decide _); reflexivity.
  - pose proof (sendFrame_catch_pending now msg cn
      (set_inflight
         (List.filter (λ k, negb (bool_decide (cap_id k = id))) (inflight w))
         (nextCapture w) w)) as [H1 H2].
    destruct (sendFrame_catch _ _ _ _) as [cn' w'] eqn:E. simpl in *.
    rewrite sendFrame_finally_idle by congruence. simpl.
    split; [exact H2|].
    unfold sendFrame_catch in E.
    repeat (match type of E with
            | context [if ?b then _ else _] => destruct b
            | context [match ?o with Some _ => _ | None => _ end] => destruct o
            end; simpl in E);
      inversion E; subst; reflexivity.
Qed.

(** C4, what the code does: a request made while a capture of the
    connection is running sets the pending flag, and the [finally] block of
    that same call clears it at once, resets [isCapturing] and schedules the
    replay (not forced) 50 ms after the request.  No capture is started.
    When a capture of the connection settles afterwards, the flag is not
    set and no timer is scheduled. *)
Theorem C4_replay_scheduled_by_the_request now c pg options w cn :
  conns w !! c = Some cn → isCapturing cn = true → isClosed pg w = false →
  let w' := sendFrame now c pg options w in
  conns w' !! c = Some (with_pendingCapture false (with_isCapturing false cn)) ∧
  timers w' =
    <[nextTimer w := {| due := now + 50;
                        cb := CbSendFrame Replay c pg {| force := false |} |}]>
      (timers w) ∧
  inflight w' = inflight w ∧
  (∀ now2 id r cap,
     List.find (λ k, bool_decide (cap_id k = id)) (inflight w') = Some cap →
     cap_conn cap = c →
     timers (screenshotSettled now2 id r w') = timers w').
Proof.
  intros Hcn Hcap Hopen w'. subst w'.
  rewrite (sendFrame_while_capturing now c pg options w cn Hcn Hcap Hopen).
  split; [apply lookup_insert_eq|].
  split; [reflexivity|].
  split; [reflexivity|].
  intros now2 id r cap Hfind Hc.
  eapply screenshotSettled_schedules_nothing.
  - exact Hfind.
  - rewrite Hc. rewrite conns_setTimeout, conns_store. apply lookup_insert_eq.
  - reflexivity.
Qed.

(** The theorem on one connection: the forced frame requested at 1100
    while the capture of 1060 runs is turned into a timer due at 1150; when
    the capture settles at 1400 the timers are the same as before. *)
Lemma C4_replay_witness :
  let w' := sendFrame 1100 0 2 {| force := true |} Scenario2.slowCapture in
  timers w' !! 4 =
    Some {| due := 1150; cb := CbSendFrame Replay 0 2 {| force := false |} |} ∧
  timers (screenshotSettled 1400 0 (Resolved Scenario.frameA) w') = timers w'.
Proof.
  intros w'.
  destruct (C4_replay_scheduled_by_the_request 1100 0 2 {| force := true |}
              Scenario2.slowCapture
              (with_isCapturing true
                 (with_handler (Some (2, "u1_s1"%string))
                    (with_sessionKey (Some "u1_s1"%string) newConn))))
    as (_ & Ht & _ & Hlater); try (vm_compute; reflexivity).
  cbv zeta in Ht, Hlater. subst w'. split.
  - rewrite Ht. vm_compute. reflexivity.
  - apply (Hlater 1400%Z 0 (Resolved Scenario.frameA)
             {| cap_id := 0; cap_conn := 0; cap_page := 2;
                cap_options := {| force := false |} |});
      vm_compute; reflexivity.
Defined.

(** * Session reuse and the removal timer (lines 212-229 and 244-260) *)

Lemma onConnection_reuse now q w s :
  activeSessions w !! sessionKeyOf now q = Some s →
  isClosed (page s) w = false →
  let c := nextConn w in
  let cn := with_sessionKey (Some (sessionKeyOf now q)) newConn in
  onConnection now q w =
  armConnection now c (page s) (sessionKeyOf now q) cn
    (set_nextConn (S c) (store c cn w)).
Proof.
  intros Hs Hopen c cn. unfold onConnection.
  cbn [activeSessions set_nextConn store set_conns].
  rewrite Hs.
  replace (isClosed (page s) (set_nextConn (S (nextConn w))
             (store (nextConn w)
                (with_sessionKey (Some (sessionKeyOf now q)) newConn) w)))
    with (isClosed (page s) w) by reflexivity.
  rewrite Hopen. reflexivity.
Qed.

Lemma onClose_with_handler now c w cn pg sKey :
  conns w !! c = Some cn → handler cn = Some (pg, sKey) →
  let w' := onClose now c w in
  activeSessions w' = activeSessions w ∧
  pages w' = pages w ∧
  nextConn w' = nextConn w ∧
  nextTimer w' = S (nextTimer w) ∧
  closedContexts w' = closedContexts w ∧
  timers w' !! nextTimer w =
    Some {| due := now + SESSION_REMOVAL_DELAY_MS; cb := CbRemove sKey |}.
Proof.
  intros Hcn Hh w'. subst w'. unfold onClose. rewrite Hcn. simpl. rewrite Hh.
  destruct (scrollSettleTimer cn) as [h|]; simpl;
    (repeat split; [| apply lookup_insert_eq]);
    unfold closedContexts; simpl; rewrite ?omap_snoc; simpl;
    rewrite ?app_nil_r; reflexivity.
Qed.

Lemma armConnection_spec now c pg sKey cn w :
  let w' := armConnection now c pg sKey cn w in
  activeSessions w' = activeSessions w ∧
  pages w' = pages w ∧
  closedContexts w' = closedContexts w ∧
  timers w' =
    <[S (nextTimer w) := {| due := now + POST_EVENT_EXTRA_DELAY_MS;
                            cb := CbSendFrame InitExtra c pg {| force := false |} |}]>
      (<[nextTimer w := {| due := now + INITIAL_FRAME_DELAY_MS;
                           cb := CbSendFrame InitForced c pg {| force := true |} |}]>
         (timers w)) ∧
  conns w' !! c =
    Some (with_handler (Some (pg, sKey))
            (with_scrollSettleTimer None
               (with_lastScrollFrameTs 0 (with_lastScreenshotHash None cn)))).
Proof.
  unfold armConnection, setupInteractionHandler. simpl.
  repeat split.
  - unfold closedContexts; simpl. rewrite !omap_snoc. simpl.
    rewrite !app_nil_r. reflexivity.
  - apply lookup_insert_eq.
Qed.

(** C1, what the code does: the removal scheduled by the close of a
    connection is only guarded by [activeSessions.has(sKey)].  When a new
    connection has resolved the same key in between and reuses the session,
    the timer still deletes the session and closes its context, and with it
    the page the new connection is bound to. *)
Theorem C1_removal_fires_on_reused_session
    now1 now2 now3 c1 q w cn1 pg sKey s :
  conns w !! c1 = Some cn1 → handler cn1 = Some (pg, sKey) →
  sessionKeyOf now2 q = sKey →
  activeSessions w !! sKey = Some s →
  isClosed (page s) w = false →
  (now1 + SESSION_REMOVAL_DELAY_MS ≤ now3)%Z →
  let w1 := onClose now1 c1 w in
  let w2 := onConnection now2 q w1 in
  let w3 := timerFired now3 (nextTimer w) w2 in
  (∃ cn2, conns w3 !! nextConn w = Some cn2 ∧
          handler cn2 = Some (page s, sKey) ∧ readyState cn2 = OPEN) ∧
  activeSessions w2 !! sKey = Some s ∧
  activeSessions w3 !! sKey = None ∧
  closedContexts w3 = closedContexts w ++ [context s] ∧
  (∀ p, pages w !! page s = Some p → pg_context p = context s →
        isClosed (page s) w3 = true).
Proof.
  intros Hcn Hh Hkey Hs Hopen Hdue w1 w2 w3.
  destruct (onClose_with_handler now1 c1 w cn1 pg sKey Hcn Hh)
    as (Hs1 & Hp1 & Hc1 & Ht1 & Hx1 & Hrm).
  fold w1 in Hs1, Hp1, Hc1, Ht1, Hx1, Hrm.
  assert (Hreuse : w2 = armConnection now2 (nextConn w) (page s) sKey
                          (with_sessionKey (Some sKey) newConn)
                          (set_nextConn (S (nextConn w))
                             (store (nextConn w)
                                (with_sessionKey (Some sKey) newConn) w1))).
  { subst w2. rewrite <- Hc1, <- Hkey. apply onConnection_reuse.
    - rewrite Hkey, Hs1. exact Hs.
    - unfold isClosed. rewrite Hp1. exact Hopen. }
  destruct (armConnection_spec now2 (nextConn w) (page s) sKey
              (with_sessionKey (Some sKey) newConn)
              (set_nextConn (S (nextConn w))
                 (store (nextConn w) (with_sessionKey (Some sKey) newConn) w1)))
    as (Hs2 & Hp2 & Hx2 & Ht2 & Hc2).
  rewrite <- Hreuse in Hs2, Hp2, Hx2, Ht2, Hc2.
  cbn [activeSessions pages timers nextTimer set_nextConn store set_conns
       closedContexts effects] in Hs2, Hp2, Ht2.
  change (closedContexts (set_nextConn (S (nextConn w))
            (store (nextConn w) (with_sessionKey (Some sKey) newConn) w1)))
    with (closedContexts w1) in Hx2.
  assert (Hlook : timers w2 !! nextTimer w =
                  Some {| due := now1 + SESSION_REMOVAL_DELAY_MS;
                          cb := CbRemove sKey |}).
  { rewrite Ht2, Ht1.
    rewrite lookup_insert_ne by lia. rewrite lookup_insert_ne by lia.
    exact Hrm. }
  assert (Hs2' : activeSessions w2 !! sKey = Some s) by (rewrite Hs2, Hs1; exact Hs).
  assert (Hfire : w3 = closeContext now3 (context s)
                         (set_activeSessions (delete sKey (activeSessions w2))
                            (set_timers (delete (nextTimer w) (timers w2))
                               (nextTimer w2) w2))).
  { subst w3. unfold timerFired. rewrite Hlook.
    cbn [due cb]. 
    destruct (Z.leb_spec (now1 + SESSION_REMOVAL_DELAY_MS) now3) as [_|Hlt];
      [|lia].
    unfold runCallback. cbn [activeSessions set_timers]. rewrite Hs2'.
    reflexivity. }
  split; [|split; [exact Hs2'|split; [|split]]].
  - rewrite Hfire. cbn [conns closeContext emit set_pages set_activeSessions set_timers].
    rewrite Hc2. eexists. split; [reflexivity|]. split; reflexivity.
  - rewrite Hfire. cbn [activeSessions closeContext emit set_pages set_activeSessions].
    apply lookup_delete_eq.
  - rewrite Hfire. unfold closedContexts, closeContext, emit. simpl.
    rewrite omap_snoc. simpl. fold (closedContexts w2).
    rewrite Hx2, Hx1. reflexivity.
  - intros p Hp Hctx. rewrite Hfire. unfold isClosed, closeContext. simpl.
    rewrite lookup_fmap, Hp2, Hp1, Hp. simpl.
    rewrite decide_True by exact Hctx. reflexivity.
Qed.

(** The theorem on a client that reconnects 10 s after its socket closed:
    30 s after the close the session it is using is gone. *)
Lemma C1_reconnect_witness :
  (readyState <$> conns Scenario3.reconnected !! 1) = Some OPEN ∧
  (handler <$> conns Scenario3.reconnected !! 1) = Some (Some (2, "u1_s1"%string)) ∧
  activeSessions Scenario3.reconnected !! "u1_s1"%string = None ∧
  closedContexts Scenario3.reconnected = [1] ∧
  isClosed 2 Scenario3.reconnected = true.
Proof.
  destruct (C1_removal_fires_on_reused_session 5000 15000 35000 0
              Scenario.u1s1 Scenario3.connected
              (with_handler (Some (2, "u1_s1"%string))
                 (with_sessionKey (Some "u1_s1"%string) newConn))
              2 "u1_s1"%string {| page := 2; context := 1; browser := 0 |})
    as ((cn2 & Hcn2 & Hh2 & Hr2) & _ & Hgone & Hctx & Hpage);
    try (vm_compute; reflexivity).
  { vm_compute. discriminate. }
  cbv zeta in Hcn2, Hgone, Hctx, Hpage.
  assert (E : timerFired 35000 (nextTimer Scenario3.connected)
                (onConnection 15000 Scenario.u1s1
                   (onClose 5000 0 Scenario3.connected))
              = Scenario3.reconnected) by (vm_compute; reflexivity).
  rewrite E in Hcn2, Hgone, Hctx, Hpage.
  assert (E1 : nextConn Scenario3.connected = 1) by (vm_compute; reflexivity).
  rewrite E1 in Hcn2.
  rewrite Hcn2. cbn [fmap option_fmap option_map]. rewrite Hh2, Hr2.
  split; [reflexivity|]. split; [reflexivity|]. split; [exact Hgone|].
  split; [rewrite Hctx; vm_compute; reflexivity|].
  apply (Hpage {| pg_context := 1; pg_browser := 0;
                  pg_url := "https://example.test"; pg_closed := false |});
    vm_compute; reflexivity.
Defined.

(** * Callbacks that leave the scheduler variables alone *)

Lemma same_sched_refl k cn : same_sched k cn cn.
Proof. split; auto. Qed.

Lemma same_sched_trans k cn1 cn2 cn3 :
  same_sched k cn1 cn2 → same_sched k cn2 cn3 → same_sched k cn1 cn3.
Proof.
  intros [h1 t1 s1 p1 d1 u1] [h2 t2 s2 p2 d2 u2]. split.
  - intros Hk. rewrite (h2 Hk). auto.
  - congruence.
  - congruence.
  - auto.
  - congruence.
  - auto.
Qed.

Lemma awaitable_back k w w' a :
  (∀ c, match conns w !! c with
        | Some cn => ∃ cn', conns w' !! c = Some cn' ∧ same_sched k cn cn'
        | None => conns w' !! c = None
        end) →
  awaitable w' a → awaitable w a.
Proof.
  intros Hc. destruct a as [c pg cmd|u b i]; simpl; [|auto].
  intros (cn' & Hcn' & Hh). specialize (Hc c).
  destruct (conns w !! c) as [cn|]; [|congruence].
  destruct Hc as (cn'' & Hcn'' & Hs). exists cn. split; [reflexivity|].
  rewrite Hcn' in Hcn''. inversion Hcn''; subst cn''.
  rewrite <- (ss_handler _ _ _ Hs). exact Hh.
Qed.

Lemma quiet_refl k w : quiet k w w.
Proof.
  split; auto.
  intros c. destruct (conns w !! c) as [cn|]; [|reflexivity].
  exists cn. split; [reflexivity | apply same_sched_refl].
Qed.

Lemma quiet_trans k w1 w2 w3 : quiet k w1 w2 → quiet k w2 w3 → quiet k w1 w3.
Proof.
  intros [c1 n1 m1 t1 l1 a1] [c2 n2 m2 t2 l2 a2]. split.
  - congruence.
  - lia.
  - intros c. specialize (m1 c). specialize (m2 c).
    destruct (conns w1 !! c) as [cn|].
    + destruct m1 as (cn' & Hcn' & Hs). rewrite Hcn' in m2.
      destruct m2 as (cn'' & Hcn'' & Hs'). exists cn''.
      split; [exact Hcn'' | eapply same_sched_trans; eauto].
    + rewrite m1 in m2. exact m2.
  - intros id t Ht. destruct (t2 id t Ht) as [Ht'|[Hid Hns]].
    + destruct (t1 id t Ht') as [?|[Hid Hns]]; [left; assumption|].
      right. split; [lia | exact Hns].
    + right. split; [lia | exact Hns].
  - intros c. rewrite l2. apply l1.
  - intros id a Ha. destruct (a2 id a Ha) as [Ha'|Hnew]; [auto|].
    right. exact (awaitable_back k w1 w2 a m1 Hnew).
Qed.

(** A change of the world that touches none of the fields [quiet] reads. *)
Lemma quiet_same k w w' :
  nextConn w' = nextConn w → nextTimer w' = nextTimer w →
  conns w' = conns w → timers w' = timers w → effects w' = effects w →
  awaiting w' = awaiting w →
  quiet k w w'.
Proof.
  intros Hc Hn Hm Ht He Ha. split.
  - exact Hc.
  - lia.
  - intros c. rewrite Hm. destruct (conns w !! c) as [cn|]; [|reflexivity].
    exists cn. split; [reflexivity | apply same_sched_refl].
  - intros id t. rewrite Ht. auto.
  - intros c. unfold liveScrollFrames. rewrite He. reflexivity.
  - intros id a. rewrite Ha. auto.
Qed.

Lemma quiet_settled k id w :
  quiet k w (set_awaiting (delete id (awaiting w)) (nextAwait w) w).
Proof.
  split; simpl; auto.
  - intros c. destruct (conns w !! c) as [cn|]; [|reflexivity].
    exists cn. split; [reflexivity | apply same_sched_refl].
  - intros id' a Ha. apply lookup_delete_Some in Ha as [_ Ha]. auto.
Qed.

Lemma quiet_await k a w : awaitable w a → quiet k w (await a w).
Proof.
  intros Hok. split; simpl; auto.
  - intros c. destruct (conns w !! c) as [cn|]; [|reflexivity].
    exists cn. split; [reflexivity | apply same_sched_refl].
  - intros id a' Ha. apply lookup_insert_Some in Ha as [[_ <-]|[_ Ha]]; auto.
Qed.

Lemma quiet_set_pages k m n w : quiet k w (set_pages m n w).
Proof. apply quiet_same; reflexivity. Qed.

Lemma quiet_set_inflight k l n w : quiet k w (set_inflight l n w).
Proof. apply quiet_same; reflexivity. Qed.

Lemma quiet_set_activeSessions k m w : quiet k w (set_activeSessions m w).
Proof. apply quiet_same; reflexivity. Qed.

Lemma quiet_set_userBrowsers k m w : quiet k w (set_userBrowsers m w).
Proof. apply quiet_same; reflexivity. Qed.

Lemma quiet_store k c cn cn' w :
  conns w !! c = Some cn → same_sched k cn cn' → quiet k w (store c cn' w).
Proof.
  intros Hcn Hs. split; simpl; auto.
  intros c'. destruct (decide (c' = c)) as [->|Hne].
  - rewrite Hcn, lookup_insert_eq. eauto.
  - rewrite lookup_insert_ne by congruence.
    destruct (conns w !! c') as [cn0|]; [|reflexivity].
    exists cn0. split; [reflexivity | apply same_sched_refl].
Qed.

Lemma liveScrollFrames_emit now e c w :
  liveScrollFrames c (emit now e w) =
  liveScrollFrames c w ++ match liveOf c (now, e) with Some t => [t] | None => [] end.
Proof. unfold liveScrollFrames, emit; simpl. apply omap_snoc. Qed.

Lemma quiet_emit k now e w :
  (∀ c, liveOf c (now, e) = None) → quiet k w (emit now e w).
Proof.
  intros He. split; simpl; auto.
  - intros c. destruct (conns w !! c) as [cn|]; [|reflexivity].
    exists cn. split; [reflexivity | apply same_sched_refl].
  - intros c. rewrite liveScrollFrames_emit, He. apply app_nil_r.
Qed.

Lemma quiet_setTimeout k now f d w :
  is_settle f = false →
  (∀ c pg o, f ≠ CbSendFrame ScrollLive c pg o) →
  quiet k w (setTimeout now f d w).
Proof.
  intros Hs Hl. split; simpl; auto.
  - intros c. destruct (conns w !! c) as [cn|]; [|reflexivity].
    exists cn. split; [reflexivity | apply same_sched_refl].
  - intros id t Ht. apply lookup_insert_Some in Ht as [[<- <-]|[_ Ht]].
    + right. split; [lia | exact Hs].
    + left. exact Ht.
  - intros c. unfold setTimeout. rewrite liveScrollFrames_emit.
    unfold liveOf; simpl.
    destruct f as [[] c' pg o| |]; try apply app_nil_r.
    exfalso. eapply Hl. reflexivity.
Qed.

Lemma quiet_delete_timer k id w :
  quiet k w (set_timers (delete id (timers w)) (nextTimer w) w).
Proof.
  split; simpl; auto.
  - intros c. destruct (conns w !! c) as [cn|]; [|reflexivity].
    exists cn. split; [reflexivity | apply same_sched_refl].
  - intros id' t Ht. apply lookup_delete_Some in Ht as [_ Ht]. auto.
Qed.

Lemma quiet_weaken w w' : quiet true w w' → quiet false w w'.
Proof.
  intros [c n m t l a]. split; auto.
  intros c'. specialize (m c'). destruct (conns w !! c'); [|exact m].
  destruct m as (cn' & ? & [h ts s p hd su]). exists cn'. split; [assumption|].
  split; auto; discriminate.
Qed.

Lemma sendFrame_finally_quiet k now c pg cn0 cn w :
  conns w !! c = Some cn0 → same_sched k cn0 cn →
  quiet k w (sendFrame_finally now c pg cn w).
Proof.
  intros Hcn [h t s p hd su]. unfold sendFrame_finally.
  destruct (pendingCapture (with_isCapturing false cn) && negb (isClosed pg w)).
  - apply (quiet_trans k w
             (store c (with_pendingCapture false (with_isCapturing false cn)) w)).
    + apply (quiet_store k c cn0); [exact Hcn|]. split; simpl; auto.
    + apply quiet_setTimeout; [reflexivity | discriminate].
  - apply (quiet_store k c cn0); [exact Hcn|]. split; simpl; auto.
Qed.

Lemma sendFrame_quiet k now c pg o w : quiet k w (sendFrame now c pg o w).
Proof.
  unfold sendFrame. destruct (conns w !! c) as [cn|] eqn:Hcn; [|apply quiet_refl].
  destruct (isClosed pg w) eqn:Hopen.
  - eapply sendFrame_finally_quiet; [exact Hcn | apply same_sched_refl].
  - destruct (isCapturing cn).
    + unfold sendFrame_finally. simpl. rewrite Hopen. simpl.
      apply (quiet_trans k w
               (store c (with_pendingCapture false
                           (with_isCapturing false (with_pendingCapture true cn))) w)).
      * apply (quiet_store k c cn); [exact Hcn|]. split; simpl; auto.
      * apply quiet_setTimeout; [reflexivity | discriminate].
    + apply (quiet_trans k w (store c (with_isCapturing true cn) w)).
      * apply (quiet_store k c cn); [exact Hcn|]. split; simpl; auto.
      * apply (quiet_trans k _
                 (set_inflight
                    (inflight (store c (with_isCapturing true cn) w) ++
                       [{| cap_id := nextCapture w; cap_conn := c; cap_page := pg;
                           cap_options := o |}])
                    (S (nextCapture w)) (store c (with_isCapturing true cn) w))).
        -- apply quiet_same; reflexivity.
        -- apply quiet_emit. reflexivity.
Qed.

Lemma sendFrame_catch_quiet k now msg cn w :
  same_sched k cn (sendFrame_catch now msg cn w).1 ∧
  quiet k w (sendFrame_catch now msg cn w).2 ∧
  conns (sendFrame_catch now msg cn w).2 = conns w.
Proof.
  unfold sendFrame_catch.
  destruct (includes msg "Target closed" || includes msg "closed").
  - destruct (sessionKey cn) as [key|]; simpl;
      [|split; [apply same_sched_refl | split; [apply quiet_refl | reflexivity]]].
    destruct (bool_decide (is_Some (activeSessions w !! key))); simpl;
      (split; [apply same_sched_refl|]); (split; [|reflexivity]).
    + apply quiet_set_activeSessions.
    + apply quiet_refl.
  - destruct (includes msg "Timeout" && includes msg "page.screenshot").
    + destruct (Z.gtb _ _); simpl.
      * split; [split; simpl; auto|]. split; [|reflexivity].
        apply quiet_emit. reflexivity.
      * split; [apply same_sched_refl | split; [apply quiet_refl | reflexivity]].
    + simpl. split; [apply same_sched_refl|]. split; [|reflexivity].
      apply quiet_emit. reflexivity.
Qed.

Lemma sendFrame_deliver_quiet now c o s cn w :
  same_sched false cn (sendFrame_deliver now c o s cn w).1 ∧
  quiet true w (sendFrame_deliver now c o s cn w).2 ∧
  conns (sendFrame_deliver now c o s cn w).2 = conns w.
Proof.
  unfold sendFrame_deliver.
  destruct (negb (force o) && bool_decide (lastScreenshotHash cn = Some (MD5.digest s)));
    simpl.
  - split; [apply same_sched_refl | split; [apply quiet_refl | reflexivity]].
  - split; [split; simpl; auto; discriminate|].
    destruct (decide (readyState cn = OPEN)); simpl;
      (split; [|reflexivity]).
    + apply quiet_emit. reflexivity.
    + apply quiet_refl.
Qed.

(** The conns map after a capture has settled: only the closure of the
    connection that took the capture is written. *)
Lemma screenshotSettled_other now id r w c :
  (∀ cap, List.find (λ k, bool_decide (cap_id k = id)) (inflight w) = Some cap →
          cap_conn cap ≠ c) →
  conns (screenshotSettled now id r w) !! c = conns w !! c.
Proof.
  intros Hother. unfold screenshotSettled.
  destruct (List.find _ (inflight w)) as [cap|] eqn:Hfind; [|reflexivity].
  specialize (Hother cap eq_refl). simpl.
  destruct (conns w !! cap_conn cap) as [cn|] eqn:Hcn; [|reflexivity].
  set (w0 := set_inflight _ _ w).
  assert (Hc : ∀ cn' w', conns w' = conns w →
            conns (sendFrame_finally now (cap_conn cap) (cap_page cap) cn' w') !! c
            = conns w !! c).
  { intros cn' w' Hw'. rewrite sendFrame_finally_conns, Hw'.
    apply lookup_insert_ne. exact Hother. }
  destruct r as [s|msg].
  - destruct (sendFrame_deliver_quiet now (cap_conn cap) (cap_options cap) s cn w0)
      as (_ & _ & Hconns).
    destruct (sendFrame_deliver _ _ _ _ _ _) as [cn' w']. apply Hc. exact Hconns.
  - destruct (sendFrame_catch_quiet true now msg cn w0) as (_ & _ & Hconns).
    destruct (sendFrame_catch _ _ _ _) as [cn' w']. apply Hc. exact Hconns.
Qed.

Lemma screenshotSettled_quiet now id r w :
  quiet (match r with Resolved _ => false | Rejected _ => true end) w
    (screenshotSettled now id r w).
Proof.
  unfold screenshotSettled.
  destruct (List.find _ (inflight w)) as [cap|] eqn:Hfind; [|apply quiet_refl].
  simpl. destruct (conns w !! cap_conn cap) as [cn|] eqn:Hcn.
  2:{ apply quiet_same; reflexivity. }
  set (w0 := set_inflight _ _ w).
  assert (H0 : ∀ k, quiet k w w0) by (intros k; apply quiet_same; reflexivity).
  destruct r as [s|msg].
  - destruct (sendFrame_deliver_quiet now (cap_conn cap) (cap_options cap) s cn w0)
      as (Hs & Hq & Hconns).
    destruct (sendFrame_deliver _ _ _ _ _ _) as [cn' w']. simpl in *.
    eapply quiet_trans; [apply H0|]. eapply quiet_trans; [apply quiet_weaken, Hq|].
    eapply sendFrame_finally_quiet; [|exact Hs]. rewrite Hconns. exact Hcn.
  - destruct (sendFrame_catch_quiet true now msg cn w0) as (Hs & Hq & Hconns).
    destruct (sendFrame_catch _ _ _ _) as [cn' w']. simpl in *.
    eapply quiet_trans; [apply H0|]. eapply quiet_trans; [apply Hq|].
    eapply sendFrame_finally_quiet; [|exact Hs]. rewrite Hconns. exact Hcn.
Qed.

Lemma scheduleEventFrames_quiet k now c pg d w :
  quiet k w (scheduleEventFrames now c pg d w).
Proof.
  unfold scheduleEventFrames.
  eapply quiet_trans; apply quiet_setTimeout; try reflexivity; discriminate.
Qed.

Lemma scheduleNavFrames_quiet k now c pg f w :
  quiet k w (scheduleNavFrames now c pg f w).
Proof.
  unfold scheduleNavFrames.
  eapply quiet_trans; apply quiet_setTimeout; try reflexivity; discriminate.
Qed.

Lemma closeContext_quiet k now ctx w : quiet k w (closeContext now ctx w).
Proof.
  unfold closeContext.
  eapply quiet_trans; [|apply quiet_emit; reflexivity]. apply quiet_set_pages.
Qed.

Lemma sweepLoop_quiet k now l : ∀ i w, quiet k w (sweepLoop now l i w).
Proof.
  induction l as [|[[u b]|] l IH]; intros i w; cbn [sweepLoop].
  - apply quiet_refl.
  - destruct (stillUsed b w); [apply IH|].
    set (w1 := emit now (ELog _) w).
    apply (quiet_trans k w w1); [apply quiet_emit; reflexivity|].
    apply (quiet_trans k w1 (emit now (EBrowserClose b) w1));
      [apply quiet_emit; reflexivity|].
    apply quiet_await. exact I.
  - apply IH.
Qed.

Lemma sweepFrom_quiet k now i w : quiet k w (sweepFrom now i w).
Proof. apply sweepLoop_quiet. Qed.

Lemma sweep_quiet k now w : quiet k w (sweep now w).
Proof.
  unfold sweep.
  apply (quiet_trans k w (emit now (ELog "Sweep") w));
    [apply quiet_emit; reflexivity | apply sweepFrom_quiet].
Qed.

Lemma browserCloseSettled_quiet k now u b i ok w :
  quiet k w (browserCloseSettled now u b i ok w).
Proof.
  unfold browserCloseSettled. cbv zeta.
  set (w1 := if ok then _ else _).
  assert (H1 : quiet k w w1).
  { subst w1. destruct ok; [apply quiet_set_pages | apply quiet_emit; reflexivity]. }
  apply (quiet_trans k w w1); [exact H1|].
  eapply quiet_trans; [apply quiet_set_userBrowsers | apply sweepFrom_quiet].
Qed.
(** * The callback of a new connection *)

Lemma armConnection_opens now pg sKey cn w wi :
  pendingCapture cn = false → setup cn = None →
  opening w cn wi →
  opens w (armConnection now (nextConn w) pg sKey cn wi).
Proof.
  intros Hp Hsu [Hc Hn Hm Ht Hl Ha]. unfold armConnection, setupInteractionHandler.
  split; simpl.
  - exact Hc.
  - lia.
  - eexists. split; [rewrite Hm, insert_insert_eq; reflexivity|].
    repeat split; [exact Hp|]. simpl. rewrite Hsu. intros [x Hx]. discriminate.
  - intros id t H.
    apply lookup_insert_Some in H as [[<- <-]|[_ H]];
      [right; split; [lia | reflexivity]|].
    apply lookup_insert_Some in H as [[<- <-]|[_ H]];
      [right; split; [lia | reflexivity]|].
    left. rewrite <- Ht. exact H.
  - intros c. unfold liveScrollFrames in *. simpl.
    rewrite !omap_snoc. simpl. rewrite !app_nil_r. apply Hl.
  - exact Ha.
Qed.

Lemma criticalError_opens now cn w wi :
  lastScreenshotHash cn = None → lastScrollFrameTs cn = 0%Z →
  scrollSettleTimer cn = None → pendingCapture cn = false →
  handler cn = None →
  opening w cn wi →
  opens w (criticalError now (nextConn w) cn wi).
Proof.
  intros Hh Hts Hst Hp Hhd [Hc Hn Hm Ht Hl Ha]. unfold criticalError.
  destruct (decide (readyState cn = OPEN)); split; simpl;
    [ exact Hc | lia
    | eexists; (split; [rewrite Hm, insert_insert_eq; reflexivity|]);
      repeat split; auto
    | intros id t H; left; rewrite <- Ht; exact H
    | intros c; unfold liveScrollFrames in *; simpl;
      rewrite !omap_snoc; simpl; rewrite !app_nil_r; apply Hl
    | exact Ha
    | exact Hc | lia
    | eexists; (split; [rewrite Hm, insert_insert_eq; reflexivity|]);
      repeat split; auto
    | intros id t H; left; rewrite <- Ht; exact H
    | intros c; unfold liveScrollFrames in *; simpl;
      rewrite !omap_snoc; simpl; rewrite !app_nil_r; apply Hl
    | exact Ha ].
Qed.

Lemma suspend_opens st cn w wi :
  lastScreenshotHash cn = None → lastScrollFrameTs cn = 0%Z →
  scrollSettleTimer cn = None → pendingCapture cn = false →
  handler cn = None →
  opening w cn wi →
  opens w (suspend (nextConn w) cn st wi).
Proof.
  intros Hh Hts Hst Hp Hhd [Hc Hn Hm Ht Hl Ha]. unfold suspend.
  split; simpl.
  - exact Hc.
  - lia.
  - eexists. split; [rewrite Hm, insert_insert_eq; reflexivity|].
    repeat split; auto.
  - intros id t H. left. rewrite <- Ht. exact H.
  - exact Hl.
  - exact Ha.
Qed.

Lemma onConnection_opens now q w : opens w (onConnection now q w).
Proof.
  unfold onConnection.
  set (sKey := sessionKeyOf now q).
  set (userId := orElse (q_userId q) ("user_" +:+ pretty now)).
  set (targetUrl := orElse (q_url q) _).
  set (cn := with_sessionKey (Some sKey) newConn).
  set (w0 := set_nextConn (S (nextConn w)) (store (nextConn w) cn w)).
  assert (H0 : opening w cn w0) by (split; reflexivity).
  destruct (match activeSessions w0 !! sKey with
            | Some s => if isClosed (page s) w0 then None else Some s
            | None => None
            end) as [s|];
    [apply armConnection_opens; [reflexivity | reflexivity | exact H0]|].
  destruct (JsMap.has (userBrowsers w0) userId).
  - destruct (JsMap.get (userBrowsers w0) userId) as [b|].
    + apply suspend_opens; auto.
    + apply criticalError_opens; auto.
  - apply suspend_opens; auto.
Qed.

(** * What each event does to the scheduler variables *)

Lemma suspend_quiet k c cn st st' w wi :
  conns w !! c = Some cn → setup cn = Some st →
  quiet k w wi → conns wi = conns w →
  quiet k w (suspend c cn st' wi).
Proof.
  intros Hcn Hst Hq Hc. apply (quiet_trans k w wi); [exact Hq|].
  unfold suspend. apply (quiet_store k c cn); [rewrite Hc; exact Hcn|].
  split; simpl; auto. intros H. rewrite H in Hst. discriminate.
Qed.

Lemma criticalError_quiet k now c cn0 cn w :
  conns w !! c = Some cn0 → same_sched k cn0 cn →
  quiet k w (criticalError now c cn w).
Proof.
  intros Hcn Hs. unfold criticalError. cbv zeta.
  set (w1 := emit now (ELog "Error crítico") w).
  assert (H1 : quiet k w w1) by (apply quiet_emit; reflexivity).
  apply (quiet_trans k w w1); [exact H1|].
  assert (Hcn1 : conns w1 !! c = Some cn0) by exact Hcn.
  destruct (decide _).
  - apply (quiet_trans k w1 (store c (with_readyState CLOSING cn) w1)).
    + apply (quiet_store k c cn0); [exact Hcn1|].
      destruct Hs as [h t s p hd su]. split; simpl; auto.
    + apply quiet_emit; reflexivity.
  - apply (quiet_store k c cn0); [exact Hcn1 | exact Hs].
Qed.

Lemma setupSettled_kind now c ok w :
  step_kind now (SetupSettled c ok) w (setupSettled now c ok w).
Proof.
  unfold setupSettled.
  destruct (conns w !! c) as [cn|] eqn:Hcn; [|apply SK_quiet, quiet_refl].
  cbv zeta.
  assert (Hdone : same_sched true cn (with_setup None cn))
    by (split; simpl; auto).
  assert (Hcrit : step_kind now (SetupSettled c ok) w
                    (criticalError now c (with_setup None cn) w))
    by (apply SK_quiet; eapply criticalError_quiet; [exact Hcn | exact Hdone]).
  destruct (setup cn) as [st|] eqn:Hst; [|apply SK_quiet, quiet_refl].
  assert (Hsus : ∀ st' wi, quiet true w wi → conns wi = conns w →
            step_kind now (SetupSettled c ok) w (suspend c cn st' wi))
    by (intros st' wi Hq Hc; apply SK_quiet;
        eapply suspend_quiet; [exact Hcn | exact Hst | exact Hq | exact Hc]).
  assert (Hreg : ∀ b ctx pg wi, quiet true w wi →
            step_kind now (SetupSettled c ok) w
              (register now c b ctx pg (with_setup None cn) wi)).
  { intros b ctx pg wi Hq. unfold register.
    destruct (sessionKey (with_setup None cn)) as [sKey|];
      [|apply SK_quiet; exact Hq].
    eapply (SK_arm _ _ _ _ c cn pg sKey);
      [exact Hcn | rewrite Hst; eauto | | reflexivity].
    apply (quiet_trans true w wi); [exact Hq|].
    apply quiet_set_activeSessions. }
  destruct st as [u url|b url|b ctx url|b ctx pg url|b ctx pg url|b ctx pg
                  |b ctx pg];
    destruct ok; try exact Hcrit.
  - apply Hsus; [|reflexivity].
    eapply quiet_trans; [apply quiet_set_pages | apply quiet_set_userBrowsers].
  - apply Hsus; [apply quiet_set_pages | reflexivity].
  - apply Hsus; [apply quiet_set_pages | reflexivity].
  - apply Hsus; [apply quiet_refl | reflexivity].
  - apply Hsus; [apply quiet_set_pages | reflexivity].
  - apply Hsus; [apply quiet_emit; reflexivity | reflexivity].
  - apply Hreg. apply quiet_refl.
  - apply Hsus; [apply quiet_emit; reflexivity | reflexivity].
  - apply Hreg. apply quiet_set_pages.
Qed.

Lemma onMessage_kind now c data w :
  step_kind now (Message c data) w (onMessage now c data w).
Proof.
  unfold onMessage.
  destruct (conns w !! c) as [cn|] eqn:Hcn; [|apply SK_quiet, quiet_refl].
  destruct (handler cn) as [[pg sKey]|] eqn:Hh; [|apply SK_quiet, quiet_refl].
  destruct (isClosed pg w); [apply SK_quiet, quiet_refl|].
  assert (Hlog : step_kind now (Message c data) w (logInteractionError now w))
    by (apply SK_quiet, quiet_emit; reflexivity).
  assert (Haw : ∀ cmd, step_kind now (Message c data) w
                         (await (AwInteraction c pg cmd) w)).
  { intros cmd. apply SK_quiet, quiet_await. exists cn.
    split; [exact Hcn | rewrite Hh; eauto]. }
  destruct data as [[x y button|dx dy|key text| | | |type]|];
    try apply Haw; try exact Hlog.
  - destruct (truthy key || truthy text); [apply Haw|].
    apply SK_quiet, scheduleEventFrames_quiet.
  - apply SK_quiet, quiet_refl.
Qed.

Lemma awaitSettled_kind now id ok w :
  step_kind now (AwaitSettled id ok) w (awaitSettled now id ok w).
Proof.
  unfold awaitSettled.
  destruct (awaiting w !! id) as [a|] eqn:Ha; [|apply SK_quiet, quiet_refl].
  cbv zeta. set (w0 := set_awaiting _ _ w).
  assert (H0 : quiet true w w0) by apply quiet_settled.
  destruct a as [c pg cmd|u b i].
  - unfold interactionSettled. destruct ok.
    + destruct cmd as [x y button|dx dy|key text| | | |type];
        try (apply SK_quiet; apply (quiet_trans _ w w0); [exact H0|];
             first [apply scheduleEventFrames_quiet
                   | apply scheduleNavFrames_quiet | apply quiet_refl]).
      destruct (conns w0 !! c) as [cn|] eqn:Hcn.
      * eapply SK_scroll; [exact Ha | exact H0 | exact Hcn | reflexivity].
      * apply SK_quiet. unfold scheduleScrollFrames. rewrite Hcn. exact H0.
    + apply SK_quiet. apply (quiet_trans _ w w0); [exact H0|].
      apply quiet_emit; reflexivity.
  - apply SK_quiet. apply (quiet_trans _ w w0); [exact H0|].
    apply browserCloseSettled_quiet.
Qed.

Lemma onClose_kind now c w : step_kind now (Close c) w (onClose now c w).
Proof.
  unfold onClose.
  destruct (conns w !! c) as [cn|] eqn:Hcn; [|apply SK_quiet, quiet_refl].
  simpl. destruct (handler cn) as [[pg sKey]|] eqn:Hh.
  - eapply SK_close; [exact Hcn | exact Hh | reflexivity].
  - apply SK_quiet. eapply quiet_store; [exact Hcn|]. split; simpl; auto.
Qed.

Lemma timerFired_kind now id w :
  step_kind now (TimerFired id) w (timerFired now id w).
Proof.
  unfold timerFired.
  destruct (timers w !! id) as [t|] eqn:Ht; [|apply SK_quiet, quiet_refl].
  destruct (Z.leb (due t) now); [|apply SK_quiet, quiet_refl].
  set (w0 := set_timers (delete id (timers w)) (nextTimer w) w).
  assert (H0 : quiet true w w0) by apply quiet_delete_timer.
  destruct (cb t) as [site c pg o|c pg|sKey] eqn:Hcb; simpl.
  - apply SK_quiet. apply (quiet_trans _ w w0); [exact H0 | apply sendFrame_quiet].
  - destruct (conns w !! c) as [cn|] eqn:Hcn; [|apply SK_quiet; exact H0].
    eapply SK_settle; [exact Ht | exact Hcb | exact Hcn | reflexivity].
  - apply SK_quiet.
    destruct (activeSessions w !! sKey) as [s|]; [|exact H0].
    apply (quiet_trans _ w w0); [exact H0|].
    eapply quiet_trans; [|apply closeContext_quiet].
    apply quiet_set_activeSessions.
Qed.

Lemma handle_kind now e w : step_kind now e w (handle now e w).
Proof.
  destruct e as [q|c ok|c data|id ok|c|id|id r| |pg|pg url]; simpl.
  - apply SK_opens, onConnection_opens.
  - apply setupSettled_kind.
  - apply onMessage_kind.
  - apply awaitSettled_kind.
  - apply onClose_kind.
  - apply timerFired_kind.
  - apply SK_quiet. apply screenshotSettled_quiet.
  - apply SK_quiet, sweep_quiet.
  - apply SK_quiet. apply (quiet_same true w (pageClosed pg w)); reflexivity.
  - apply SK_quiet. apply (quiet_same true w (navigate pg url w)); reflexivity.
Qed.
(** * Invariants *)

(** ** The scroll schedule, the settle timer and the close *)

Lemma scheduleScrollFrames_spec now c pg w cn :
  conns w !! c = Some cn →
  let live := (now - lastScrollFrameTs cn >? MIN_SCROLL_FRAME_INTERVAL_MS)%Z in
  let h := if live then S (nextTimer w) else nextTimer w in
  let liveTimer :=
    {| due := (now + INTERACTION_FRAME_DELAY_MS)%Z;
       cb := CbSendFrame ScrollLive c pg {| force := false |} |} in
  let w' := scheduleScrollFrames now c pg w in
  nextConn w' = nextConn w ∧
  nextTimer w' = S h ∧
  conns w' =
    <[c := with_scrollSettleTimer (Some h)
             (if live then with_lastScrollFrameTs now cn else cn)]> (conns w) ∧
  timers w' !! h =
    Some {| due := (now + POST_EVENT_EXTRA_DELAY_MS)%Z; cb := CbSettle c pg |} ∧
  (∀ id t, timers w' !! id = Some t → id ≠ h →
     Some id ≠ scrollSettleTimer cn ∧
     (timers w !! id = Some t ∨ (live = true ∧ id = nextTimer w ∧ t = liveTimer))) ∧
  (∀ c', liveScrollFrames c' w' =
         liveScrollFrames c' w ++
         (if live && bool_decide (c' = c) then [now] else [])).
Proof.
  intros Hcn live h liveTimer w'. subst w'. unfold scheduleScrollFrames.
  rewrite Hcn. fold live.
  assert (Hlive : ∀ c' wx, liveScrollFrames c'
                     (setTimeout now (CbSendFrame ScrollLive c pg {| force := false |})
                        INTERACTION_FRAME_DELAY_MS wx)
                   = liveScrollFrames c' wx ++ (if bool_decide (c' = c) then [now] else [])).
  { intros c' wx. unfold setTimeout. rewrite liveScrollFrames_emit.
    unfold liveOf. simpl. destruct (decide (c = c')) as [->|Hne].
    - rewrite bool_decide_eq_true_2 by reflexivity. reflexivity.
    - rewrite bool_decide_eq_false_2 by congruence. reflexivity. }
  assert (Hquietlive : ∀ c' f d wx, is_settle f = true ∨ (∃ k, f = CbRemove k) →
            liveScrollFrames c' (setTimeout now f d wx) = liveScrollFrames c' wx).
  { intros c' f d wx Hf. unfold setTimeout. rewrite liveScrollFrames_emit.
    unfold liveOf. simpl. destruct Hf as [Hf|[k ->]]; [|apply app_nil_r].
    destruct f; try discriminate. apply app_nil_r. }
  assert (Hclear : ∀ c' o wx,
            liveScrollFrames c' (clearTimeout now o wx) = liveScrollFrames c' wx).
  { intros c' o wx. unfold clearTimeout. rewrite liveScrollFrames_emit.
    apply app_nil_r. }
  destruct live eqn:El; cbn [scrollSettleTimer with_lastScrollFrameTs];
    destruct (scrollSettleTimer cn) as [o|] eqn:Eo; subst h;
    (split; [reflexivity|]); (split; [reflexivity|]); (split; [reflexivity|]);
    (split; [apply lookup_insert_eq|]); split.
  - intros id t Ht Hne. simpl in Ht.
    rewrite lookup_insert_ne in Ht by congruence.
    apply lookup_delete_Some in Ht as [Hno Ht].
    split; [congruence|].
    apply lookup_insert_Some in Ht as [[<- <-]|[_ Ht]]; auto.
  - intros c'. rewrite Hquietlive by (left; reflexivity).
    change (liveScrollFrames c' (store c _ ?x)) with (liveScrollFrames c' x).
    rewrite Hclear. rewrite (Hlive c' w). reflexivity.
  - intros id t Ht Hne. simpl in Ht.
    rewrite lookup_insert_ne in Ht by congruence.
    split; [discriminate|].
    apply lookup_insert_Some in Ht as [[<- <-]|[_ Ht]]; auto.
  - intros c'. rewrite Hquietlive by (left; reflexivity).
    change (liveScrollFrames c' (store c _ ?x)) with (liveScrollFrames c' x).
    rewrite (Hlive c' w). reflexivity.
  - intros id t Ht Hne. simpl in Ht.
    rewrite lookup_insert_ne in Ht by congruence.
    apply lookup_delete_Some in Ht as [Hno Ht].
    split; [congruence | auto].
  - intros c'. rewrite Hquietlive by (left; reflexivity).
    change (liveScrollFrames c' (store c _ ?x)) with (liveScrollFrames c' x).
    rewrite Hclear. simpl. rewrite app_nil_r. reflexivity.
  - intros id t Ht Hne. simpl in Ht.
    rewrite lookup_insert_ne in Ht by congruence.
    split; [discriminate | auto].
  - intros c'. rewrite Hquietlive by (left; reflexivity).
    change (liveScrollFrames c' (store c _ ?x)) with (liveScrollFrames c' x).
    simpl. rewrite app_nil_r. reflexivity.
Qed.

Lemma spaced_snoc l x :
  spaced l → Forall (λ t, (MIN_SCROLL_FRAME_INTERVAL_MS < x - t)%Z) l →
  spaced (l ++ [x]).
Proof.
  intros Hsp Hall i j ti tj Hij Hi Hj.
  assert (Hjlen : j < length (l ++ [x])) by (eapply lookup_lt_Some; eauto).
  rewrite length_app in Hjlen. simpl in Hjlen.
  assert (Hi' : l !! i = Some ti) by (rewrite lookup_app_l in Hi by lia; exact Hi).
  destruct (decide (j < length l)) as [Hlt|Hge].
  - rewrite lookup_app_l in Hj by lia. exact (Hsp i j ti tj Hij Hi' Hj).
  - assert (j = length l) by lia. subst j.
    rewrite lookup_app_r in Hj by lia. rewrite Nat.sub_diag in Hj.
    simpl in Hj. inversion Hj; subst tj.
    rewrite Forall_forall in Hall. apply Hall.
    eapply list_elem_of_lookup_2. exact Hi'.
Qed.


(** ** The invariants that do not depend on the time *)

Lemma Inv0_initial : Inv0 initial.
Proof.
  split.
  - intros c cn H. simpl in H. rewrite lookup_empty in H. discriminate.
  - intros id t c pg H. simpl in H. rewrite lookup_empty in H. discriminate.
  - intros c cn H. simpl in H. rewrite lookup_empty in H. discriminate.
  - intros c cn H. simpl in H. rewrite lookup_empty in H. discriminate.
  - intros c cn H. simpl in H. rewrite lookup_empty in H. discriminate.
  - intros id a H. simpl in H. rewrite lookup_empty in H. discriminate.
Qed.

Lemma ids_ok_fresh w : ids_ok w → conns w !! nextConn w = None.
Proof.
  intros Hids. destruct (conns w !! nextConn w) as [cn|] eqn:E; [|reflexivity].
  apply Hids in E. lia.
Qed.

(** A connection that has its listeners keeps them as long as it is handled
    by [same_sched] callbacks. *)
Lemma awaitable_quiet k w w' a : quiet k w w' → awaitable w a → awaitable w' a.
Proof.
  intros Hq. destruct a as [c pg cmd|u b i]; simpl; [|auto].
  intros (cn & Hcn & Hh). pose proof (q_conns _ _ _ Hq c) as Hm.
  rewrite Hcn in Hm. destruct Hm as (cn' & Hcn' & Hs).
  exists cn'. split; [exact Hcn'|]. rewrite (ss_handler _ _ _ Hs). exact Hh.
Qed.

Lemma awaitable_insert w w' c cn' a :
  conns w' = <[c := cn']> (conns w) →
  (∀ cn, conns w !! c = Some cn → is_Some (handler cn) → is_Some (handler cn')) →
  awaitable w a → awaitable w' a.
Proof.
  intros Hm Hh. destruct a as [c0 pg cmd|u b i]; simpl; [|auto].
  intros (cn & Hcn & Hhd). rewrite Hm.
  destruct (decide (c0 = c)) as [->|Hne].
  - rewrite lookup_insert_eq. eauto.
  - rewrite lookup_insert_ne by congruence. eauto.
Qed.

Lemma Inv0_quiet k w w' : quiet k w w' → Inv0 w → Inv0 w'.
Proof.
  intros Hq [Hids Hset Hpen Hidle Hsu Haw].
  pose proof Hq as [Hc Hn Hm Ht Hl Ha].
  assert (Hback : ∀ c cn', conns w' !! c = Some cn' →
            ∃ cn, conns w !! c = Some cn ∧ same_sched k cn cn').
  { intros c cn' Hcn'. specialize (Hm c).
    destruct (conns w !! c) as [cn|] eqn:Hcn; [|congruence].
    destruct Hm as (cn'' & Hcn'' & Hs). rewrite Hcn' in Hcn''.
    inversion Hcn''; subst cn''. eauto. }
  split.
  - intros c cn' Hcn'. destruct (Hback c cn' Hcn') as (cn & Hcn & _).
    rewrite Hc. eapply Hids. exact Hcn.
  - intros id t c pg Hid Hcb. destruct (Ht id t Hid) as [Hold|[_ Hns]].
    + destruct (Hset id t c pg Hold Hcb) as (cn & Hcn & Hh).
      specialize (Hm c). rewrite Hcn in Hm. destruct Hm as (cn' & Hcn' & Hs).
      exists cn'. split; [exact Hcn'|]. rewrite (ss_settle _ _ _ Hs). exact Hh.
    + rewrite Hcb in Hns. discriminate.
  - intros c cn' Hcn'. destruct (Hback c cn' Hcn') as (cn & Hcn & Hs).
    apply (ss_pending _ _ _ Hs). eapply Hpen. exact Hcn.
  - intros c cn' Hcn' Hh. destruct (Hback c cn' Hcn') as (cn & Hcn & Hs).
    rewrite (ss_settle _ _ _ Hs). apply (Hidle c cn Hcn).
    rewrite <- (ss_handler _ _ _ Hs). exact Hh.
  - intros c cn' Hcn' Hst. destruct (Hback c cn' Hcn') as (cn & Hcn & Hs).
    rewrite (ss_handler _ _ _ Hs). apply (Hsu c cn Hcn).
    destruct (setup cn) as [st|] eqn:E; [eauto|].
    rewrite (ss_setup _ _ _ Hs E) in Hst. destruct Hst; discriminate.
  - intros id a Hid. apply (awaitable_quiet k w w' a Hq).
    destruct (Ha id a Hid) as [Hold|Hnew]; [eapply Haw; eauto | exact Hnew].
Qed.

Lemma Inv0_opens w w' : opens w w' → Inv0 w → Inv0 w'.
Proof.
  intros [Hc Hn (cn0 & Hm & Hh0 & Hts0 & Hst0 & Hp0 & Hsu0) Ht Hl Ha]
         [Hids Hset Hpen Hidle Hsu Haw].
  pose proof (ids_ok_fresh w Hids) as Hfresh. split.
  - intros c cn. rewrite Hm, Hc. intros H.
    apply lookup_insert_Some in H as [[<- _]|[_ H]]; [lia|].
    apply Hids in H. lia.
  - intros id t c pg Hid Hcb. destruct (Ht id t Hid) as [Hold|[_ Hns]].
    + destruct (Hset id t c pg Hold Hcb) as (cn & Hcn & Hh).
      exists cn. split; [|exact Hh]. rewrite Hm.
      rewrite lookup_insert_ne; [exact Hcn|]. intros <-. congruence.
    + rewrite Hcb in Hns. discriminate.
  - intros c cn. rewrite Hm. intros H.
    apply lookup_insert_Some in H as [[_ <-]|[_ H]]; [exact Hp0|].
    eapply Hpen. exact H.
  - intros c cn. rewrite Hm. intros H.
    apply lookup_insert_Some in H as [[_ <-]|[_ H]]; [intros _; exact Hst0|].
    eapply Hidle. exact H.
  - intros c cn. rewrite Hm. intros H.
    apply lookup_insert_Some in H as [[_ <-]|[_ H]]; [exact Hsu0|].
    eapply Hsu. exact H.
  - intros id a. rewrite Ha. intros Hid.
    apply (awaitable_insert w w' (nextConn w) cn0 a Hm);
      [|eapply Haw; eauto].
    intros cn Hcn. congruence.
Qed.

(** The last step of a set-up: the listeners are attached. *)
Lemma Inv0_arm now c cn pg sKey w :
  conns w !! c = Some cn → handler cn = None → setup cn = None →
  Inv0 w → Inv0 (armConnection now c pg sKey cn w).
Proof.
  intros Hcn Hh Hst [Hids Hset Hpen Hidle Hsu Haw].
  unfold armConnection, setupInteractionHandler. cbv zeta.
  split.
  - intros c0 cn0. simpl. intros H.
    apply lookup_insert_Some in H as [[<- _]|[_ H]]; eapply Hids; eauto.
  - intros id t c0 pg0. simpl. intros Hid Hcb.
    apply lookup_insert_Some in Hid as [[_ <-]|[_ Hid]]; [discriminate|].
    apply lookup_insert_Some in Hid as [[_ <-]|[_ Hid]]; [discriminate|].
    destruct (Hset id t c0 pg0 Hid Hcb) as (cn0 & Hcn0 & Hh0).
    destruct (decide (c0 = c)) as [->|Hne].
    + rewrite Hcn in Hcn0. inversion Hcn0; subst cn0.
      rewrite (Hidle c cn Hcn Hh) in Hh0. discriminate.
    + exists cn0. rewrite lookup_insert_ne by congruence. auto.
  - intros c0 cn0. simpl. intros H.
    apply lookup_insert_Some in H as [[_ <-]|[_ H]]; simpl; eapply Hpen; eauto.
  - intros c0 cn0. simpl. intros H.
    apply lookup_insert_Some in H as [[_ <-]|[_ H]]; [discriminate|].
    eapply Hidle. exact H.
  - intros c0 cn0. simpl. intros H.
    apply lookup_insert_Some in H as [[_ <-]|[_ H]].
    + simpl. rewrite Hst. intros [x Hx]. discriminate.
    + eapply Hsu. exact H.
  - intros id a Hid. simpl in Hid.
    eapply (awaitable_insert w _ c _ a); [reflexivity | | eapply Haw; eauto].
    intros _ _ _. simpl. eauto.
Qed.

Lemma Inv0_scroll now c pg cn w :
  conns w !! c = Some cn → is_Some (handler cn) →
  Inv0 w → Inv0 (scheduleScrollFrames now c pg w).
Proof.
  intros Hcn Hhd [Hids Hset Hpen Hidle Hsu Haw].
  destruct (scheduleScrollFrames_spec now c pg w cn Hcn)
    as (Hc & Hn & Hm & Hh & Ht & Hl).
  cbv zeta in Hc, Hn, Hm, Hh, Ht, Hl.
  set (live := (now - lastScrollFrameTs cn >? MIN_SCROLL_FRAME_INTERVAL_MS)%Z) in *.
  set (h := if live then S (nextTimer w) else nextTimer w) in *.
  assert (Ha : awaiting (scheduleScrollFrames now c pg w) = awaiting w).
  { unfold scheduleScrollFrames. rewrite Hcn. fold live.
    destruct live; cbv zeta beta iota; destruct (scrollSettleTimer _);
      reflexivity. }
  set (w' := scheduleScrollFrames now c pg w) in *.
  assert (Hsame : ∀ cn0, handler (with_scrollSettleTimer (Some h)
                    (if live then with_lastScrollFrameTs now cn0 else cn0))
                  = handler cn0 ∧
                  setup (with_scrollSettleTimer (Some h)
                    (if live then with_lastScrollFrameTs now cn0 else cn0))
                  = setup cn0)
    by (intros cn0; destruct live; split; reflexivity).
  split.
  - intros c0 cn0. rewrite Hm, Hc. intros H.
    apply lookup_insert_Some in H as [[<- _]|[_ H]]; eapply Hids; eauto.
  - intros id t c0 pg0 Hid Hcb. destruct (decide (id = h)) as [->|Hne].
    + rewrite Hh in Hid. inversion Hid; subst t. simpl in Hcb.
      inversion Hcb; subst c0 pg0. rewrite Hm, lookup_insert_eq.
      eexists. split; [reflexivity|]. reflexivity.
    + destruct (Ht id t Hid Hne) as [Hold [Hin|(_ & _ & ->)]];
        [|discriminate].
      destruct (Hset id t c0 pg0 Hin Hcb) as (cn0 & Hcn0 & Hh0).
      destruct (decide (c0 = c)) as [->|Hc0].
      * rewrite Hcn in Hcn0. inversion Hcn0; subst cn0. congruence.
      * exists cn0. rewrite Hm, lookup_insert_ne by congruence. auto.
  - intros c0 cn0. rewrite Hm. intros H.
    apply lookup_insert_Some in H as [[_ <-]|[_ H]]; [|eapply Hpen; eauto].
    destruct live; simpl; eapply Hpen; eauto.
  - intros c0 cn0. rewrite Hm. intros H.
    apply lookup_insert_Some in H as [[_ <-]|[_ H]]; [|eapply Hidle; eauto].
    destruct (Hsame cn) as [E _]. rewrite E. intros Hno.
    rewrite Hno in Hhd. destruct Hhd; discriminate.
  - intros c0 cn0. rewrite Hm. intros H.
    apply lookup_insert_Some in H as [[_ <-]|[_ H]]; [|eapply Hsu; eauto].
    destruct (Hsame cn) as [E1 E2]. rewrite E1, E2. eapply Hsu. exact Hcn.
  - intros id a. rewrite Ha. intros Hid.
    apply (awaitable_insert w w' c _ a Hm); [|eapply Haw; eauto].
    intros cn0 _ Hh0. destruct (Hsame cn) as [E _]. rewrite E. exact Hhd.
Qed.

Lemma Inv0_settle_fired now id t c pg cn w :
  timers w !! id = Some t → cb t = CbSettle c pg →
  conns w !! c = Some cn → Inv0 w →
  Inv0 (store c (with_lastScrollFrameTs now cn)
          (set_timers (delete id (timers w)) (nextTimer w) w)).
Proof.
  intros Hid Hcb Hcn [Hids Hset Hpen Hidle Hsu Haw]. split.
  - intros c0 cn0. simpl. intros H.
    apply lookup_insert_Some in H as [[<- _]|[_ H]]; eapply Hids; eauto.
  - intros id0 t0 c0 pg0. simpl. intros Ht0 Hcb0.
    apply lookup_delete_Some in Ht0 as [_ Ht0].
    destruct (Hset id0 t0 c0 pg0 Ht0 Hcb0) as (cn0 & Hcn0 & Hh0).
    destruct (decide (c0 = c)) as [->|Hc0].
    + rewrite Hcn in Hcn0. inversion Hcn0; subst cn0.
      rewrite lookup_insert_eq. eexists. split; [reflexivity | exact Hh0].
    + exists cn0. rewrite lookup_insert_ne by congruence. auto.
  - intros c0 cn0. simpl. intros H.
    apply lookup_insert_Some in H as [[_ <-]|[_ H]]; simpl; eapply Hpen; eauto.
  - intros c0 cn0. simpl. intros H.
    apply lookup_insert_Some in H as [[_ <-]|[_ H]]; simpl; eapply Hidle; eauto.
  - intros c0 cn0. simpl. intros H.
    apply lookup_insert_Some in H as [[_ <-]|[_ H]]; simpl; eapply Hsu; eauto.
  - intros id0 a Hid0. simpl in Hid0.
    eapply (awaitable_insert w _ c _ a); [reflexivity | | eapply Haw; eauto].
    intros cn0 Hcn0 Hh0. rewrite Hcn in Hcn0. inversion Hcn0; subst cn0.
    exact Hh0.
Qed.

Lemma Inv0_close now c cn pg sKey w :
  conns w !! c = Some cn → handler cn = Some (pg, sKey) → Inv0 w →
  Inv0
    (setTimeout now (CbRemove sKey) SESSION_REMOVAL_DELAY_MS
       (store c (with_scrollSettleTimer None (with_readyState CLOSED cn))
          (match scrollSettleTimer cn with
           | Some h => clearTimeout now h w
           | None => w
           end))).
Proof.
  intros Hcn Hh [Hids Hset Hpen Hidle Hsu Haw]. split.
  - intros c0 cn0. destruct (scrollSettleTimer cn); simpl; intros H;
      apply lookup_insert_Some in H as [[<- _]|[_ H]]; eapply Hids; eauto.
  - intros id t c0 pg0 Hid Hcb.
    assert (Hold : timers w !! id = Some t ∧ Some id ≠ scrollSettleTimer cn).
    { destruct (scrollSettleTimer cn) as [o|]; simpl in Hid;
        apply lookup_insert_Some in Hid as [[_ <-]|[_ Hid]]; try discriminate.
      - apply lookup_delete_Some in Hid as [Hno Hid]. split; [exact Hid | congruence].
      - split; [exact Hid | discriminate]. }
    destruct Hold as [Hold Hno].
    destruct (Hset id t c0 pg0 Hold Hcb) as (cn0 & Hcn0 & Hh0).
    destruct (decide (c0 = c)) as [->|Hc0].
    + rewrite Hcn in Hcn0. inversion Hcn0; subst cn0. congruence.
    + exists cn0. split; [|exact Hh0].
      destruct (scrollSettleTimer cn); simpl;
        rewrite lookup_insert_ne by congruence; exact Hcn0.
  - intros c0 cn0. destruct (scrollSettleTimer cn); simpl; intros H;
      apply lookup_insert_Some in H as [[_ <-]|[_ H]]; simpl; eapply Hpen; eauto.
  - intros c0 cn0. destruct (scrollSettleTimer cn); simpl; intros H;
      apply lookup_insert_Some in H as [[_ <-]|[_ H]]; simpl;
      try reflexivity; eapply Hidle; eauto.
  - intros c0 cn0. destruct (scrollSettleTimer cn); simpl; intros H;
      apply lookup_insert_Some in H as [[_ <-]|[_ H]]; simpl; eapply Hsu; eauto.
  - intros id a Hid.
    assert (Hid' : awaiting w !! id = Some a)
      by (destruct (scrollSettleTimer cn); exact Hid).
    eapply (awaitable_insert w _ c
              (with_scrollSettleTimer None (with_readyState CLOSED cn)) a);
      [destruct (scrollSettleTimer cn); reflexivity | | eapply Haw; eauto].
    intros cn0 Hcn0 Hh0. rewrite Hcn in Hcn0. inversion Hcn0; subst cn0.
    exact Hh0.
Qed.

Lemma Inv0_step now e w : Inv0 w → Inv0 (handle now e w).
Proof.
  intros HI.
  destruct (handle_kind now e w)
    as [Hq|Ho|c cn pg sKey w0 Hcn Hst Hq ->
       |id c pg cmd cn w0 Hid Hq Hcn ->
       |id t c pg cn Hid Hcb Hcn ->|c cn pg sKey Hcn Hh ->].
  - eapply Inv0_quiet; eauto.
  - eapply Inv0_opens; eauto.
  - pose proof (q_conns _ _ _ Hq c) as Hm. rewrite Hcn in Hm.
    destruct Hm as (cn' & Hcn' & Hs).
    pose proof (Inv0_quiet _ _ _ Hq HI) as HI0.
    pose proof (inv_setup _ HI c cn Hcn Hst) as Hh.
    pose proof (inv_idle _ HI c cn Hcn Hh) as Hno.
    (* the closure stored by the last step only differs from the one in
       [w0] by the fields that [armConnection] resets *)
    assert (E : armConnection now c pg sKey (with_setup None cn) w0 =
                armConnection now c pg sKey (with_setup None cn)
                  (store c (with_setup None cn) w0)).
    { unfold armConnection, setupInteractionHandler, store, setTimeout. simpl.
      rewrite insert_insert_eq. reflexivity. }
    rewrite E. apply Inv0_arm; [apply lookup_insert_eq | exact Hh | reflexivity|].
    eapply (Inv0_quiet true); [|exact HI0].
    apply (quiet_store true c cn'); [exact Hcn'|].
    destruct Hs as [h t s p hd su]. split; simpl.
    + intros _. symmetry. apply h. reflexivity.
    + congruence.
    + congruence.
    + intros _. apply (inv_pending _ HI c cn Hcn).
    + congruence.
    + reflexivity.
  - pose proof (inv_await _ HI id _ Hid) as (cn1 & Hcn1 & Hh1).
    pose proof (q_conns _ _ _ Hq c) as Hm. rewrite Hcn1 in Hm.
    destruct Hm as (cn' & Hcn' & Hs). rewrite Hcn in Hcn'.
    inversion Hcn'; subst cn'.
    eapply Inv0_scroll; [exact Hcn | | eapply Inv0_quiet; eauto].
    rewrite (ss_handler _ _ _ Hs). exact Hh1.
  - eapply (Inv0_quiet true); [apply sendFrame_quiet|].
    eapply Inv0_settle_fired; eauto.
  - eapply Inv0_close; eauto.
Qed.

Lemma Inv0_run evs : ∀ w, Inv0 w → Inv0 (run evs w).
Proof.
  induction evs as [|[now e] evs IH]; intros w HI; simpl.
  - exact HI.
  - apply IH. apply Inv0_step. exact HI.
Qed.
(** ** The invariant on the live scroll frames *)

Lemma Inv_initial : Inv 0 initial.
Proof.
  split.
  - lia.
  - apply Inv0_initial.
  - intros c. split.
    + intros i j ti tj _ H. change (liveScrollFrames c initial) with (@nil Z) in H.
      rewrite lookup_nil in H. discriminate.
    + simpl. rewrite lookup_empty. reflexivity.
Qed.

Lemma Inv_quiet k clock now w w' :
  (clock ≤ now)%Z → quiet k w w' → Inv clock w → Inv now w'.
Proof.
  intros Hle Hq [H0 HI0 Hlive]. split; [lia | eapply Inv0_quiet; eauto|].
  destruct Hq as [Hc Hn Hm Ht Hl Ha].
  intros c. rewrite Hl. destruct (Hlive c) as [Hsp Hts]. split; [exact Hsp|].
  specialize (Hm c). destruct (conns w !! c) as [cn|] eqn:Hcn.
  - destruct Hm as (cn' & -> & Hs). rewrite (ss_ts _ _ _ Hs).
    rewrite (ss_handler _ _ _ Hs).
    destruct Hts as (? & ? & ?). split; [lia | split; assumption].
  - rewrite Hm. exact Hts.
Qed.

Lemma Inv_opens clock now w w' :
  (clock ≤ now)%Z → opens w w' → Inv clock w → Inv now w'.
Proof.
  intros Hle Ho [H0 HI0 Hlive]. split; [lia | eapply Inv0_opens; eauto|].
  pose proof (ids_ok_fresh w (inv_ids w HI0)) as Hfresh.
  destruct Ho as [Hc Hn (cn0 & Hm & Hh0 & Hts0 & Hst0 & Hp0 & Hsu0) Ht Hl Ha].
  intros c. rewrite Hl, Hm. destruct (Hlive c) as [Hsp Hts].
  split; [exact Hsp|].
  destruct (decide (c = nextConn w)) as [->|Hne].
  - rewrite lookup_insert_eq. rewrite Hfresh in Hts. rewrite Hts, Hts0.
    split; [lia | split; [constructor | reflexivity]].
  - rewrite lookup_insert_ne by congruence.
    destruct (conns w !! c) as [cn|]; [|exact Hts].
    destruct Hts as (? & ? & ?). split; [lia | split; assumption].
Qed.

Lemma liveScrollFrames_armConnection now c pg sKey cn w c0 :
  liveScrollFrames c0 (armConnection now c pg sKey cn w) = liveScrollFrames c0 w.
Proof.
  unfold armConnection, setupInteractionHandler, liveScrollFrames. simpl.
  rewrite !omap_snoc. simpl. rewrite !app_nil_r. reflexivity.
Qed.

Lemma Inv_arm clock now c cn pg sKey w :
  (clock ≤ now)%Z →
  conns w !! c = Some cn → handler cn = None → setup cn = None →
  Inv clock w → Inv now (armConnection now c pg sKey cn w).
Proof.
  intros Hle Hcn Hh Hst [H0 HI0 Hlive].
  split; [lia | apply Inv0_arm; assumption|].
  intros c0. rewrite liveScrollFrames_armConnection.
  destruct (Hlive c0) as [Hsp Hts]. split; [exact Hsp|].
  unfold armConnection, setupInteractionHandler. simpl.
  destruct (decide (c0 = c)) as [->|Hc0].
  - rewrite lookup_insert_eq. simpl. rewrite Hcn in Hts.
    destruct Hts as (_ & _ & Hemp). rewrite (Hemp Hh).
    split; [lia | split; [constructor | reflexivity]].
  - rewrite lookup_insert_ne by congruence.
    destruct (conns w !! c0); [|exact Hts].
    destruct Hts as (? & ? & ?). split; [lia | split; assumption].
Qed.

Lemma Inv_scroll clock now c pg cn w :
  (clock ≤ now)%Z → conns w !! c = Some cn → is_Some (handler cn) →
  Inv clock w →
  Inv now (scheduleScrollFrames now c pg w).
Proof.
  intros Hle Hcn Hhd [H0 HI0 Hlive].
  split; [lia | eapply Inv0_scroll; eauto|].
  destruct (scheduleScrollFrames_spec now c pg w cn Hcn)
    as (Hc & Hn & Hm & Hh & Ht & Hl).
  cbv zeta in Hc, Hn, Hm, Hh, Ht, Hl.
  set (live := (now - lastScrollFrameTs cn >? MIN_SCROLL_FRAME_INTERVAL_MS)%Z) in *.
  assert (Hkeep : ∀ h, handler (with_scrollSettleTimer h
                    (if live then with_lastScrollFrameTs now cn else cn)) = None →
                  False).
  { intros h. destruct live; simpl; intros E; rewrite E in Hhd;
      destruct Hhd; discriminate. }
  intros c0. rewrite Hl, Hm. destruct (Hlive c0) as [Hsp Hts].
  destruct (decide (c0 = c)) as [->|Hc0].
  - rewrite lookup_insert_eq. rewrite Hcn in Hts. destruct Hts as (Hts & Hall & _).
    rewrite bool_decide_eq_true_2 by reflexivity. rewrite andb_true_r.
    split; [|split; [|split; [|intros E; destruct (Hkeep _ E)]]].
    + destruct live eqn:El; simpl; [|rewrite app_nil_r; exact Hsp].
      unfold live in El. apply Z.gtb_lt in El.
      apply spaced_snoc; [exact Hsp|].
      eapply Forall_impl; [exact Hall|]. simpl. intros t Ht'. lia.
    + destruct live; simpl; lia.
    + destruct live eqn:El; simpl; [|rewrite app_nil_r; exact Hall].
      unfold live in El. apply Z.gtb_lt in El.
      apply Forall_app. split.
      * eapply Forall_impl; [exact Hall|]. simpl. intros t Ht'. lia.
      * constructor; [lia | constructor].
  - rewrite lookup_insert_ne by congruence.
    rewrite bool_decide_eq_false_2 by exact Hc0. rewrite andb_false_r, app_nil_r.
    split; [exact Hsp|]. destruct (conns w !! c0); [|exact Hts].
    destruct Hts as (? & ? & ?). split; [lia | split; assumption].
Qed.

Lemma Inv_settle_fired clock now id t c pg cn w :
  (clock ≤ now)%Z → timers w !! id = Some t → cb t = CbSettle c pg →
  conns w !! c = Some cn → Inv clock w →
  Inv now (store c (with_lastScrollFrameTs now cn)
             (set_timers (delete id (timers w)) (nextTimer w) w)).
Proof.
  intros Hle Hid Hcb Hcn [H0 HI0 Hlive].
  split; [lia | eapply Inv0_settle_fired; eauto|].
  intros c0. destruct (Hlive c0) as [Hsp Hts].
  change (liveScrollFrames c0 (store c _ (set_timers _ _ w)))
    with (liveScrollFrames c0 w).
  split; [exact Hsp|]. simpl.
  destruct (decide (c0 = c)) as [->|Hc0].
  - rewrite lookup_insert_eq. simpl. rewrite Hcn in Hts.
    destruct Hts as (Hts & Hall & Hemp). split; [lia|]. split; [|exact Hemp].
    eapply Forall_impl; [exact Hall|]. simpl. intros x Hx. lia.
  - rewrite lookup_insert_ne by congruence.
    destruct (conns w !! c0); [|exact Hts].
    destruct Hts as (? & ? & ?). split; [lia | split; assumption].
Qed.

Lemma Inv_close clock now c cn pg sKey w :
  (clock ≤ now)%Z → conns w !! c = Some cn → handler cn = Some (pg, sKey) →
  Inv clock w →
  Inv now
    (setTimeout now (CbRemove sKey) SESSION_REMOVAL_DELAY_MS
       (store c (with_scrollSettleTimer None (with_readyState CLOSED cn))
          (match scrollSettleTimer cn with
           | Some h => clearTimeout now h w
           | None => w
           end))).
Proof.
  intros Hle Hcn Hh [H0 HI0 Hlive].
  split; [lia | eapply Inv0_close; eauto|].
  assert (Hlf : ∀ c0,
            liveScrollFrames c0
              (setTimeout now (CbRemove sKey) SESSION_REMOVAL_DELAY_MS
                 (store c (with_scrollSettleTimer None (with_readyState CLOSED cn))
                    (match scrollSettleTimer cn with
                     | Some h => clearTimeout now h w
                     | None => w
                     end)))
            = liveScrollFrames c0 w).
  { intros c0. unfold setTimeout. rewrite liveScrollFrames_emit. simpl.
    rewrite app_nil_r.
    change (liveScrollFrames c0 (set_timers _ _ (store c _ ?x)))
      with (liveScrollFrames c0 x).
    destruct (scrollSettleTimer cn); [|reflexivity].
    unfold clearTimeout. rewrite liveScrollFrames_emit. simpl. apply app_nil_r. }
  intros c0. rewrite Hlf. destruct (Hlive c0) as [Hsp Hts].
  split; [exact Hsp|].
  assert (Hconns : conns
            (setTimeout now (CbRemove sKey) SESSION_REMOVAL_DELAY_MS
               (store c (with_scrollSettleTimer None (with_readyState CLOSED cn))
                  (match scrollSettleTimer cn with
                   | Some h => clearTimeout now h w
                   | None => w
                   end)))
            = <[c := with_scrollSettleTimer None (with_readyState CLOSED cn)]>
                (conns w))
    by (destruct (scrollSettleTimer cn); reflexivity).
  rewrite Hconns. destruct (decide (c0 = c)) as [->|Hc0].
  - rewrite lookup_insert_eq. simpl. rewrite Hcn in Hts.
    destruct Hts as (? & ? & ?). split; [lia | split; assumption].
  - rewrite lookup_insert_ne by congruence.
    destruct (conns w !! c0); [|exact Hts].
    destruct Hts as (? & ? & ?). split; [lia | split; assumption].
Qed.

(** Every event taken at a time that is not before the clock keeps the
    invariant. *)
Lemma Inv_step clock now e w :
  (clock ≤ now)%Z → Inv clock w → Inv now (handle now e w).
Proof.
  intros Hle HI. pose proof (inv_0 _ _ HI) as HI0.
  destruct (handle_kind now e w)
    as [Hq|Ho|c cn pg sKey w0 Hcn Hst Hq ->
       |id c pg cmd cn w0 Hid Hq Hcn ->
       |id t c pg cn Hid Hcb Hcn ->|c cn pg sKey Hcn Hh ->].
  - eapply Inv_quiet; eauto.
  - eapply Inv_opens; eauto.
  - pose proof (q_conns _ _ _ Hq c) as Hm. rewrite Hcn in Hm.
    destruct Hm as (cn' & Hcn' & Hs).
    pose proof (inv_setup _ HI0 c cn Hcn Hst) as Hh.
    assert (E : armConnection now c pg sKey (with_setup None cn) w0 =
                armConnection now c pg sKey (with_setup None cn)
                  (store c (with_setup None cn) w0)).
    { unfold armConnection, setupInteractionHandler, store, setTimeout. simpl.
      rewrite insert_insert_eq. reflexivity. }
    rewrite E.
    apply (Inv_arm now now); [lia | apply lookup_insert_eq | exact Hh | reflexivity|].
    eapply (Inv_quiet true clock now w); [exact Hle | | exact HI].
    apply (quiet_trans true w w0); [exact Hq|].
    apply (quiet_store true c cn'); [exact Hcn'|].
    destruct Hs as [h t s p hd su]. split; simpl.
    + intros _. symmetry. apply h. reflexivity.
    + congruence.
    + congruence.
    + intros _. apply (inv_pending _ HI0 c cn Hcn).
    + congruence.
    + reflexivity.
  - pose proof (inv_await _ HI0 id _ Hid) as (cn1 & Hcn1 & Hh1).
    pose proof (q_conns _ _ _ Hq c) as Hm. rewrite Hcn1 in Hm.
    destruct Hm as (cn' & Hcn' & Hs). rewrite Hcn in Hcn'.
    inversion Hcn'; subst cn'.
    eapply (Inv_scroll now now); [lia | exact Hcn | |].
    + rewrite (ss_handler _ _ _ Hs). exact Hh1.
    + eapply Inv_quiet; eauto.
  - eapply (Inv_quiet true now now); [lia | apply sendFrame_quiet|].
    eapply Inv_settle_fired; eauto.
  - eapply Inv_close; eauto.
Qed.

Lemma Inv_run evs : ∀ clock w,
  chronological clock evs → Inv clock w →
  Inv (lastTime clock evs) (run evs w).
Proof.
  induction evs as [|[now e] evs IH]; intros clock w Hch HI; simpl.
  - exact HI.
  - destruct Hch as [Hle Hch]. apply IH; [exact Hch|].
    apply Inv_step with clock; assumption.
Qed.
(** * Creating a session (lines 262-310) *)

Lemma logs_emit now e w :
  logs (emit now e w) =
  logs w ++ match logOf (now, e) with Some l => [l] | None => [] end.
Proof. unfold logs, emit; simpl. apply omap_snoc. Qed.

Lemma wsClosed_emit now e w :
  wsClosed (emit now e w) =
  wsClosed w ++ match wsClosedOf (now, e) with Some c => [c] | None => [] end.
Proof. unfold wsClosed, emit; simpl. apply omap_snoc. Qed.

Lemma armConnection_effects now c pg sKey cn w :
  let w' := armConnection now c pg sKey cn w in
  userBrowsers w' = userBrowsers w ∧ nextObject w' = nextObject w ∧
  inflight w' = inflight w ∧ awaiting w' = awaiting w ∧
  logs w' = logs w ∧ wsClosed w' = wsClosed w ∧
  (∀ c', sent c' w' = sent c' w) ∧
  timers w' = twoFrames now c pg InitForced INITIAL_FRAME_DELAY_MS true InitExtra w ∧
  conns w' =
    <[c := with_handler (Some (pg, sKey))
             (with_scrollSettleTimer None
                (with_lastScrollFrameTs 0 (with_lastScreenshotHash None cn)))]>
      (conns w).
Proof.
  unfold armConnection, setupInteractionHandler. simpl.
  repeat split.
  - unfold logs. simpl. rewrite !omap_snoc. simpl. rewrite !app_nil_r.
    reflexivity.
  - unfold wsClosed. simpl. rewrite !omap_snoc. simpl. rewrite !app_nil_r.
    reflexivity.
  - intros c'. unfold sent. simpl. rewrite !omap_snoc. simpl.
    rewrite !app_nil_r. reflexivity.
Qed.

Lemma criticalError_spec now c cn w :
  let w' := criticalError now c cn w in
  activeSessions w' = activeSessions w ∧ userBrowsers w' = userBrowsers w ∧
  pages w' = pages w ∧ timers w' = timers w ∧ awaiting w' = awaiting w ∧
  logs w' = logs w ++ [(now, "Error crítico"%string)] ∧
  wsClosed w' = wsClosed w ++ (if decide (readyState cn = OPEN) then [c] else []) ∧
  conns w' =
    <[c := if decide (readyState cn = OPEN) then with_readyState CLOSING cn
           else cn]> (conns w).
Proof.
  unfold criticalError. cbv zeta.
  destruct (decide (readyState cn = OPEN)); unfold logs, wsClosed; simpl;
    rewrite ?omap_app; simpl; rewrite ?app_nil_r, <- ?app_assoc;
    repeat split; reflexivity.
Qed.

(** C9, as the code has it.  The callback of a connection whose initial
    navigation has failed (a [page.goto] or a [page.title] that throws) is
    logged and waits for the navigation to the blank page; nothing is
    registered yet.  When that navigation returns, the page is on the blank
    page, the session is registered under the key of the connection, the
    listeners are attached to the socket, whatever its state, and the two
    initial frames are scheduled from that moment.  When it throws, the
    registry is left as it was, the error is logged and the socket is
    closed if it is still open; no listener is attached. *)
Theorem C9_fallback_to_blank_page now c w cn sKey b ctx pg :
  conns w !! c = Some cn → sessionKey cn = Some sKey →
  ((∃ url, setup cn = Some (AtGoto b ctx pg url)) ∨
   setup cn = Some (AtTitle b ctx pg) →
   let w' := setupSettled now c false w in
   conns w' = <[c := with_setup (Some (AtGotoBlank b ctx pg)) cn]> (conns w) ∧
   activeSessions w' = activeSessions w ∧ pages w' = pages w ∧
   timers w' = timers w ∧ wsClosed w' = wsClosed w ∧
   logs w' = logs w ++ [(now, "Error navegación"%string)]) ∧
  (setup cn = Some (AtGotoBlank b ctx pg) →
   (let w' := setupSettled now c true w in
    activeSessions w' =
      <[sKey := {| page := pg; context := ctx; browser := b |}]>
        (activeSessions w) ∧
    pages w' = alter (setUrl "about:blank") pg (pages w) ∧
    isClosed pg w' = isClosed pg w ∧
    (∃ cn', conns w' !! c = Some cn' ∧ handler cn' = Some (pg, sKey) ∧
            setup cn' = None ∧ readyState cn' = readyState cn) ∧
    timers w' =
      twoFrames now c pg InitForced INITIAL_FRAME_DELAY_MS true InitExtra w ∧
    logs w' = logs w ∧ wsClosed w' = wsClosed w) ∧
   (let w' := setupSettled now c false w in
    activeSessions w' = activeSessions w ∧ pages w' = pages w ∧
    timers w' = timers w ∧
    logs w' = logs w ++ [(now, "Error crítico"%string)] ∧
    wsClosed w' = wsClosed w ++ (if decide (readyState cn = OPEN) then [c] else []) ∧
    ∃ cn', conns w' !! c = Some cn' ∧ handler cn' = handler cn ∧
           setup cn' = None ∧ readyState cn' ≠ OPEN)).
Proof.
  intros Hcn Hkey. split.
  - intros Hst w'. subst w'. unfold setupSettled. rewrite Hcn. cbv zeta.
    destruct Hst as [[url ->]| ->]; unfold suspend, logs, wsClosed; simpl;
      rewrite ?omap_app; simpl; rewrite ?app_nil_r;
      repeat split; reflexivity.
  - intros Hst. split.
    + intros w'. subst w'. unfold setupSettled. rewrite Hcn, Hst. cbv zeta.
      unfold register.
      change (sessionKey (with_setup None cn)) with (sessionKey cn).
      rewrite Hkey.
      set (w0 := set_activeSessions _ _).
      destruct (armConnection_spec now c pg sKey (with_setup None cn) w0)
        as (Hs' & Hp' & _ & _ & Hc').
      destruct (armConnection_effects now c pg sKey (with_setup None cn) w0)
        as (_ & _ & _ & _ & Hl' & Hx' & _ & Ht' & _).
      cbv zeta in Hs', Hp', Hc', Hl', Hx', Ht'.
      split; [rewrite Hs'; reflexivity|].
      split; [rewrite Hp'; reflexivity|].
      split; [unfold isClosed; rewrite Hp'; subst w0; simpl;
              rewrite lookup_alter_eq; destruct (pages w !! pg); reflexivity|].
      split; [rewrite Hc'; eexists; repeat split|].
      split; [rewrite Ht'; reflexivity|].
      split; [rewrite Hl'; reflexivity | rewrite Hx'; reflexivity].
    + intros w'. subst w'. unfold setupSettled. rewrite Hcn, Hst. cbv zeta.
      destruct (criticalError_spec now c (with_setup None cn) w)
        as (Hs' & _ & Hp' & Ht' & _ & Hl' & Hx' & Hc').
      cbv zeta in Hs', Hp', Ht', Hl', Hx', Hc'.
      split; [exact Hs'|]. split; [exact Hp'|]. split; [exact Ht'|].
      split; [exact Hl'|]. split; [exact Hx'|].
      rewrite Hc', lookup_insert_eq. eexists. split; [reflexivity|].
      change (readyState (with_setup None cn)) with (readyState cn).
      destruct (decide (readyState cn = OPEN)); simpl;
        repeat split; [discriminate | assumption].
Qed.

(** The theorem on a client whose navigation to the target has failed at
    16000, leaving the page on an error page: when the navigation to the
    blank page returns at 16050 the session is registered on the blank
    page. *)
Lemma C9_fallback_witness :
  let w := Scenario4.fallingBack in
  let w' := setupSettled 16050 0 true w in
  (pg_url <$> pages w !! 2) = Some "chrome-error://chromewebdata/"%string ∧
  activeSessions w !! "u1_s1"%string = None ∧
  activeSessions w' !! "u1_s1"%string =
    Some {| page := 2; context := 1; browser := 0 |} ∧
  (pg_url <$> pages w' !! 2) = Some "about:blank"%string ∧
  timers w' !! 0 =
    Some {| due := 16150; cb := CbSendFrame InitForced 0 2 {| force := true |} |}.
Proof.
  intros w w'.
  assert (Hcn : conns w !! 0 =
                Some (with_setup (Some (AtGotoBlank 0 1 2))
                        (with_sessionKey (Some "u1_s1"%string) newConn)))
    by (vm_compute; reflexivity).
  destruct (C9_fallback_to_blank_page 16050 0 w _ "u1_s1"%string 0 1 2
              Hcn eq_refl) as [_ H].
  destruct (H eq_refl) as [(Hs & Hp & _ & _ & Ht & _) _].
  fold w' in Hs, Hp, Ht.
  split; [vm_compute; reflexivity|]. split; [vm_compute; reflexivity|].
  split; [rewrite Hs; apply lookup_insert_eq|].
  split; [rewrite Hp; vm_compute; reflexivity|].
  rewrite Ht. vm_compute; reflexivity.
Defined.

(** C9 as stated fails: when the navigation to the blank page throws as well
    (here at 16050), no session is registered for the connection, the error
    is logged and the socket is closed. *)
Lemma C9_no_session_when_fallback_fails :
  let w' := handle 16050 (SetupSettled 0 false) Scenario4.fallingBack in
  activeSessions w' = ∅ ∧
  (handler <$> conns w' !! 0) = Some None ∧
  (readyState <$> conns w' !! 0) = Some CLOSING ∧
  wsClosed w' = [0] ∧
  logs w' = [(16000, "Error navegación"); (16050, "Error crítico")]%Z%string.
Proof. vm_compute. repeat split; reflexivity. Qed.
(** * The pool of browsers and the sweep (lines 263-273 and 314-329) *)



(** ** The map *)







(** ** The callbacks that leave the pool alone *)


















(** ** One pass *)



(** * The stored hash between two captures (lines 66, 95-104, 251, 297) *)

Lemma hash_step now e w c cn :
  Inv0 w → conns w !! c = Some cn → is_Some (handler cn) →
  resolves c e w = false →
  ∃ cn', conns (handle now e w) !! c = Some cn' ∧
         lastScreenshotHash cn' = lastScreenshotHash cn ∧
         handler cn' = handler cn.
Proof.
  intros HI Hcn Hhd Hres.
  assert (Hq : ∀ w1, quiet true w w1 →
            ∃ cn1, conns w1 !! c = Some cn1 ∧
                   lastScreenshotHash cn1 = lastScreenshotHash cn ∧
                   handler cn1 = handler cn).
  { intros w1 Hq. pose proof (q_conns _ _ _ Hq c) as H.
    rewrite Hcn in H. destruct H as (cn1 & H1 & H2). exists cn1.
    split; [exact H1|].
    split; [apply (ss_hash _ _ _ H2); reflexivity | apply (ss_handler _ _ _ H2)]. }
  destruct (keepsHash e) eqn:Hk.
  - destruct (handle_kind now e w)
      as [Hq'|Ho|c0 cn0 pg sKey w0 Hcn0 Hst Hq0 Hw'
         |id c0 pg cmd cn0 w0 Hid Hq0 Hcn0 Hw'
         |id t c0 pg cn0 Ht Hcb Hcn0 Hw'|c0 cn0 pg sKey Hcn0 Hh Hw'].
    + rewrite Hk in Hq'. apply Hq. exact Hq'.
    + destruct (o_conns _ _ Ho) as (cn0 & -> & _).
      exists cn. split; [|split; reflexivity].
      rewrite lookup_insert_ne; [exact Hcn|].
      pose proof (inv_ids _ HI c cn Hcn). lia.
    + destruct (decide (c0 = c)) as [->|Hne].
      * rewrite Hcn in Hcn0. inversion Hcn0; subst cn0.
        rewrite (inv_setup _ HI c cn Hcn Hst) in Hhd. destruct Hhd; discriminate.
      * destruct (Hq w0 Hq0) as (cn1 & Hcn1 & Hh1 & Hd1).
        exists cn1. split; [|split; assumption].
        rewrite Hw'. unfold armConnection, setupInteractionHandler. simpl.
        rewrite lookup_insert_ne by congruence. exact Hcn1.
    + destruct (Hq w0 Hq0) as (cn1 & Hcn1 & Hh1 & Hd1).
      rewrite Hw'.
      destruct (scheduleScrollFrames_spec now c0 pg w0 cn0 Hcn0)
        as (_ & _ & -> & _).
      destruct (decide (c = c0)) as [->|Hne].
      * rewrite lookup_insert_eq. eexists; split; [reflexivity|].
        rewrite Hcn1 in Hcn0. inversion Hcn0; subst cn0.
        destruct (_ >? _)%Z; split; assumption.
      * rewrite lookup_insert_ne by congruence. eauto.
    + rewrite Hw'.
      set (ws := store c0 _ _).
      pose proof (q_conns _ _ _
                    (sendFrame_quiet true now c0 pg {| force := false |} ws) c)
        as H.
      assert (Hws : ∃ cn1, conns ws !! c = Some cn1 ∧
                      lastScreenshotHash cn1 = lastScreenshotHash cn ∧
                      handler cn1 = handler cn).
      { subst ws. simpl. destruct (decide (c = c0)) as [->|Hne].
        - rewrite lookup_insert_eq. eexists; split; [reflexivity|].
          rewrite Hcn in Hcn0. inversion Hcn0; subst cn0. split; reflexivity.
        - rewrite lookup_insert_ne by congruence. eauto. }
      destruct Hws as (cn1 & Hcn1 & Hh1 & Hd1). rewrite Hcn1 in H.
      destruct H as (cn' & H1 & H2). exists cn'. split; [exact H1|].
      rewrite <- Hh1, <- Hd1.
      split; [apply (ss_hash _ _ _ H2); reflexivity | apply (ss_handler _ _ _ H2)].
    + rewrite Hw'.
      assert (Hc : ∀ w0, conns w0 = conns w →
                conns (setTimeout now (CbRemove sKey) SESSION_REMOVAL_DELAY_MS
                         (store c0 (with_scrollSettleTimer None
                                      (with_readyState CLOSED cn0)) w0))
                = <[c0 := with_scrollSettleTimer None
                            (with_readyState CLOSED cn0)]> (conns w)).
      { intros w0 E. simpl. rewrite E. reflexivity. }
      rewrite Hc by (destruct (scrollSettleTimer cn0); reflexivity).
      destruct (decide (c = c0)) as [->|Hne].
      * rewrite lookup_insert_eq. eexists; split; [reflexivity|].
        rewrite Hcn in Hcn0. inversion Hcn0; subst cn0. split; reflexivity.
      * rewrite lookup_insert_ne by congruence. eauto.
  - destruct e as [| | | | | |id [s|m]| | |]; try discriminate. simpl in *.
    rewrite screenshotSettled_other; [eauto|].
    intros cap Hfind. rewrite Hfind in Hres.
    case_bool_decide; [discriminate | assumption].
Qed.

Lemma hash_run evs : ∀ w c cn,
  Inv0 w → conns w !! c = Some cn → is_Some (handler cn) →
  noneResolved c evs w = true →
  ∃ cn', conns (run evs w) !! c = Some cn' ∧
         lastScreenshotHash cn' = lastScreenshotHash cn.
Proof.
  induction evs as [|[now e] evs IH]; intros w c cn HI Hcn Hhd Hnone; simpl in *.
  - eauto.
  - apply andb_prop in Hnone as [Hres Hnone].
    apply negb_true_iff in Hres.
    destruct (hash_step now e w c cn HI Hcn Hhd Hres)
      as (cn1 & Hcn1 & Hh1 & Hd1).
    rewrite <- Hd1 in Hhd.
    destruct (IH _ c cn1 (Inv0_step now e w HI) Hcn1 Hhd Hnone)
      as (cn2 & Hcn2 & Hh2).
    exists cn2. split; [exact Hcn2 | congruence].
Qed.

(** C2, as the code has it: after a successful capture of a connection
    that has its listeners, in a reachable world, the hash stored by the
    connection is the hash of the frame.  A non-forced frame whose hash
    equals the stored one is not sent and leaves the stored hash as it was.
    A forced frame, or one whose hash differs, is sent when the socket is
    OPEN (line 102) and is not sent otherwise, the hash being updated in
    both cases.  Whatever the server handles next, as long as no other
    capture of the connection completes successfully, the next non-forced
    capture of the connection that returns the same bytes sends nothing. *)
Theorem C2_dedup_rule evs0 now id screenshot cap cn :
  let w := run evs0 initial in
  List.find (λ k, bool_decide (cap_id k = id)) (inflight w) = Some cap →
  conns w !! cap_conn cap = Some cn → is_Some (handler cn) →
  let c := cap_conn cap in
  let hash := MD5.digest screenshot in
  let w' := screenshotSettled now id (Resolved screenshot) w in
  ∃ cn', conns w' !! c = Some cn' ∧
    lastScreenshotHash cn' = Some hash ∧
    (force (cap_options cap) = false → lastScreenshotHash cn = Some hash →
     sent c w' = sent c w ∧ lastScreenshotHash cn' = lastScreenshotHash cn) ∧
    (force (cap_options cap) = true ∨ lastScreenshotHash cn ≠ Some hash →
     sent c w' =
       if decide (readyState cn = OPEN) then sent c w ++ [screenshot]
       else sent c w) ∧
    (∀ evs now2 id2 cap2,
       noneResolved c evs w' = true →
       let w2 := run evs w' in
       List.find (λ k, bool_decide (cap_id k = id2)) (inflight w2) = Some cap2 →
       cap_conn cap2 = c → force (cap_options cap2) = false →
       sent c (screenshotSettled now2 id2 (Resolved screenshot) w2) = sent c w2).
Proof.
  intros w Hfind Hcn Hhd c hash w'.
  pose proof (Inv0_run evs0 initial Inv0_initial) as HI. fold w in HI.
  pose proof (Inv0_step now (ScreenshotSettled id (Resolved screenshot)) w HI)
    as HI'. simpl in HI'. fold w' in HI'.
  pose proof (q_conns _ _ _ (screenshotSettled_quiet now id (Resolved screenshot) w)
                (cap_conn cap)) as Hqc.
  rewrite Hcn in Hqc. destruct Hqc as (cnq & Hcnq & Hsq).
  destruct (settled_resolved_spec now id screenshot w cap cn Hfind Hcn)
    as (cn' & Hcn' & _ & Hh & Hdup & Hnew).
  assert (E : Some cnq = Some cn')
    by (etransitivity; [symmetry; exact Hcnq | exact Hcn']).
  inversion E; subst cnq. clear E.
  exists cn'. split; [assumption|]. split; [assumption|].
  split; [|split; [assumption|]].
  - intros Hf Heq. split; [apply Hdup; assumption | rewrite Heq; assumption].
  - intros evs now2 id2 cap2 Hnone w2 Hfind2 Hc2 Hforce2.
    assert (Hhd' : is_Some (handler cn'))
      by (rewrite (ss_handler _ _ _ Hsq); exact Hhd).
    destruct (hash_run evs w' c cn' HI' Hcn' Hhd' Hnone) as (cn2 & Hcn2 & Hh2).
    fold w2 in Hcn2. subst c. rewrite <- Hc2 in Hcn2.
    destruct (settled_resolved_spec now2 id2 screenshot w2 cap2 cn2 Hfind2 Hcn2)
      as (_ & _ & _ & _ & Hdup2 & _).
    rewrite Hc2 in Hdup2. apply Hdup2; [assumption|]. congruence.
Qed.

(** The theorem on a connection whose forced initial frame, captured at
    1100, is frame A: it is sent at 1200; the capture of the second initial
    frame, started at 2500 and not forced, returns frame A again and
    nothing is sent. *)
Lemma C2_dedup_rule_witness :
  let w := Scenario2.firstCapture in
  let w' := screenshotSettled 1200 0 (Resolved Scenario.frameA) w in
  let w2 := run [(2500%Z, TimerFired 1)] w' in
  sent 0 w' = [Scenario.frameA] ∧
  sent 0 (screenshotSettled 2600 1 (Resolved Scenario.frameA) w2) =
    [Scenario.frameA].
Proof.
  intros w w' w2.
  destruct (C2_dedup_rule
              (Scenario.connects 1000 Scenario.u1s1 0 6 ++ [(1100%Z, TimerFired 0)])
              1200 0 Scenario.frameA
              {| cap_id := 0; cap_conn := 0; cap_page := 2;
                 cap_options := {| force := true |} |}
              (with_isCapturing true
                 (with_handler (Some (2, "u1_s1"%string))
                    (with_sessionKey (Some "u1_s1"%string) newConn))))
    as (cn' & _ & _ & _ & Hnew & Hnext).
  - vm_compute. reflexivity.
  - vm_compute. reflexivity.
  - simpl. eauto.
  - cbn [cap_conn cap_options force] in Hnew, Hnext.
    assert (E1 : sent 0 w' = [Scenario.frameA]).
    { unfold w', w, Scenario2.firstCapture.
      rewrite Hnew by (left; reflexivity). vm_compute. reflexivity. }
    split; [exact E1|].
    specialize (Hnext [(2500%Z, TimerFired 1)] 2600%Z 1
                  {| cap_id := 1; cap_conn := 0; cap_page := 2;
                     cap_options := {| force := false |} |}).
    cbv zeta in Hnext.
    assert (E2 : sent 0 w2 = [Scenario.frameA]) by (vm_compute; reflexivity).
    rewrite <- E2. apply Hnext; vm_compute; reflexivity.
Defined.

(** C2 as stated fails in two ways.  A forced capture that succeeds after
    the socket has closed updates the stored hash and sends nothing.  And
    the hash is kept by the connection, not by the session: frame A, the
    last frame sent for the session "u1_s1" (to connection 0), is sent
    again to connection 1 of the same session by a capture that is not
    forced. *)
Lemma C2_delivery_depends_on_socket_and_connection :
  (inflight Scenario.closedEarly =
     [{| cap_id := 0; cap_conn := 0; cap_page := 2;
         cap_options := {| force := true |} |}] ∧
   let w' := handle 1200 (ScreenshotSettled 0 (Resolved Scenario.frameA))
               Scenario.closedEarly in
   sent 0 w' = [] ∧
   (lastScreenshotHash <$> conns w' !! 0) =
     Some (Some (MD5.digest Scenario.frameA))) ∧
  (inflight Scenario9.secondTab =
     [{| cap_id := 3; cap_conn := 1; cap_page := 2;
         cap_options := {| force := false |} |}] ∧
   sent 0 Scenario9.secondTab = [Scenario.frameA] ∧
   sent 1 Scenario9.secondTab = [] ∧
   let w' := handle 3600 (ScreenshotSettled 3 (Resolved Scenario.frameA))
               Scenario9.secondTab in
   sent 1 w' = [Scenario.frameA]).
Proof. vm_compute. repeat split; reflexivity. Qed.
(** * Properties of the reachable worlds *)

Lemma spaced_span l : spaced l →
  ∀ n i ti tn, l !! i = Some ti → l !! (i + n) = Some tn →
    (MIN_SCROLL_FRAME_INTERVAL_MS * Z.of_nat n ≤ tn - ti)%Z.
Proof.
  intros Hsp. induction n as [|n IH]; intros i ti tn Hi Hn.
  - rewrite Nat.add_0_r in Hn. rewrite Hi in Hn. inversion Hn. lia.
  - assert (Hlt : i + n < length l).
    { apply lookup_lt_Some in Hn. lia. }
    destruct (lookup_lt_is_Some_2 l (i + n) Hlt) as [tm Hm].
    specialize (IH i ti tm Hi Hm).
    assert (Hgap : (MIN_SCROLL_FRAME_INTERVAL_MS < tn - tm)%Z).
    { apply (Hsp (i + n) (i + S n)); [lia | exact Hm | exact Hn]. }
    lia.
Qed.

(** X1: in a run whose events are taken in the order of their times, any two
    live scroll frames that a connection schedules (line 149) are more than
    MIN_SCROLL_FRAME_INTERVAL_MS apart, so [n + 1] of them span more than
    [n] times that interval. *)
Theorem X1_live_scroll_frames_spaced evs c :
  chronological 0 evs →
  spaced (liveScrollFrames c (run evs initial)) ∧
  ∀ n i ti tn,
    liveScrollFrames c (run evs initial) !! i = Some ti →
    liveScrollFrames c (run evs initial) !! (i + n) = Some tn →
    (MIN_SCROLL_FRAME_INTERVAL_MS * Z.of_nat n ≤ tn - ti)%Z.
Proof.
  intros Hch.
  destruct (Inv_run evs 0 initial Hch Inv_initial) as [_ _ Hlive].
  destruct (Hlive c) as [Hsp _].
  split; [exact Hsp | apply spaced_span; exact Hsp].
Qed.

(** The theorem on a burst of three wheel events 50 and 150 ms apart: the
    second one schedules no live frame. *)
Lemma X1_scroll_burst_witness :
  liveScrollFrames 0 (run Scenario6.scrollBurst initial) = [2000; 2200]%Z ∧
  spaced (liveScrollFrames 0 (run Scenario6.scrollBurst initial)).
Proof.
  split; [vm_compute; reflexivity|].
  apply (X1_live_scroll_frames_spaced Scenario6.scrollBurst 0).
  simpl. lia.
Defined.

Lemma settleTimers_elem c id t w :
  (id, t) ∈ settleTimers c w ↔
  timers w !! id = Some t ∧ ∃ pg, cb t = CbSettle c pg.
Proof.
  unfold settleTimers. rewrite list_elem_of_In, List.filter_In,
    <- list_elem_of_In, elem_of_map_to_list. simpl.
  split; intros [Ht Hcb]; split; try exact Ht.
  - destruct (cb t) as [| c' pg |]; try discriminate.
    apply bool_decide_eq_true_1 in Hcb. subst c'. eauto.
  - destruct Hcb as [pg ->]. apply bool_decide_eq_true_2. reflexivity.
Qed.

Lemma NoDup_same_key {A B} (l : list (A * B)) (k : A) :
  NoDup l.*1 → (∀ e, e ∈ l → e.1 = k) → length l ≤ 1.
Proof.
  intros Hnd Hall. destruct l as [|e1 [|e2 l]]; simpl; try lia.
  exfalso. simpl in Hnd. apply NoDup_cons in Hnd as [Hnot _].
  apply Hnot. rewrite (Hall e1), <- (Hall e2).
  - apply list_elem_of_here.
  - apply list_elem_of_further, list_elem_of_here.
  - apply list_elem_of_here.
Qed.

Lemma NoDup_filter_fst {A B} (f : A * B → bool) (l : list (A * B)) :
  NoDup l.*1 → NoDup (List.filter f l).*1.
Proof.
  induction l as [|e l IH]; simpl; intros Hnd; [constructor|].
  apply NoDup_cons in Hnd as [Hnot Hnd].
  destruct (f e); simpl; [|apply IH; exact Hnd].
  apply NoDup_cons. split; [|apply IH; exact Hnd].
  intros Hin. apply Hnot.
  apply list_elem_of_fmap in Hin as (e' & He' & Hin).
  apply list_elem_of_fmap. exists e'. split; [exact He'|].
  apply list_elem_of_In, List.filter_In in Hin as [Hin _].
  apply list_elem_of_In. exact Hin.
Qed.

(** X2: whatever the events, a connection never has more than one settle
    timer pending, and a pending one is the timer whose handle the
    connection holds in [scrollSettleTimer] (lines 153-157, 215-218). *)
Theorem X2_at_most_one_settle_timer evs c :
  length (settleTimers c (run evs initial)) ≤ 1 ∧
  ∀ id t, (id, t) ∈ settleTimers c (run evs initial) →
    (scrollSettleTimer <$> conns (run evs initial) !! c) = Some (Some id).
Proof.
  pose proof (Inv0_run evs initial Inv0_initial) as [_ Hset _ _ _ _].
  assert (Hh : ∀ id t, (id, t) ∈ settleTimers c (run evs initial) →
            (scrollSettleTimer <$> conns (run evs initial) !! c) = Some (Some id)).
  { intros id t Hin. apply settleTimers_elem in Hin as [Ht [pg Hcb]].
    destruct (Hset id t c pg Ht Hcb) as (cn & -> & Hid). simpl.
    rewrite Hid. reflexivity. }
  split; [|exact Hh].
  destruct (settleTimers c (run evs initial)) as [|[id0 t0] l] eqn:E;
    [simpl; lia|].
  apply (NoDup_same_key _ id0).
  - rewrite <- E. unfold settleTimers. apply NoDup_filter_fst.
    apply NoDup_fst_map_to_list.
  - intros [id t] Hin. simpl.
    pose proof (Hh id t Hin) as H1.
    pose proof (Hh id0 t0 (list_elem_of_here _ _)) as H2. congruence.
Qed.

(** X3: whatever the events, [pendingCapture] is false in every closure
    between two callbacks: the call of [sendFrame] that sets it (line 83)
    clears it in its own [finally] block (line 124). *)
Theorem X3_pending_flag_never_left_set evs :
  map_Forall (λ _ cn, pendingCapture cn = false) (conns (run evs initial)).
Proof.
  pose proof (Inv0_run evs initial Inv0_initial) as [_ _ Hpen _ _ _].
  intros c cn Hcn. eapply Hpen. exact Hcn.
Qed.

(** * Failures and edge cases of [sendFrame] *)

Lemma sendFrame_finally_logs now c pg cn w :
  logs (sendFrame_finally now c pg cn w) = logs w.
Proof.
  unfold sendFrame_finally. simpl.
  destruct (pendingCapture cn && negb (isClosed pg w)); [|reflexivity].
  unfold setTimeout. rewrite logs_emit. simpl. apply app_nil_r.
Qed.




(** X5: how a failed capture is logged.  A timeout of [page.screenshot] is
    logged only when more than 3000 ms have passed since the last such log
    of the connection, whose time is then recorded; any other error whose
    message does not contain "closed" is logged every time. *)
Theorem X5_failure_logging now id msg w cap cn :
  List.find (λ k, bool_decide (cap_id k = id)) (inflight w) = Some cap →
  conns w !! cap_conn cap = Some cn →
  includes msg "Target closed" || includes msg "closed" = false →
  let w' := screenshotSettled now id (Rejected msg) w in
  let timeout := includes msg "Timeout" && includes msg "page.screenshot" in
  let due := (now - lastTimeoutLogTs cn >? TIMEOUT_LOG_COOLDOWN_MS)%Z in
  logs w' =
    logs w ++
    (if timeout then
       if due then [(now, "Timeout en sendFrame (screenshot): " +:+ msg)] else []
     else [(now, "Error en sendFrame: " +:+ msg)]) ∧
  (lastTimeoutLogTs <$> conns w' !! cap_conn cap) =
    Some (if timeout && due then now else lastTimeoutLogTs cn).
Proof.
  intros Hfind Hcn Hmsg w' timeout due. subst w'.
  rewrite (screenshotSettled_rejected _ _ _ _ _ _ Hfind Hcn).
  rewrite sendFrame_finally_logs, sendFrame_finally_conns, lookup_insert_eq.
  unfold sendFrame_catch. rewrite Hmsg. fold timeout.
  destruct timeout; [fold due; destruct due|]; cbn [fst snd andb];
    rewrite ?logs_emit; simpl; rewrite ?app_nil_r;
    (split; [reflexivity|]);
    unfold afterFinally; destruct (_ && _); reflexivity.
Qed.

(** The theorem on two timeouts of one connection 1450 ms apart: the second
    one is not logged. *)
Lemma X5_second_timeout_witness :
  (lastTimeoutLogTs <$> conns Scenario7.firstTimeout !! 0) = Some 6100%Z ∧
  logs (screenshotSettled 7550 1 (Rejected Scenario7.timeoutMessage)
          Scenario7.firstTimeout) = logs Scenario7.firstTimeout.
Proof.
  split; [vm_compute; reflexivity|].
  destruct (X5_failure_logging 7550 1 Scenario7.timeoutMessage
              Scenario7.firstTimeout
              {| cap_id := 1; cap_conn := 0; cap_page := 2;
                 cap_options := {| force := false |} |}
              (with_isCapturing false
                 (with_lastTimeoutLogTs 6100
                    (with_handler (Some (2, "u1_s1"%string))
                       (with_sessionKey (Some "u1_s1"%string) newConn)))))
    as (Hlog & _);
    [vm_compute; reflexivity | vm_compute; reflexivity | vm_compute; reflexivity|].
  cbv zeta in Hlog. rewrite Hlog.
  vm_compute. reflexivity.
Defined.

(** X6: [sendFrame] on a page that is closed (line 80) starts no capture,
    sets no timer, sends and logs nothing and touches no session; its
    [finally] block still resets [isCapturing] of the connection. *)
Theorem X6_sendFrame_on_closed_page now c pg options w :
  isClosed pg w = true →
  let w' := sendFrame now c pg options w in
  inflight w' = inflight w ∧ timers w' = timers w ∧ effects w' = effects w ∧
  activeSessions w' = activeSessions w ∧ pages w' = pages w ∧
  conns w' =
    match conns w !! c with
    | Some cn => <[c := with_isCapturing false cn]> (conns w)
    | None => conns w
    end.
Proof.
  intros Hclosed w'. subst w'. unfold sendFrame.
  destruct (conns w !! c) as [cn|]; [|repeat split; reflexivity].
  rewrite Hclosed. unfold sendFrame_finally. rewrite Hclosed.
  rewrite andb_false_r. repeat split; reflexivity.
Qed.

(** The theorem on the forced initial frame of a connection whose page has
    closed in the meantime. *)
Lemma X6_closed_page_witness :
  inflight (timerFired 1100 0 Scenario7.pageGone) = [] ∧
  sent 0 (timerFired 1100 0 Scenario7.pageGone) = [].
Proof.
  assert (E : timerFired 1100 0 Scenario7.pageGone =
              sendFrame 1100 0 2 {| force := true |}
                (set_timers (delete 0 (timers Scenario7.pageGone))
                   (nextTimer Scenario7.pageGone) Scenario7.pageGone))
    by (vm_compute; reflexivity).
  rewrite E.
  destruct (X6_sendFrame_on_closed_page 1100 0 2 {| force := true |}
              (set_timers (delete 0 (timers Scenario7.pageGone))
                 (nextTimer Scenario7.pageGone) Scenario7.pageGone))
    as (Hin & _ & Heff & _).
  - vm_compute. reflexivity.
  - cbv zeta in Hin, Heff. rewrite Hin. unfold sent. rewrite Heff.
    vm_compute. split; reflexivity.
Defined.

(** * The message listener (lines 161-210) *)













(** X8: what a command schedules when the call it awaits on the page
    settles, at the time it settles and whatever has happened to the page
    and to the socket meanwhile.  A click and a key schedule two frames that
    are not forced, 50 and 1500 ms later; reload, back and forward schedule
    a forced frame 300 ms later and one that is not forced 1500 ms later.
    When the call throws, the error is logged and no timer is set.  None of
    these commands changes a closure variable. *)
Theorem X8_command_schedule now id ok w c pg cmd :
  awaiting w !! id = Some (AwInteraction c pg cmd) →
  let w' := awaitSettled now id ok w in
  awaiting w' = delete id (awaiting w) ∧
  logs w' = logs w ++ (if ok then [] else [(now, "Error interacción"%string)]) ∧
  match cmd with
  | Click _ _ _ | Key _ _ =>
      conns w' = conns w ∧
      timers w' =
        if ok then twoFrames now c pg EventNow INTERACTION_FRAME_DELAY_MS false
                     EventExtra w
        else timers w
  | Reload | Back | Forward =>
      conns w' = conns w ∧
      timers w' =
        if ok then twoFrames now c pg NavNow NAV_FRAME_DELAY_MS true NavExtra w
        else timers w
  | Scroll _ _ => ok = false → conns w' = conns w ∧ timers w' = timers w
  | Unknown _ => conns w' = conns w ∧ timers w' = timers w
  end.
Proof.
  intros Hid w'. subst w'. unfold awaitSettled. rewrite Hid. cbv zeta.
  unfold interactionSettled.
  split; [|split].
  - destruct ok; [|reflexivity].
    destruct cmd; try reflexivity.
    unfold scheduleScrollFrames. simpl.
    destruct (conns w !! c); [|reflexivity].
    destruct (_ >? _)%Z; cbv zeta beta iota; destruct (scrollSettleTimer _);
      reflexivity.
  - destruct ok.
    + rewrite app_nil_r. destruct cmd; unfold logs; simpl;
        rewrite ?omap_app; simpl; rewrite ?app_nil_r; try reflexivity.
      unfold scheduleScrollFrames. simpl.
      destruct (conns w !! c); [|reflexivity].
      destruct (_ >? _)%Z; cbv zeta beta iota; destruct (scrollSettleTimer _);
        simpl; rewrite ?omap_app; simpl; rewrite ?app_nil_r; reflexivity.
    + unfold logInteractionError. rewrite logs_emit. reflexivity.
  - destruct cmd as [x y button|dx dy|key text| | | |type];
      try (destruct ok; split; reflexivity).
    intros ->. split; reflexivity.
Qed.

(** The theorem on a click of a connected client at 1000, whose call on the
    page returns at 1010. *)
Lemma X8_click_witness :
  let w := onMessage 1005 0 (Some (Click 10 10 None)) Scenario3.connected in
  let w' := awaitSettled 1010 0 true w in
  timers w' !! 2 =
    Some {| due := 1060; cb := CbSendFrame EventNow 0 2 {| force := false |} |} ∧
  timers w' !! 3 =
    Some {| due := 2510; cb := CbSendFrame EventExtra 0 2 {| force := false |} |}.
Proof.
  intros w w'.
  pose proof (X8_command_schedule 1010 0 true w 0 2 (Click 10 10 None)) as H.
  destruct H as (_ & _ & _ & Ht); [vm_compute; reflexivity|].
  fold w' in Ht. rewrite Ht. vm_compute. split; reflexivity.
Defined.
(** * Reuse, release and removal of sessions *)

(** X9: a connection whose key is registered with a session whose page is
    open reuses it at once, without awaiting anything: no browser, context
    or page is created, nothing is navigated or sent and no warning or
    error is logged; the registry and the pool are unchanged; the new closure is bound to the page of the
    session, with its socket open; a forced frame is scheduled 100 ms later
    and one that is not forced 1500 ms later. *)
Theorem X9_reuse_creates_nothing now q w s :
  activeSessions w !! sessionKeyOf now q = Some s →
  isClosed (page s) w = false →
  let w' := onConnection now q w in
  let c := nextConn w in
  userBrowsers w' = userBrowsers w ∧ activeSessions w' = activeSessions w ∧
  pages w' = pages w ∧ nextObject w' = nextObject w ∧ logs w' = logs w ∧
  awaiting w' = awaiting w ∧ (∀ c', sent c' w' = sent c' w) ∧
  (∃ cn, conns w' !! c = Some cn ∧
         handler cn = Some (page s, sessionKeyOf now q) ∧
         setup cn = None ∧ readyState cn = OPEN) ∧
  timers w' =
    twoFrames now c (page s) InitForced INITIAL_FRAME_DELAY_MS true InitExtra w.
Proof.
  intros Hs Hopen w' c. subst w'.
  rewrite (onConnection_reuse now q w s Hs Hopen). cbv zeta. fold c.
  set (cn := with_sessionKey (Some (sessionKeyOf now q)) newConn).
  set (w0 := set_nextConn (S c) (store c cn w)).
  destruct (armConnection_spec now c (page s) (sessionKeyOf now q) cn w0)
    as (Hs' & Hp' & _ & _ & Hc').
  destruct (armConnection_effects now c (page s) (sessionKeyOf now q) cn w0)
    as (Hb' & Ho' & _ & Ha' & Hl' & _ & Hsent' & Ht' & _).
  cbv zeta in Hs', Hp', Hc', Hb', Ho', Ha', Hl', Hsent', Ht'.
  rewrite Hs', Hp', Hc', Hb', Ho', Ha', Hl', Ht'.
  repeat split; [exact Hsent'|]. eexists. repeat split.
Qed.

(** The theorem on a second connection of a client whose session is
    idle. *)
Lemma X9_reconnect_witness :
  let w' := onConnection 15000 Scenario.u1s1 Scenario3.idle in
  pages w' = pages Scenario3.idle ∧
  (handler <$> conns w' !! 1) = Some (Some (2, "u1_s1"%string)) ∧
  timers w' !! 2 =
    Some {| due := 15100; cb := CbSendFrame InitForced 1 2 {| force := true |} |}.
Proof.
  intros w'.
  pose proof (X9_reuse_creates_nothing 15000 Scenario.u1s1
                Scenario3.idle
                {| page := 2; context := 1; browser := 0 |}) as H.
  destruct H as (_ & _ & Hp & _ & _ & _ & _ & (cn & Hcn & Hh & _) & Ht);
    [vm_compute; reflexivity | vm_compute; reflexivity|].
  fold w' in Hp, Hcn, Ht. split; [exact Hp|].
  assert (E : nextConn Scenario3.idle = 1) by (vm_compute; reflexivity).
  rewrite E in Hcn, Ht. rewrite Hcn. cbn [fmap option_fmap option_map].
  rewrite Hh. split; [vm_compute; reflexivity|].
  rewrite Ht. vm_compute. reflexivity.
Defined.


(** * Setting up a new session (lines 262-310) *)

(** X11: when a call of the set-up other than the two navigations to the
    target throws ([chromium.launch], [newContext], [newPage],
    [setViewportSize], or the navigation to the blank page), the callback
    ends in its [catch]: the error is logged, the socket is closed if it is
    still open, no session is registered, no timer is set and no listener
    is attached.  Nothing that the set-up has created is released: the pool
    and the pages are as they were and no [close()] is called on a context
    or a browser. *)
Theorem X11_setup_failure_is_critical now c w cn st :
  conns w !! c = Some cn → setup cn = Some st →
  match st with AtGoto _ _ _ _ | AtTitle _ _ _ => False | _ => True end →
  let w' := setupSettled now c false w in
  activeSessions w' = activeSessions w ∧ userBrowsers w' = userBrowsers w ∧
  pages w' = pages w ∧ timers w' = timers w ∧
  closedContexts w' = closedContexts w ∧ closedBrowsers w' = closedBrowsers w ∧
  logs w' = logs w ++ [(now, "Error crítico"%string)] ∧
  wsClosed w' = wsClosed w ++ (if decide (readyState cn = OPEN) then [c] else []) ∧
  ∃ cn', conns w' !! c = Some cn' ∧ handler cn' = handler cn ∧
         setup cn' = None ∧ readyState cn' ≠ OPEN.
Proof.
  intros Hcn Hst Hkind w'.
  assert (E : w' = criticalError now c (with_setup None cn) w).
  { subst w'. unfold setupSettled. rewrite Hcn, Hst. cbv zeta.
    destruct st; try contradiction; reflexivity. }
  rewrite E.
  destruct (criticalError_spec now c (with_setup None cn) w)
    as (Hs' & Hb' & Hp' & Ht' & _ & Hl' & Hx' & Hc').
  cbv zeta in Hs', Hb', Hp', Ht', Hl', Hx', Hc'.
  split; [exact Hs'|]. split; [exact Hb'|]. split; [exact Hp'|].
  split; [exact Ht'|].
  split; [unfold criticalError, closedContexts; cbv zeta;
          destruct (decide _); simpl; rewrite ?omap_app; simpl;
          rewrite ?app_nil_r; reflexivity|].
  split; [unfold criticalError, closedBrowsers; cbv zeta;
          destruct (decide _); simpl; rewrite ?omap_app; simpl;
          rewrite ?app_nil_r; reflexivity|].
  split; [exact Hl'|]. split; [exact Hx'|].
  rewrite Hc', lookup_insert_eq. eexists. split; [reflexivity|].
  change (readyState (with_setup None cn)) with (readyState cn).
  destruct (decide (readyState cn = OPEN)); simpl;
    repeat split; [discriminate | assumption].
Qed.

(** The theorem on a launch that fails. *)
Lemma X11_launch_fails_witness :
  let w := run [(1000%Z, Connection Scenario.u1s1)] initial in
  let w' := setupSettled 1500 0 false w in
  activeSessions w' = ∅ ∧ wsClosed w' = [0] ∧
  logs w' = [(1500%Z, "Error crítico"%string)].
Proof.
  intros w w'.
  edestruct (X11_setup_failure_is_critical 1500 0 w)
    as (Hs & _ & _ & _ & _ & _ & Hl & Hx & _);
    [vm_compute; reflexivity | vm_compute; reflexivity | exact I|].
  fold w' in Hs, Hl, Hx. rewrite Hs, Hl, Hx. vm_compute. repeat split.
Defined.



(** ** The pool *)

Lemma JsMap_get_set {V} (m : list (option (string * V))) k v k' :
  JsMap.get (JsMap.set m k v) k' =
  if decide (k' = k) then Some v else JsMap.get m k'.
Proof.
  induction m as [|[[k0 v0]|] m IH]; cbn.
  - destruct (decide (k = k')), (decide (k' = k)); congruence.
  - destruct (decide (k0 = k)) as [->|Hne]; cbn.
    + destruct (decide (k = k')), (decide (k' = k)); congruence.
    + destruct (decide (k0 = k')) as [->|Hne'].
      * rewrite decide_False by congruence. reflexivity.
      * exact IH.
  - exact IH.
Qed.


(** X19: the pool is looked up before [chromium.launch] is awaited and
    written after.  When two connections of a user who has no browser wait
    for a launch, both launches are made; the browser of the second one
    takes the place of the first one's in the pool, while the callback of
    the first connection goes on with the first browser, which no entry of
    the pool holds any more. *)
Theorem X19_concurrent_launches now1 now2 c1 c2 w cn1 cn2 u url1 url2 :
  c1 ≠ c2 →
  conns w !! c1 = Some cn1 → setup cn1 = Some (AtLaunch u url1) →
  conns w !! c2 = Some cn2 → setup cn2 = Some (AtLaunch u url2) →
  (∀ u' b, JsMap.get (userBrowsers w) u' = Some b → b < nextObject w) →
  let b1 := nextObject w in
  let b2 := S (nextObject w) in
  let w' := setupSettled now2 c2 true (setupSettled now1 c1 true w) in
  JsMap.get (userBrowsers w') u = Some b2 ∧
  (∀ u', JsMap.get (userBrowsers w') u' ≠ Some b1) ∧
  (setup <$> conns w' !! c1) = Some (Some (AtNewContext b1 url1)) ∧
  (setup <$> conns w' !! c2) = Some (Some (AtNewContext b2 url2)).
Proof.
  intros Hne Hc1 Hs1 Hc2 Hs2 Hold b1 b2 w'.
  set (w1 := setupSettled now1 c1 true w).
  assert (E1 : w1 = suspend c1 cn1 (AtNewContext b1 url1)
                      (set_userBrowsers (JsMap.set (userBrowsers w) u b1)
                         (set_pages (pages w) (S b1) w))).
  { subst w1. unfold setupSettled. rewrite Hc1, Hs1. reflexivity. }
  assert (Hc2' : conns w1 !! c2 = Some cn2).
  { rewrite E1. unfold suspend. simpl.
    rewrite lookup_insert_ne by congruence. exact Hc2. }
  assert (E2 : w' = suspend c2 cn2 (AtNewContext b2 url2)
                      (set_userBrowsers (JsMap.set (userBrowsers w1) u b2)
                         (set_pages (pages w1) (S b2) w1))).
  { subst w'. fold w1. unfold setupSettled. rewrite Hc2', Hs2. cbv zeta.
    rewrite E1. reflexivity. }
  rewrite E2. unfold suspend. cbn [userBrowsers store set_conns set_userBrowsers
                                   conns set_pages].
  split; [|split; [|split]].
  - rewrite JsMap_get_set. rewrite decide_True by reflexivity. reflexivity.
  - intros u'. rewrite JsMap_get_set.
    destruct (decide (u' = u)) as [->|Hu]; [intros [=]; subst b1 b2; lia|].
    rewrite E1. unfold suspend. cbn [userBrowsers store set_conns
                                     set_userBrowsers set_pages].
    rewrite JsMap_get_set. rewrite decide_False by exact Hu.
    intros H. apply Hold in H. subst b1. lia.
  - rewrite lookup_insert_ne by congruence. rewrite E1. unfold suspend.
    simpl. rewrite lookup_insert_eq. reflexivity.
  - rewrite lookup_insert_eq. reflexivity.
Qed.

(** The theorem on two connections of the user "u1" accepted one
    millisecond apart: browser 0 is launched for the first and browser 1
    for the second, and the pool only holds browser 1. *)
Lemma X19_two_launches_witness :
  let w' := setupSettled 1801 1 true
              (setupSettled 1800 0 true Scenario8.twoLaunches) in
  JsMap.entries (userBrowsers w') = [("u1"%string, 1)] ∧
  (setup <$> conns w' !! 0) =
    Some (Some (AtNewContext 0 "https://example.test")).
Proof.
  intros w'.
  edestruct (X19_concurrent_launches 1800 1801 0 1 Scenario8.twoLaunches)
    as (_ & _ & H1 & _);
    [ lia | vm_compute; reflexivity | reflexivity
    | vm_compute; reflexivity | reflexivity
    | intros u' b H; vm_compute in H; discriminate |].
  fold w' in H1. split; [vm_compute; reflexivity|].
  rewrite H1. reflexivity.
Defined.

(** * The settle timer (lines 152-157 and 215-218) *)

Lemma onClose_conns now c w cn pg sKey :
  conns w !! c = Some cn → handler cn = Some (pg, sKey) →
  conns (onClose now c w) =
    <[c := with_scrollSettleTimer None (with_readyState CLOSED cn)]> (conns w).
Proof.
  intros Hcn Hh. unfold onClose. rewrite Hcn. simpl. rewrite Hh.
  destruct (scrollSettleTimer cn); reflexivity.
Qed.

Lemma settleTimers_handle c w :
  settle_ok w →
  ∀ id t, (id, t) ∈ settleTimers c w →
    (scrollSettleTimer <$> conns w !! c) = Some (Some id).
Proof.
  intros Hset id t Hin. apply settleTimers_elem in Hin as [Ht [pg Hcb]].
  destruct (Hset id t c pg Ht Hcb) as (cn & -> & Hid). simpl.
  rewrite Hid. reflexivity.
Qed.

Lemma settleTimers_short c w : settle_ok w → length (settleTimers c w) ≤ 1.
Proof.
  intros Hset.
  destruct (settleTimers c w) as [|[id0 t0] l] eqn:E; [simpl; lia|].
  apply (NoDup_same_key _ id0).
  - rewrite <- E. unfold settleTimers. apply NoDup_filter_fst.
    apply NoDup_fst_map_to_list.
  - intros [id t] Hin. simpl. rewrite <- E in Hin.
    pose proof (settleTimers_handle c w Hset id t Hin) as H1.
    assert (Hin0 : (id0, t0) ∈ settleTimers c w)
      by (rewrite E; apply list_elem_of_here).
    pose proof (settleTimers_handle c w Hset id0 t0 Hin0) as H2. congruence.
Qed.

Lemma short_list_singleton {A} (l : list A) x :
  x ∈ l → length l ≤ 1 → l = [x].
Proof.
  destruct l as [|y [|z l]]; simpl; intros Hin Hlen.
  - apply elem_of_nil in Hin. contradiction.
  - apply list_elem_of_singleton in Hin. subst. reflexivity.
  - lia.
Qed.

(** X14: when the socket of a connection with a listener closes, in a
    reachable world, no settle timer of that connection stays pending:
    the close handler cancels the only one there can be. *)
Theorem X14_close_cancels_the_settle_timer evs now c cn pg sKey :
  conns (run evs initial) !! c = Some cn → handler cn = Some (pg, sKey) →
  settleTimers c (onClose now c (run evs initial)) = [].
Proof.
  intros Hcn Hh.
  pose proof (Inv0_step now (Close c) (run evs initial)
                (Inv0_run evs initial Inv0_initial)) as [_ Hset _ _ _ _].
  simpl in Hset.
  destruct (settleTimers c (onClose now c (run evs initial)))
    as [|[id t] l] eqn:E; [reflexivity|]. exfalso.
  assert (Hin : (id, t) ∈ settleTimers c (onClose now c (run evs initial)))
    by (rewrite E; apply list_elem_of_here).
  pose proof (settleTimers_handle c _ Hset id t Hin) as H.
  rewrite (onClose_conns now c _ cn pg sKey Hcn Hh), lookup_insert_eq in H.
  discriminate.
Qed.

(** The theorem on a client that scrolls at 2000 and disconnects at 2300:
    the settle timer set at 2000 is cancelled. *)
Lemma X14_scroll_then_close_witness :
  let evs := (Scenario6.warm ++
              [(1990, Message 0 (Some (Scroll None (Some 100%Z))));
               (2000, AwaitSettled 0 true); (2050, TimerFired 2)])%Z in
  length (settleTimers 0 (run evs initial)) = 1 ∧
  settleTimers 0 (onClose 2300 0 (run evs initial)) = [].
Proof.
  intros evs. split; [vm_compute; reflexivity|].
  eapply (X14_close_cancels_the_settle_timer evs 2300 0);
    vm_compute; reflexivity.
Defined.

(** X20: when the [page.mouse.wheel] call of a wheel event returns, in a
    reachable world, exactly one settle timer of the connection is pending
    afterwards, due POST_EVENT_EXTRA_DELAY_MS after that moment, whose
    handle the connection holds.  When that timer fires it records the time
    in [lastScrollFrameTs] and requests one frame that is not forced. *)
Theorem X20_scroll_rearms_the_settle_timer evs now id c pg dx dy :
  let w := run evs initial in
  awaiting w !! id = Some (AwInteraction c pg (Scroll dx dy)) →
  let w' := awaitSettled now id true w in
  ∃ h cn',
    settleTimers c w' =
      [(h, {| due := (now + POST_EVENT_EXTRA_DELAY_MS)%Z; cb := CbSettle c pg |})] ∧
    conns w' !! c = Some cn' ∧ scrollSettleTimer cn' = Some h ∧
    ∀ now', (now + POST_EVENT_EXTRA_DELAY_MS ≤ now')%Z →
      timerFired now' h w' =
      sendFrame now' c pg {| force := false |}
        (store c (with_lastScrollFrameTs now' cn')
           (set_timers (delete h (timers w')) (nextTimer w') w')).
Proof.
  intros w Hid w'.
  pose proof (Inv0_run evs initial Inv0_initial) as HI. fold w in HI.
  destruct (inv_await _ HI id _ Hid) as (cn & Hcn & _).
  set (w0 := set_awaiting (delete id (awaiting w)) (nextAwait w) w).
  assert (Hw' : w' = scheduleScrollFrames now c pg w0).
  { subst w'. unfold awaitSettled. rewrite Hid. reflexivity. }
  pose proof (Inv0_step now (AwaitSettled id true) w HI) as [_ Hset _ _ _ _].
  simpl in Hset. fold w' in Hset.
  assert (Hcn0 : conns w0 !! c = Some cn) by exact Hcn.
  destruct (scheduleScrollFrames_spec now c pg w0 cn Hcn0)
    as (_ & _ & Hm & Htimer & _ & _).
  cbv zeta in Hm, Htimer. rewrite <- Hw' in Hm, Htimer.
  set (h := if (now - lastScrollFrameTs cn >? MIN_SCROLL_FRAME_INTERVAL_MS)%Z
            then S (nextTimer w0) else nextTimer w0) in *.
  eexists h, _. split; [|split; [|split]].
  - apply short_list_singleton; [|apply settleTimers_short; exact Hset].
    apply settleTimers_elem. split; [exact Htimer | eexists; reflexivity].
  - rewrite Hm. apply lookup_insert_eq.
  - reflexivity.
  - intros now' Hdue. unfold timerFired. rewrite Htimer. cbn [due cb].
    destruct (Z.leb_spec (now + POST_EVENT_EXTRA_DELAY_MS) now'); [|lia].
    unfold runCallback. cbn [conns set_timers]. rewrite Hm, lookup_insert_eq.
    reflexivity.
Qed.

(** The theorem on the second wheel event of a burst: the timer set by the
    first one (handle 3) is replaced by one due at 3550 (handle 4). *)
Lemma X20_second_scroll_witness :
  let evs := (Scenario6.warm ++
              [(1990, Message 0 (Some (Scroll None (Some 100%Z))));
               (2000, AwaitSettled 0 true);
               (2040, Message 0 (Some (Scroll None (Some 100%Z))))])%Z in
  settleTimers 0 (awaitSettled 2050 1 true (run evs initial)) =
    [(4, {| due := 3550; cb := CbSettle 0 2 |})].
Proof.
  intros evs.
  destruct (X20_scroll_rearms_the_settle_timer evs 2050 1 0 2 None (Some 100%Z))
    as (h & cn' & Hl & Hcn' & Hh & _); [vm_compute; reflexivity|].
  rewrite Hl.
  assert (E : Some h = Some 4).
  { rewrite <- Hh.
    assert (Hc : (scrollSettleTimer <$>
                    conns (awaitSettled 2050 1 true (run evs initial)) !! 0)
                 = Some (Some 4)) by (vm_compute; reflexivity).
    rewrite Hcn' in Hc. inversion Hc. reflexivity. }
  inversion E. reflexivity.
Defined.
(** * The first frame of a connection (lines 65-75, 251-253, 297-299) *)

(** After an event, the closure of a connection has the listeners it had
    before, or its scheduler variables are those that a connection starts
    with: the stored hash, the time of the last live scroll frame and the
    settle timer are reset when the listeners are attached. *)
Lemma attach_step now e w c cn' :
  Inv0 w → conns (handle now e w) !! c = Some cn' →
  (∃ cn, conns w !! c = Some cn ∧ handler cn' = handler cn) ∨
  (lastScreenshotHash cn' = None ∧ lastScrollFrameTs cn' = 0%Z ∧
   scrollSettleTimer cn' = None).
Proof.
  intros HI Hcn'.
  assert (Hq : ∀ k w1 cn1, quiet k w w1 → conns w1 !! c = Some cn1 →
            ∃ cn, conns w !! c = Some cn ∧ handler cn1 = handler cn).
  { intros k w1 cn1 Hq H1. pose proof (q_conns _ _ _ Hq c) as H.
    destruct (conns w !! c) as [cn|]; [|congruence].
    destruct H as (cn2 & H2 & Hs). rewrite H1 in H2. inversion H2; subst cn2.
    exists cn. split; [reflexivity | apply (ss_handler _ _ _ Hs)]. }
  destruct (handle_kind now e w)
    as [Hq'|Ho|c0 cn0 pg sKey w0 Hcn0 Hst Hq0 Hw'
       |id c0 pg cmd cn0 w0 Hid Hq0 Hcn0 Hw'
       |id t c0 pg cn0 Ht Hcb Hcn0 Hw'|c0 cn0 pg sKey Hcn0 Hh Hw'].
  - left. eapply Hq; eauto.
  - destruct (o_conns _ _ Ho) as (cn0 & Hm & Hh0 & Hts0 & Hst0 & _).
    rewrite Hm in Hcn'.
    apply lookup_insert_Some in Hcn' as [[_ <-]|[_ Hcn']]; [right; auto|].
    left. eauto.
  - rewrite Hw' in Hcn'. unfold armConnection, setupInteractionHandler in Hcn'.
    simpl in Hcn'.
    apply lookup_insert_Some in Hcn' as [[_ <-]|[_ Hcn']];
      [right; repeat split|].
    left. eapply (Hq true); eauto.
  - rewrite Hw' in Hcn'.
    destruct (scheduleScrollFrames_spec now c0 pg w0 cn0 Hcn0)
      as (_ & _ & Hm & _).
    rewrite Hm in Hcn'. left.
    apply lookup_insert_Some in Hcn' as [[<- <-]|[_ Hcn']].
    + destruct (Hq true w0 cn0 Hq0 Hcn0) as (cn & Hcn & Hh).
      exists cn. split; [exact Hcn|]. rewrite <- Hh.
      destruct (_ >? _)%Z; reflexivity.
    + eapply (Hq true); eauto.
  - left. rewrite Hw' in Hcn'.
    set (ws := store c0 _ _) in Hcn'.
    pose proof (q_conns _ _ _
                  (sendFrame_quiet true now c0 pg {| force := false |} ws) c)
      as H.
    destruct (conns ws !! c) as [cn1|] eqn:Hcn1; [|congruence].
    destruct H as (cn2 & H2 & Hs). rewrite Hcn' in H2. inversion H2; subst cn2.
    rewrite (ss_handler _ _ _ Hs). subst ws. simpl in Hcn1.
    apply lookup_insert_Some in Hcn1 as [[<- <-]|[_ Hcn1]]; eauto.
  - left. rewrite Hw' in Hcn'.
    assert (Hc : conns (setTimeout now (CbRemove sKey) SESSION_REMOVAL_DELAY_MS
                         (store c0 (with_scrollSettleTimer None
                                      (with_readyState CLOSED cn0))
                            (match scrollSettleTimer cn0 with
                             | Some h => clearTimeout now h w
                             | None => w
                             end)))
                = <[c0 := with_scrollSettleTimer None
                            (with_readyState CLOSED cn0)]> (conns w))
      by (destruct (scrollSettleTimer cn0); reflexivity).
    rewrite Hc in Hcn'.
    apply lookup_insert_Some in Hcn' as [[<- <-]|[_ Hcn']]; eauto.
Qed.

(** X15: whichever way the listeners of a connection get attached (a reused
    session, or the end of a set-up), in a reachable world, the stored hash,
    the time of the last live scroll frame and the settle timer of the
    connection are reset at that moment.  The stored hash then stays unset
    as long as no capture of the connection has completed successfully,
    whatever else the server handles: the first capture of the connection
    that completes is delivered whenever the socket is open, forced or not,
    and whatever was sent for the session before. *)
Theorem X15_first_capture_is_delivered evs0 now e c cn' :
  let w := run evs0 initial in
  let w' := handle now e w in
  (∀ cn, conns w !! c = Some cn → handler cn = None) →
  conns w' !! c = Some cn' → is_Some (handler cn') →
  lastScreenshotHash cn' = None ∧ lastScrollFrameTs cn' = 0%Z ∧
  scrollSettleTimer cn' = None ∧
  ∀ evs, noneResolved c evs w' = true →
    ∃ cn2, conns (run evs w') !! c = Some cn2 ∧
      lastScreenshotHash cn2 = None ∧
      ∀ now' id cap s,
        List.find (λ k, bool_decide (cap_id k = id)) (inflight (run evs w'))
          = Some cap →
        cap_conn cap = c → readyState cn2 = OPEN →
        sent c (screenshotSettled now' id (Resolved s) (run evs w')) =
          sent c (run evs w') ++ [s].
Proof.
  intros w w' Hbefore Hcn' Hhd.
  pose proof (Inv0_run evs0 initial Inv0_initial) as HI. fold w in HI.
  pose proof (Inv0_step now e w HI) as HI'. fold w' in HI'.
  destruct (attach_step now e w c cn' HI Hcn')
    as [(cn & Hcn & Hh)|(Hhash & Hts & Hst)].
  { rewrite Hh, (Hbefore cn Hcn) in Hhd. destruct Hhd; discriminate. }
  split; [exact Hhash|]. split; [exact Hts|]. split; [exact Hst|].
  intros evs Hnone.
  destruct (hash_run evs w' c cn' HI' Hcn' Hhd Hnone) as (cn2 & Hcn2 & Hh2).
  exists cn2. split; [exact Hcn2|]. split; [congruence|].
  intros now' id cap s Hfind Hcap Hopen.
  rewrite <- Hcap in Hcn2.
  destruct (settled_resolved_spec now' id s (run evs w') cap cn2 Hfind Hcn2)
    as (_ & _ & _ & _ & _ & Hsend).
  rewrite Hcap in Hsend. rewrite Hsend.
  - rewrite decide_True by exact Hopen. reflexivity.
  - right. rewrite Hh2, Hhash. discriminate.
Qed.

(** The theorem on a client whose set-up ends at 1001 and who clicks at
    1005: the capture of the click's frame, which is not forced, starts at
    1060 and is the first one to complete, at 1090; its frame is
    delivered. *)
Lemma X15_click_frame_witness :
  let w' := handle 1001 (SetupSettled 0 true) Scenario8.atTitle in
  let w2 := run [(1005, Message 0 (Some (Click 10 10 None)));
                 (1010, AwaitSettled 0 true); (1060, TimerFired 2)]%Z w' in
  sent 0 (screenshotSettled 1090 0 (Resolved Scenario.frameA) w2) =
    [Scenario.frameA].
Proof.
  intros w' w2. subst w2 w'. unfold Scenario8.atTitle.
  edestruct (X15_first_capture_is_delivered
               (Scenario.connects 1000 Scenario.u1s1 0 5) 1001
               (SetupSettled 0 true) 0)
    as (_ & _ & _ & Hfirst).
  - intros cn Hcn. vm_compute in Hcn. inversion Hcn. reflexivity.
  - vm_compute. reflexivity.
  - simpl. eauto.
  - destruct (Hfirst [(1005, Message 0 (Some (Click 10 10 None)));
                      (1010, AwaitSettled 0 true); (1060, TimerFired 2)]%Z)
      as (cn2 & Hcn2 & _ & Hsend); [vm_compute; reflexivity|].
    match type of Hcn2 with
    | conns ?W !! 0 = _ =>
        assert (Hopen : (readyState <$> conns W !! 0) = Some OPEN)
          by (vm_compute; reflexivity)
    end.
    rewrite Hcn2 in Hopen. inversion Hopen as [Hopen'].
    rewrite (Hsend 1090%Z 0 {| cap_id := 0; cap_conn := 0; cap_page := 2;
                               cap_options := {| force := false |} |}
               Scenario.frameA);
      [| vm_compute; reflexivity | reflexivity | exact Hopen'].
    vm_compute. reflexivity.
Defined.

(** * Nothing is sent on a socket that is not open (line 102) *)

Lemma qe_refl c l : quietlyExtends c l l.
Proof. exists []. split; [symmetry; apply app_nil_r | reflexivity]. Qed.

Lemma qe_snoc c l l' e :
  quietlyExtends c l l' → sentOf c e = None → quietlyExtends c l (l' ++ [e]).
Proof.
  intros (k & -> & Hk) He. exists (k ++ [e]). split.
  - symmetry; apply app_assoc.
  - rewrite omap_snoc, Hk, He. reflexivity.
Qed.

Ltac qe := simpl; repeat first [apply qe_refl | apply qe_snoc; [|reflexivity]].

Lemma mute_refl c w : mute c w w.
Proof. intros H. split; [exact H | reflexivity]. Qed.

Lemma mute_trans c w1 w2 w3 : mute c w1 w2 → mute c w2 w3 → mute c w1 w3.
Proof.
  intros H12 H23 H1. destruct (H12 H1) as [H2 E12].
  destruct (H23 H2) as [H3 E23]. split; [exact H3 | congruence].
Qed.

Lemma mute_intro c w w' :
  (notOpen c w → notOpen c w') →
  quietlyExtends c (effects w) (effects w') → mute c w w'.
Proof.
  intros Hn (k & Hk & Hs) H. split; [auto|].
  unfold sent. rewrite Hk, omap_app, Hs. apply app_nil_r.
Qed.

Lemma mute_by c w w' :
  conns w' = conns w → quietlyExtends c (effects w) (effects w') → mute c w w'.
Proof.
  intros Hc Hq. apply mute_intro; [|exact Hq].
  intros (cn & H1 & H2). exists cn. rewrite Hc. auto.
Qed.

Ltac mute_by_effects := apply mute_by; [reflexivity | qe].

Lemma mute_store c c' cn' w :
  (∀ cn, conns w !! c' = Some cn → readyState cn ≠ OPEN → readyState cn' ≠ OPEN) →
  mute c w (store c' cn' w).
Proof.
  intros Hrs. apply mute_intro; [|qe].
  intros (cn & H1 & H2). unfold notOpen. simpl.
  destruct (decide (c = c')) as [->|Hne].
  - exists cn'. rewrite lookup_insert_eq. split; [reflexivity | eauto].
  - exists cn. rewrite lookup_insert_ne by congruence. auto.
Qed.

Lemma mute_store_same c c' cn cn' w :
  conns w !! c' = Some cn → readyState cn' = readyState cn →
  mute c w (store c' cn' w).
Proof.
  intros Hcn Hrs. apply mute_store. intros cn0 H0 Hno.
  rewrite Hcn in H0. inversion H0; subst cn0. congruence.
Qed.

Lemma mute_setTimeout c now f d w : mute c w (setTimeout now f d w).
Proof. unfold setTimeout. mute_by_effects. Qed.

Lemma mute_clearTimeout c now id w : mute c w (clearTimeout now id w).
Proof. unfold clearTimeout. mute_by_effects. Qed.

Lemma sendFrame_finally_mute c now c' pg cn0 cn w :
  conns w !! c' = Some cn0 → readyState cn = readyState cn0 →
  mute c w (sendFrame_finally now c' pg cn w).
Proof.
  intros Hcn Hrs. unfold sendFrame_finally.
  destruct (_ && _).
  - eapply mute_trans; [|apply mute_setTimeout].
    apply (mute_store_same c c' cn0); [exact Hcn | exact Hrs].
  - apply (mute_store_same c c' cn0); [exact Hcn | exact Hrs].
Qed.

Lemma sendFrame_mute c now c' pg o w : mute c w (sendFrame now c' pg o w).
Proof.
  unfold sendFrame. destruct (conns w !! c') as [cn|] eqn:Hcn; [|apply mute_refl].
  destruct (isClosed pg w).
  - apply (sendFrame_finally_mute c now c' pg cn); [exact Hcn | reflexivity].
  - destruct (isCapturing cn).
    + apply (sendFrame_finally_mute c now c' pg cn); [exact Hcn | reflexivity].
    + apply (mute_trans c w (store c' (with_isCapturing true cn) w)).
      * apply (mute_store_same c c' cn); [exact Hcn | reflexivity].
      * mute_by_effects.
Qed.

Lemma sendFrame_deliver_mute c now c' o s cn w :
  conns w !! c' = Some cn →
  readyState (sendFrame_deliver now c' o s cn w).1 = readyState cn ∧
  conns (sendFrame_deliver now c' o s cn w).2 = conns w ∧
  mute c w (sendFrame_deliver now c' o s cn w).2.
Proof.
  intros Hcn. unfold sendFrame_deliver.
  destruct (_ && _); simpl.
  - split; [reflexivity|]. split; [reflexivity | apply mute_refl].
  - split; [reflexivity|]. destruct (decide (readyState cn = OPEN)) as [Hopen|Hno].
    + split; [reflexivity|]. destruct (decide (c' = c)) as [->|Hne].
      * intros (cn0 & H0 & Hn0). rewrite Hcn in H0. inversion H0; subst cn0.
        contradiction.
      * apply mute_by; [reflexivity|]. simpl. apply qe_snoc; [apply qe_refl|].
        unfold sentOf. simpl. rewrite decide_False by exact Hne. reflexivity.
    + split; [reflexivity | apply mute_refl].
Qed.

Lemma sendFrame_catch_mute c now msg cn w :
  readyState (sendFrame_catch now msg cn w).1 = readyState cn ∧
  conns (sendFrame_catch now msg cn w).2 = conns w ∧
  mute c w (sendFrame_catch now msg cn w).2.
Proof.
  unfold sendFrame_catch.
  repeat match goal with
         | |- context [match ?x with _ => _ end] => destruct x
         | |- context [if ?b then _ else _] => destruct b
         end; simpl;
    (split; [reflexivity|]); (split; [reflexivity|]);
    first [apply mute_refl | mute_by_effects].
Qed.

Lemma screenshotSettled_mute c now id r w :
  mute c w (screenshotSettled now id r w).
Proof.
  unfold screenshotSettled.
  destruct (List.find _ (inflight w)) as [cap|]; [|apply mute_refl].
  set (w0 := set_inflight _ _ w).
  assert (H0 : mute c w w0) by (subst w0; mute_by_effects).
  destruct (conns w0 !! cap_conn cap) as [cn|] eqn:Hcn; [|exact H0].
  apply (mute_trans c w w0); [exact H0|].
  destruct r as [s|msg].
  - destruct (sendFrame_deliver_mute c now (cap_conn cap) (cap_options cap) s
                cn w0 Hcn) as (Hrs & Hc & Hm).
    destruct (sendFrame_deliver _ _ _ _ _ _) as [cn' w']. simpl in *.
    apply (mute_trans c w0 w'); [exact Hm|].
    apply (sendFrame_finally_mute c now _ _ cn); [rewrite Hc; exact Hcn | exact Hrs].
  - destruct (sendFrame_catch_mute c now msg cn w0) as (Hrs & Hc & Hm).
    destruct (sendFrame_catch _ _ _ _) as [cn' w']. simpl in *.
    apply (mute_trans c w0 w'); [exact Hm|].
    apply (sendFrame_finally_mute c now _ _ cn); [rewrite Hc; exact Hcn | exact Hrs].
Qed.

Lemma scheduleEventFrames_mute c now c' pg d w :
  mute c w (scheduleEventFrames now c' pg d w).
Proof.
  unfold scheduleEventFrames.
  eapply mute_trans; apply mute_setTimeout.
Qed.

Lemma scheduleNavFrames_mute c now c' pg f w :
  mute c w (scheduleNavFrames now c' pg f w).
Proof.
  unfold scheduleNavFrames.
  eapply mute_trans; apply mute_setTimeout.
Qed.

Lemma scheduleScrollFrames_mute c now c' pg w :
  mute c w (scheduleScrollFrames now c' pg w).
Proof.
  unfold scheduleScrollFrames.
  destruct (conns w !! c') as [cn|] eqn:Hcn; [|apply mute_refl].
  destruct (_ >? _)%Z; cbv zeta beta iota;
    destruct (scrollSettleTimer _);
    (eapply mute_trans; [|apply mute_setTimeout]);
    (eapply mute_trans;
     [|apply (mute_store_same c c' cn); [simpl; exact Hcn | reflexivity]]);
    first [apply mute_refl | unfold clearTimeout, setTimeout; mute_by_effects].
Qed.

Lemma onMessage_mute c now c' data w :
  mute c w (onMessage now c' data w).
Proof.
  unfold onMessage.
  destruct (conns w !! c') as [cn|]; [|apply mute_refl].
  destruct (handler cn) as [[pg sKey]|]; [|apply mute_refl].
  destruct (isClosed pg w); [apply mute_refl|].
  destruct data as [[x y button|dx dy|key text| | | |type]|];
    repeat match goal with
           | |- context [if ?b then _ else _] => destruct b
           end;
    first [ apply mute_refl
          | apply scheduleEventFrames_mute
          | unfold logInteractionError, await; mute_by_effects ].
Qed.

Lemma sweepLoop_mute c now l : ∀ i w, mute c w (sweepLoop now l i w).
Proof.
  induction l as [|[[u b]|] l IH]; intros i w; cbn [sweepLoop];
    [apply mute_refl| |apply IH].
  destruct (stillUsed b w); [apply IH|]. unfold await. mute_by_effects.
Qed.

Lemma awaitSettled_mute c now id ok w : mute c w (awaitSettled now id ok w).
Proof.
  unfold awaitSettled.
  destruct (awaiting w !! id) as [[c' pg cmd|u b i]|]; [| |apply mute_refl];
    cbv zeta; set (w0 := set_awaiting _ _ w);
    (apply (mute_trans c w w0); [subst w0; mute_by_effects|]).
  - unfold interactionSettled. destruct ok;
      [|unfold logInteractionError; mute_by_effects].
    destruct cmd;
      first [ apply mute_refl | apply scheduleEventFrames_mute
            | apply scheduleNavFrames_mute | apply scheduleScrollFrames_mute ].
  - unfold browserCloseSettled, sweepFrom. cbv zeta.
    set (w1 := set_userBrowsers _ _).
    apply (mute_trans c w0 w1); [|apply sweepLoop_mute].
    subst w1. destruct ok; unfold browserClosed; mute_by_effects.
Qed.

Lemma onClose_mute c now c' w : mute c w (onClose now c' w).
Proof.
  unfold onClose.
  destruct (conns w !! c') as [cn|] eqn:Hcn; [|apply mute_refl].
  cbv zeta. destruct (handler _) as [[pg sKey]|].
  - eapply mute_trans; [|apply mute_setTimeout].
    destruct (scrollSettleTimer _).
    + eapply mute_trans; [apply mute_clearTimeout|].
      apply mute_store. intros; discriminate.
    + apply mute_store. intros; discriminate.
  - apply mute_store. intros; discriminate.
Qed.

Lemma timerFired_mute c now id w : mute c w (timerFired now id w).
Proof.
  unfold timerFired. destruct (timers w !! id) as [t|]; [|apply mute_refl].
  destruct (Z.leb _ _); [|apply mute_refl].
  set (w0 := set_timers _ _ w).
  assert (H0 : mute c w w0) by (subst w0; mute_by_effects).
  apply (mute_trans c w w0); [exact H0|].
  destruct (cb t) as [site c' pg o|c' pg|sKey]; simpl.
  - apply sendFrame_mute.
  - destruct (conns w !! c') as [cn|] eqn:Hcn; [|apply mute_refl].
    eapply mute_trans; [|apply sendFrame_mute].
    apply (mute_store_same c c' cn); [exact Hcn | reflexivity].
  - destruct (activeSessions w !! sKey); [|apply mute_refl].
    unfold closeContext. mute_by_effects.
Qed.

Lemma armConnection_mute c now c' pg sKey cn0 cn w :
  conns w !! c' = Some cn0 → readyState cn = readyState cn0 →
  mute c w (armConnection now c' pg sKey cn w).
Proof.
  intros Hcn Hrs. unfold armConnection, setupInteractionHandler. cbv zeta.
  eapply mute_trans; [apply mute_setTimeout|].
  eapply mute_trans; [apply mute_setTimeout|].
  apply (mute_store_same c c' cn0); [exact Hcn | exact Hrs].
Qed.

Lemma criticalError_mute c now c' cn0 cn w :
  conns w !! c' = Some cn0 → readyState cn = readyState cn0 →
  mute c w (criticalError now c' cn w).
Proof.
  intros Hcn Hrs. unfold criticalError. cbv zeta.
  apply (mute_trans c w (emit now (ELog "Error crítico") w));
    [mute_by_effects|].
  destruct (decide _).
  - apply (mute_trans c _ (store c' (with_readyState CLOSING cn)
                                 (emit now (ELog "Error crítico") w)));
      [apply mute_store; intros; discriminate | mute_by_effects].
  - apply (mute_store_same c c' cn0); [exact Hcn | exact Hrs].
Qed.

Lemma suspend_mute c c' cn st w :
  conns w !! c' = Some cn → mute c w (suspend c' cn st w).
Proof.
  intros Hcn. unfold suspend.
  apply (mute_store_same c c' cn); [exact Hcn | reflexivity].
Qed.

Lemma onConnection_mute c now q w :
  conns w !! nextConn w = None → mute c w (onConnection now q w).
Proof.
  intros Hfresh. unfold onConnection. cbv zeta.
  set (userId := orElse (q_userId q) _).
  set (targetUrl := orElse (q_url q) _).
  set (sKey := sessionKeyOf now q).
  clearbody userId targetUrl sKey.
  set (cn := with_sessionKey (Some sKey) newConn).
  set (w0 := set_nextConn (S (nextConn w)) (store (nextConn w) cn w)).
  assert (H0 : mute c w w0).
  { apply (mute_trans c w (store (nextConn w) cn w)); [|mute_by_effects].
    apply mute_store. intros cn0 H. rewrite Hfresh in H. discriminate. }
  apply (mute_trans c w w0); [exact H0|].
  assert (Hcn : conns w0 !! nextConn w = Some cn) by apply lookup_insert_eq.
  destruct (match activeSessions w0 !! sKey with
            | Some s => if isClosed (page s) w0 then None else Some s
            | None => None
            end);
    [apply (armConnection_mute c now _ _ _ cn); [exact Hcn | reflexivity]|].
  destruct (JsMap.has _ _); [destruct (JsMap.get _ _)|];
    first [ apply suspend_mute; exact Hcn
          | apply (criticalError_mute c now _ cn); [exact Hcn | reflexivity] ].
Qed.

Lemma setupSettled_mute c now c' ok w : mute c w (setupSettled now c' ok w).
Proof.
  unfold setupSettled.
  destruct (conns w !! c') as [cn|] eqn:Hcn; [|apply mute_refl].
  cbv zeta.
  assert (Hcrit : mute c w (criticalError now c' (with_setup None cn) w))
    by (apply (criticalError_mute c now c' cn); [exact Hcn | reflexivity]).
  assert (Hsus : ∀ st wi, mute c w wi → conns wi = conns w →
            mute c w (suspend c' cn st wi)).
  { intros st wi Hm Hc. apply (mute_trans c w wi); [exact Hm|].
    apply suspend_mute. rewrite Hc. exact Hcn. }
  assert (Hreg : ∀ b ctx pg wi, mute c w wi → conns wi = conns w →
            mute c w (register now c' b ctx pg (with_setup None cn) wi)).
  { intros b ctx pg wi Hm Hc. unfold register.
    destruct (sessionKey _) as [sKey|]; [|exact Hm].
    apply (mute_trans c w wi); [exact Hm|].
    set (wj := set_activeSessions _ wi).
    apply (mute_trans c wi wj); [subst wj; mute_by_effects|].
    apply (armConnection_mute c now c' pg sKey cn);
      [subst wj; simpl; rewrite Hc; exact Hcn | reflexivity]. }
  destruct (setup cn) as [[u url|b url|b ctx url|b ctx pg url|b ctx pg url
                           |b ctx pg|b ctx pg]|]; [| | | | | | |apply mute_refl];
    destruct ok; try exact Hcrit;
    first [ apply Hsus; [|reflexivity] | apply Hreg; [|reflexivity] ];
    first [ apply mute_refl | unfold navigate; mute_by_effects ].
Qed.

Lemma sweep_mute c now w : mute c w (sweep now w).
Proof.
  unfold sweep, sweepFrom.
  apply (mute_trans c w (emit now (ELog "Sweep") w)); [mute_by_effects|].
  apply sweepLoop_mute.
Qed.

Lemma handle_mute c now e w :
  ids_ok w → mute c w (handle now e w).
Proof.
  intros Hids. destruct e as [q|c' ok|c' data|id ok|c'|id|id r| |pg|pg url];
    simpl.
  - apply onConnection_mute. apply ids_ok_fresh. exact Hids.
  - apply setupSettled_mute.
  - apply onMessage_mute.
  - apply awaitSettled_mute.
  - apply onClose_mute.
  - apply timerFired_mute.
  - apply screenshotSettled_mute.
  - apply sweep_mute.
  - unfold pageClosed. mute_by_effects.
  - unfold navigate. mute_by_effects.
Qed.

Lemma run_mute c evs : ∀ w, Inv0 w → mute c w (run evs w).
Proof.
  induction evs as [|[now e] evs IH]; intros w HI; simpl; [apply mute_refl|].
  apply (mute_trans c w (handle now e w)).
  - apply handle_mute. exact (inv_ids _ HI).
  - apply IH. apply Inv0_step. exact HI.
Qed.

(** X16: once the socket of a connection is not open any more, whatever the
    server handles afterwards sends nothing on it, and the socket is never
    seen open again: a capture that completes later updates the closure but
    delivers no frame. *)
Theorem X16_nothing_sent_after_close evs0 evs c cn :
  let w := run evs0 initial in
  conns w !! c = Some cn → readyState cn ≠ OPEN →
  sent c (run evs w) = sent c w ∧
  ∃ cn', conns (run evs w) !! c = Some cn' ∧ readyState cn' ≠ OPEN.
Proof.
  intros w Hcn Hno.
  destruct (run_mute c evs w (Inv0_run evs0 initial Inv0_initial))
    as [(cn' & H1 & H2) Hs].
  - exists cn. auto.
  - split; [exact Hs | eauto].
Qed.

(** The theorem on a client that receives its first frame at 1200 and
    leaves at 2000, while its second initial frame is still to come: that
    frame is captured at 2500, differs from the first and is not sent. *)
Lemma X16_frame_after_close_witness :
  let w := run (Scenario6.warm ++ [(2000%Z, Close 0)]) initial in
  sent 0 (run [(2500, TimerFired 1);
               (2600, ScreenshotSettled 1 (Resolved Scenario.frameB))]%Z w) =
    [Scenario.frameA].
Proof.
  intros w.
  edestruct (X16_nothing_sent_after_close
               (Scenario6.warm ++ [(2000%Z, Close 0)])
               [(2500, TimerFired 1);
                (2600, ScreenshotSettled 1 (Resolved Scenario.frameB))]%Z 0)
    as [Hs _]; [vm_compute; reflexivity | vm_compute; discriminate |].
  fold w in Hs. rewrite Hs. vm_compute. reflexivity.
Defined.

(** * Session keys (lines 237-247) *)

Lemma string_app_assoc (a b c : string) : (a +:+ b) +:+ c = a +:+ (b +:+ c).
Proof.
  induction a as [|x a IH]; [reflexivity | exact (f_equal (String x) IH)].
Qed.

Lemma string_app_nonempty (a b : string) : a ≠ ""%string → a +:+ b ≠ ""%string.
Proof. destruct a; [congruence | discriminate]. Qed.

Lemma orElse_Some s fallback : s ≠ ""%string → orElse (Some s) fallback = s.
Proof.
  intros Hs. unfold orElse, truthy. rewrite bool_decide_eq_false_2 by exact Hs.
  reflexivity.
Qed.

(** X17: the session key joins the two ids with an underscore, so it does
    not tell the user [u_s] with session [t] from the user [u] with session
    [s_t].  When the first one's session is registered with an open page, a
    connection of the second one reuses it: its closure is bound to that
    page and no browser is looked up or launched for the user [u]. *)
Theorem X17_session_key_collision now1 now2 u s t url1 url2 w :
  u ≠ ""%string → t ≠ ""%string →
  let q1 := {| q_userId := Some (u +:+ "_" +:+ s); q_sessionId := Some t;
               q_url := url1 |} in
  let q2 := {| q_userId := Some u; q_sessionId := Some (s +:+ "_" +:+ t);
               q_url := url2 |} in
  sessionKeyOf now2 q2 = sessionKeyOf now1 q1 ∧
  ∀ sess,
    activeSessions w !! sessionKeyOf now1 q1 = Some sess →
    isClosed (page sess) w = false →
    let w' := onConnection now2 q2 w in
    userBrowsers w' = userBrowsers w ∧
    ∃ cn, conns w' !! nextConn w = Some cn ∧
          handler cn = Some (page sess, sessionKeyOf now1 q1).
Proof.
  intros Hu Ht q1 q2.
  assert (Hkey : sessionKeyOf now2 q2 = sessionKeyOf now1 q1).
  { unfold sessionKeyOf, q1, q2. cbn [q_userId q_sessionId].
    rewrite !orElse_Some by
      (try assumption; try (apply string_app_nonempty; assumption);
       destruct s; discriminate).
    rewrite !string_app_assoc. reflexivity. }
  split; [exact Hkey|].
  intros sess Hs Hopen w'. subst w'. rewrite <- Hkey in Hs |- *.
  rewrite (onConnection_reuse now2 q2 w sess Hs Hopen). cbv zeta.
  set (cn := with_sessionKey (Some (sessionKeyOf now2 q2)) newConn).
  set (w0 := set_nextConn (S (nextConn w)) (store (nextConn w) cn w)).
  destruct (armConnection_effects now2 (nextConn w) (page sess)
              (sessionKeyOf now2 q2) cn w0)
    as (Hb & _ & _ & _ & _ & _ & _ & _ & Hc).
  cbv zeta in Hb, Hc. rewrite Hb, Hc, lookup_insert_eq.
  split; [reflexivity|]. eexists. split; reflexivity.
Qed.

(** The theorem on the user [a_b] with session [c], connected at 1000, and
    the user [a] with session [b_c], who connects at 1050: the second
    closure is bound to page 2, the page of the first user, and the pool
    holds no browser of the user [a]. *)
Lemma X17_collision_witness :
  let q1 := {| q_userId := Some "a_b"%string; q_sessionId := Some "c"%string;
               q_url := None |} in
  let q2 := {| q_userId := Some "a"%string; q_sessionId := Some "b_c"%string;
               q_url := None |} in
  let w := run (Scenario.connects 1000 q1 0 6) initial in
  let w' := onConnection 1050 q2 w in
  JsMap.keys (userBrowsers w') = ["a_b"%string] ∧
  ∃ cn, conns w' !! 1 = Some cn ∧ handler cn = Some (2, "a_b_c"%string).
Proof.
  intros q1 q2 w w'.
  destruct (X17_session_key_collision 1000 1050 "a"%string "b"%string
              "c"%string None None w) as [_ H];
    [discriminate | discriminate |].
  destruct (H {| browser := 0; context := 1; page := 2 |}) as [Hb Hc];
    [vm_compute; reflexivity | vm_compute; reflexivity |].
  split.
  - change (userBrowsers w' = userBrowsers w) in Hb. rewrite Hb.
    vm_compute; reflexivity.
  - exact Hc.
Defined.
